(** * Battle core of the grid tactics server: a shallow embedding

    The TypeScript sources embedded here are [shared/types] (the data
    model and [GAME_CONSTANTS]), [src/game/TurnManager.ts] (its second
    revision, which keeps movement points per character),
    [src/game/MovementSystem.ts], [src/game/MovementSystem.old.ts],
    [src/game/CombatSystem.ts], [src/game/TimerManager.ts] and
    [src/game/BattleManager.ts].  [src/game/GridSystem.ts] is not among
    the sources; its functions are modelled from the specification.

    Conventions.
    - A JavaScript [number] is a [Z]: every quantity of the battle core is
      an integer far below 2^53, where double arithmetic is exact.
    - An optional field ([movementPointsLeft?], [winner?], [damageBonus?])
      is an [option]; [None] is [undefined].
    - The battle record is one mutable object shared by every caller.  A
      function that mutates it takes the record and gives the record back;
      a [Character] reference obtained with [Array.find] is the index of
      that character in [characters], so two references to one object are
      one index.
    - [Date.now()] and [new Date()] are the argument [now]: one call of the
      engine is synchronous, and all clock readings taken in it are the same
      instant. *)

From Stdlib Require Import ZArith Lia Bool String DecimalString.
From stdpp Require Import base list gmap.

Local Open Scope string_scope.
Local Open Scope Z_scope.

(** ** shared/types *)

Inductive CombatType := MELEE | RANGED.

Inductive Team := PLAYER1 | PLAYER2.

Inductive EquipmentSlot := WEAPON | ARMOR | ACCESSORY1 | ACCESSORY2.

Inductive Status := waiting | active | finished.

Definition Team_eqb (a b : Team) : bool :=
  match a, b with
  | PLAYER1, PLAYER1 | PLAYER2, PLAYER2 => true
  | _, _ => false
  end.

Definition CombatType_eqb (a b : CombatType) : bool :=
  match a, b with
  | MELEE, MELEE | RANGED, RANGED => true
  | _, _ => false
  end.

Module Position.
Record t := mk { x : Z; y : Z }.
End Position.
Abbreviation Position := Position.t.

Module Equipment.
Record t := mk {
    id : string;
    name : string;
    slot : EquipmentSlot;
    damageBonus : option Z;
    armorBonus : option Z;
    hpBonus : option Z;
    requiredLevel : Z
  }.
End Equipment.
Abbreviation Equipment := Equipment.t.

(** The [equipment] object of a character, one optional item per slot. *)
Module Loadout.
Record t := mk {
    weapon : option Equipment;
    armor : option Equipment;
    accessory1 : option Equipment;
    accessory2 : option Equipment
  }.
Definition empty : t := mk None None None None.
End Loadout.
Abbreviation Loadout := Loadout.t.

Module Character.
Record t := mk {
    id : string;
    name : string;
    level : Z;
    experience : Z;
    position : Position;
    maxHp : Z;
    currentHp : Z;
    baseDamage : Z;
    baseArmor : Z;
    combatType : CombatType;
    equipment : Loadout;
    unlockedSlots : list EquipmentSlot;
    team : Team;
    isAlive : bool;
    hasMoved : bool;
    hasAttacked : bool;
    movementPointsLeft : option Z
  }.

  (** Field assignments [c.f = v]. *)
Definition set_position (v : Position) (c : t) : t :=
    mk (id c) (name c) (level c) (experience c) v (maxHp c) (currentHp c)
       (baseDamage c) (baseArmor c) (combatType c) (equipment c)
       (unlockedSlots c) (team c) (isAlive c) (hasMoved c) (hasAttacked c)
       (movementPointsLeft c).
Definition set_currentHp (v : Z) (c : t) : t :=
    mk (id c) (name c) (level c) (experience c) (position c) (maxHp c) v
       (baseDamage c) (baseArmor c) (combatType c) (equipment c)
       (unlockedSlots c) (team c) (isAlive c) (hasMoved c) (hasAttacked c)
       (movementPointsLeft c).
Definition set_isAlive (v : bool) (c : t) : t :=
    mk (id c) (name c) (level c) (experience c) (position c) (maxHp c)
       (currentHp c) (baseDamage c) (baseArmor c) (combatType c) (equipment c)
       (unlockedSlots c) (team c) v (hasMoved c) (hasAttacked c)
       (movementPointsLeft c).
Definition set_hasAttacked (v : bool) (c : t) : t :=
    mk (id c) (name c) (level c) (experience c) (position c) (maxHp c)
       (currentHp c) (baseDamage c) (baseArmor c) (combatType c) (equipment c)
       (unlockedSlots c) (team c) (isAlive c) (hasMoved c) v
       (movementPointsLeft c).
Definition set_movementPointsLeft (v : option Z) (c : t) : t :=
    mk (id c) (name c) (level c) (experience c) (position c) (maxHp c)
       (currentHp c) (baseDamage c) (baseArmor c) (combatType c) (equipment c)
       (unlockedSlots c) (team c) (isAlive c) (hasMoved c) (hasAttacked c) v.
End Character.
Abbreviation Character := Character.t.

Module GameState.
Record t := mk {
    id : string;
    player1Id : string;
    player2Id : string;
    gridWidth : Z;
    gridHeight : Z;
    characters : list Character;
    currentTurn : Team;
    turnNumber : Z;
    movementPointsLeft : Z;
    status : Status;
    winner : option Team;
    turnStartTime : option Z;
    turnTimeLimit : Z;
    battleStartTime : option Z;
    battleTimeLimit : Z;
    createdAt : Z;
    updatedAt : Z;
    (** [autoEndTurn] is not declared in the interface: [executeMove]
        creates it with the value [true].  [false] is the absent
        (falsy) field. *)
    autoEndTurn : bool
  }.

Definition set_characters (v : list Character) (g : t) : t :=
    mk (id g) (player1Id g) (player2Id g) (gridWidth g) (gridHeight g) v
       (currentTurn g) (turnNumber g) (movementPointsLeft g) (status g)
       (winner g) (turnStartTime g) (turnTimeLimit g) (battleStartTime g)
       (battleTimeLimit g) (createdAt g) (updatedAt g) (autoEndTurn g).
Definition set_currentTurn (v : Team) (g : t) : t :=
    mk (id g) (player1Id g) (player2Id g) (gridWidth g) (gridHeight g)
       (characters g) v (turnNumber g) (movementPointsLeft g) (status g)
       (winner g) (turnStartTime g) (turnTimeLimit g) (battleStartTime g)
       (battleTimeLimit g) (createdAt g) (updatedAt g) (autoEndTurn g).
Definition set_turnNumber (v : Z) (g : t) : t :=
    mk (id g) (player1Id g) (player2Id g) (gridWidth g) (gridHeight g)
       (characters g) (currentTurn g) v (movementPointsLeft g) (status g)
       (winner g) (turnStartTime g) (turnTimeLimit g) (battleStartTime g)
       (battleTimeLimit g) (createdAt g) (updatedAt g) (autoEndTurn g).
Definition set_movementPointsLeft (v : Z) (g : t) : t :=
    mk (id g) (player1Id g) (player2Id g) (gridWidth g) (gridHeight g)
       (characters g) (currentTurn g) (turnNumber g) v (status g)
       (winner g) (turnStartTime g) (turnTimeLimit g) (battleStartTime g)
       (battleTimeLimit g) (createdAt g) (updatedAt g) (autoEndTurn g).
Definition set_status (v : Status) (g : t) : t :=
    mk (id g) (player1Id g) (player2Id g) (gridWidth g) (gridHeight g)
       (characters g) (currentTurn g) (turnNumber g) (movementPointsLeft g) v
       (winner g) (turnStartTime g) (turnTimeLimit g) (battleStartTime g)
       (battleTimeLimit g) (createdAt g) (updatedAt g) (autoEndTurn g).
Definition set_winner (v : option Team) (g : t) : t :=
    mk (id g) (player1Id g) (player2Id g) (gridWidth g) (gridHeight g)
       (characters g) (currentTurn g) (turnNumber g) (movementPointsLeft g)
       (status g) v (turnStartTime g) (turnTimeLimit g) (battleStartTime g)
       (battleTimeLimit g) (createdAt g) (updatedAt g) (autoEndTurn g).
Definition set_turnStartTime (v : option Z) (g : t) : t :=
    mk (id g) (player1Id g) (player2Id g) (gridWidth g) (gridHeight g)
       (characters g) (currentTurn g) (turnNumber g) (movementPointsLeft g)
       (status g) (winner g) v (turnTimeLimit g) (battleStartTime g)
       (battleTimeLimit g) (createdAt g) (updatedAt g) (autoEndTurn g).
Definition set_updatedAt (v : Z) (g : t) : t :=
    mk (id g) (player1Id g) (player2Id g) (gridWidth g) (gridHeight g)
       (characters g) (currentTurn g) (turnNumber g) (movementPointsLeft g)
       (status g) (winner g) (turnStartTime g) (turnTimeLimit g)
       (battleStartTime g) (battleTimeLimit g) (createdAt g) v (autoEndTurn g).
Definition set_autoEndTurn (v : bool) (g : t) : t :=
    mk (id g) (player1Id g) (player2Id g) (gridWidth g) (gridHeight g)
       (characters g) (currentTurn g) (turnNumber g) (movementPointsLeft g)
       (status g) (winner g) (turnStartTime g) (turnTimeLimit g)
       (battleStartTime g) (battleTimeLimit g) (createdAt g) (updatedAt g) v.
End GameState.
Abbreviation GameState := GameState.t.

Inductive BattleAction :=
| MoveAction (characterId : string) (from to : Position)
| AttackAction (attackerId targetId : string)
| EndTurnAction
| EquipItemAction (characterId equipmentId : string)
| SurrenderAction.

Module ActionResult.
Record t := mk {
    success : bool;
    error : option string;
    newState : option GameState;
    damage : option Z;
    killedCharacterId : option string
  }.
Definition fail (msg : string) : t := mk false (Some msg) None None None.
Definition ok (g : GameState) : t := mk true None (Some g) None None.
End ActionResult.
Abbreviation ActionResult := ActionResult.t.

(** [GAME_CONSTANTS], in the revision that defines every constant the
    engine reads: the compiled table, the only one with
    [MAX_MOVE_DISTANCE_PER_ACTION].  The two TypeScript revisions of the
    table differ from it in MOVEMENT_POINTS_PER_TURN (5 and 15) and in the
    time limits, and lack MAX_MOVE_DISTANCE_PER_ACTION.  The properties
    below are stated with the names of the constants. *)
Module GAME_CONSTANTS.
Definition GRID_WIDTH : Z := 8.
Definition GRID_HEIGHT : Z := 10.
Definition MAX_CHARACTERS_PER_TEAM : Z := 3.
Definition MOVEMENT_POINTS_PER_TURN : Z := 2.
Definition MAX_MOVE_DISTANCE_PER_ACTION : Z := 1.
Definition MELEE_ATTACK_RANGE : Z := 1.
Definition RANGED_ATTACK_RANGE : Z := 4.
Definition TURN_TIME_LIMIT : Z := 15.
Definition BATTLE_TIME_LIMIT : Z := 900.
End GAME_CONSTANTS.

(** ** TurnManager *)

Module TurnManager.

Definition resetForTurn (currentTeam : Team) (char : Character) : Character :=
    if Team_eqb (Character.team char) currentTeam && Character.isAlive char
    then Character.set_movementPointsLeft
           (Some GAME_CONSTANTS.MOVEMENT_POINTS_PER_TURN)
           (Character.set_hasAttacked false char)
    else char.

Definition startTurn (gameState : GameState) (now : Z) : GameState :=
    let currentTeam := GameState.currentTurn gameState in
    let g1 := GameState.set_characters
                (resetForTurn currentTeam <$> GameState.characters gameState)
                gameState in
    let g2 := GameState.set_movementPointsLeft
                GAME_CONSTANTS.MOVEMENT_POINTS_PER_TURN g1 in
    GameState.set_turnStartTime (Some now) g2.

Definition endTurn (gameState : GameState) (now : Z) : GameState :=
    let g1 := GameState.set_currentTurn
                (match GameState.currentTurn gameState with
                 | PLAYER1 => PLAYER2
                 | PLAYER2 => PLAYER1
                 end) gameState in
    let g2 := match GameState.currentTurn g1 with
              | PLAYER1 => GameState.set_turnNumber (GameState.turnNumber g1 + 1) g1
              | PLAYER2 => g1
              end in
    startTurn g2 now.

Definition getPlayerTeam (playerId : string) (gameState : GameState)
    : option Team :=
    if String.eqb playerId (GameState.player1Id gameState) then Some PLAYER1
    else if String.eqb playerId (GameState.player2Id gameState) then Some PLAYER2
    else None.

Definition canAct (playerId : string) (gameState : GameState) : bool :=
    match getPlayerTeam playerId gameState with
    | Some playerTeam => Team_eqb playerTeam (GameState.currentTurn gameState)
    | None => false
    end.

Definition hasActionsLeft (gameState : GameState) : bool :=
    let currentTeam := GameState.currentTurn gameState in
    let teamCharacters :=
      List.filter (fun c => Team_eqb (Character.team c) currentTeam
                            && Character.isAlive c)
                  (GameState.characters gameState) in
    if existsb (fun c => 0 <? default 0 (Character.movementPointsLeft c))
               teamCharacters
    then true
    else if existsb (fun c => negb (Character.hasAttacked c)) teamCharacters
    then true
    else false.

Definition autoEndTurnIfNeeded (gameState : GameState) (now : Z) : GameState :=
    if negb (hasActionsLeft gameState) then endTurn gameState now
    else gameState.

Record TurnInfo := mkTurnInfo {
  currentTeam : Team;
  infoTurnNumber : Z;
  infoMovementPointsLeft : Z;
  infoHasActionsLeft : bool
}.

Definition getTurnInfo (gameState : GameState) : TurnInfo :=
  mkTurnInfo (GameState.currentTurn gameState) (GameState.turnNumber gameState)
    (GameState.movementPointsLeft gameState) (hasActionsLeft gameState).

End TurnManager.


(** ** GridSystem *)

Module GridSystem.

(** Modelled from the spec: [GridSystem.ts] is not among the sources.
    [isValidPosition(p)] is true iff 0 <= x < width and 0 <= y < height,
    over the fixed grid of [GAME_CONSTANTS]. *)
Definition isValidPosition (p : Position) : bool :=
  (0 <=? Position.x p) && (Position.x p <? GAME_CONSTANTS.GRID_WIDTH)
  && (0 <=? Position.y p) && (Position.y p <? GAME_CONSTANTS.GRID_HEIGHT).

(** Modelled from the spec: [positionsEqual(a,b)] is value equality of the
    coordinates. *)
Definition positionsEqual (a b : Position) : bool :=
  (Position.x a =? Position.x b) && (Position.y a =? Position.y b).

(** Modelled from the spec: [calculateDistance(a,b)] is the grid
    (Manhattan) distance. *)
Definition calculateDistance (a b : Position) : Z :=
  Z.abs (Position.x a - Position.x b) + Z.abs (Position.y a - Position.y b).

(** Modelled from the spec: [getAdjacentCells(p)] is the (at most four)
    orthogonal neighbours of [p] that are valid positions.  The order of
    the result is not fixed by the spec; nothing below depends on it. *)
Definition getAdjacentCells (p : Position) : list Position :=
  List.filter isValidPosition
    [ Position.mk (Position.x p) (Position.y p - 1);
      Position.mk (Position.x p) (Position.y p + 1);
      Position.mk (Position.x p - 1) (Position.y p);
      Position.mk (Position.x p + 1) (Position.y p) ].

(** [hasLineOfSight(from, to, obstacles)] is not among the sources and the
    spec does not fix which cells a straight path crosses: the combat
    functions take it as an argument of this type. *)
Definition LineOfSight : Type := Position -> Position -> list Position -> bool.

End GridSystem.

(** The result [{ valid, error? }] of a legality check. *)
Module Check.
Record t := mk { valid : bool; error : option string }.
Definition reject (msg : string) : t := mk false (Some msg).
Definition accept : t := mk true None.
End Check.

(** ** MovementSystem *)

Module MovementSystem.

Definition canMove (character : Character) (to : Position)
    (gameState : GameState) : Check.t * Character :=
  if negb (Team_eqb (Character.team character) (GameState.currentTurn gameState))
  then (Check.reject "Not this character's turn", character)
  else if negb (GridSystem.isValidPosition to)
  then (Check.reject "Invalid position", character)
  else if GridSystem.positionsEqual (Character.position character) to
  then (Check.reject "Already at this position", character)
  else
    let targetOccupiedByOther :=
      existsb (fun char =>
                 Character.isAlive char
                 && negb (String.eqb (Character.id char) (Character.id character))
                 && GridSystem.positionsEqual (Character.position char) to)
              (GameState.characters gameState) in
    if targetOccupiedByOther
    then (Check.reject "Cell is occupied by another character", character)
    else
      let distance :=
        GridSystem.calculateDistance (Character.position character) to in
      if GAME_CONSTANTS.MAX_MOVE_DISTANCE_PER_ACTION <? distance
      then (Check.reject "Can only move 1 cell at a time", character)
      else
        let character :=
          match Character.movementPointsLeft character with
          | None => Character.set_movementPointsLeft
                      (Some GAME_CONSTANTS.MOVEMENT_POINTS_PER_TURN) character
          | Some _ => character
          end in
        let characterMovement :=
          default 0 (Character.movementPointsLeft character) in
        if characterMovement <=? 0
        then (Check.reject "No movement points left", character)
        else (Check.accept, character).

(** The assignments of [executeMove] to the moving character. *)
Definition relocate (to : Position) (character : Character) : Character :=
  let character := Character.set_position to character in
  let character :=
    match Character.movementPointsLeft character with
    | None => Character.set_movementPointsLeft
                (Some GAME_CONSTANTS.MOVEMENT_POINTS_PER_TURN) character
    | Some _ => character
    end in
  Character.set_movementPointsLeft
    (Some (default 0 (Character.movementPointsLeft character) - 1)) character.

(** [character] is the element of index [ci] of [gameState.characters]. *)
Definition executeMove (ci : nat) (to : Position) (gameState : GameState)
    : GameState :=
  let gameState :=
    GameState.set_characters
      (alter (relocate to) ci (GameState.characters gameState)) gameState in
  let gameState :=
    GameState.set_movementPointsLeft
      (GameState.movementPointsLeft gameState - 1) gameState in
  let allCharactersUsedMovement :=
    forallb (fun c => default 0 (Character.movementPointsLeft c) <=? 0)
      (List.filter
         (fun c => Team_eqb (Character.team c) (GameState.currentTurn gameState)
                   && Character.isAlive c)
         (GameState.characters gameState)) in
  if allCharactersUsedMovement || (GameState.movementPointsLeft gameState <=? 0)
  then GameState.set_autoEndTurn true gameState
  else gameState.

(** [getAvailableMoves] calls [canMove] on each neighbouring cell; the
    character is handed from call to call, since [canMove] may set its
    movement counter. *)
Definition getAvailableMoves (character : Character) (gameState : GameState)
    : list Position * Character :=
  fold_left
    (fun (acc : list Position * Character) (cell : Position) =>
       let '(canMove, character) := canMove (snd acc) cell gameState in
       if Check.valid canMove then ((fst acc ++ [cell])%list, character)
       else (fst acc, character))
    (GridSystem.getAdjacentCells (Character.position character))
    ([], character).

Definition isCellOccupied (pos : Position) (characters : list Character) : bool :=
  existsb (fun char => Character.isAlive char
                       && GridSystem.positionsEqual (Character.position char) pos)
          characters.

(** What a run of [findPathBFS] gives: a path, [null], or a loop that has
    not ended within the iterations counted. *)
Inductive Found := Path (path : list Position) | NoPath | StillSearching.

(** The loop over the neighbours of the dequeued entry. *)
Definition enqueue (goal : Position) (characters : list Character)
    (movingCharacterId : string) (currentPath : list Position)
    (acc : list (Position * list Position) * gset (Z * Z)) (neighbor : Position)
    : list (Position * list Position) * gset (Z * Z) :=
  let key := (Position.x neighbor, Position.y neighbor) in
  if bool_decide (key ∈ snd acc) then acc
  else if negb (GridSystem.positionsEqual neighbor goal)
          && existsb (fun char =>
                        Character.isAlive char
                        && negb (String.eqb (Character.id char) movingCharacterId)
                        && GridSystem.positionsEqual (Character.position char) neighbor)
                     characters
  then acc
  else ((fst acc ++ [(neighbor, (currentPath ++ [neighbor])%list)])%list,
        {[key]} ∪ snd acc).

(** The [while (queue.length > 0)] loop; the source puts no bound on it,
    [fuel] counts its iterations. *)
Fixpoint bfs (fuel : nat) (goal : Position) (characters : list Character)
    (movingCharacterId : string) (queue : list (Position * list Position))
    (visited : gset (Z * Z)) : Found :=
  match fuel with
  | O => match queue with [] => NoPath | _ => StillSearching end
  | S fuel =>
      match queue with
      | [] => NoPath
      | (pos, path) :: queue =>
          if GridSystem.positionsEqual pos goal then Path path
          else
            let '(queue, visited) :=
              fold_left (enqueue goal characters movingCharacterId path)
                        (GridSystem.getAdjacentCells pos) (queue, visited) in
            bfs fuel goal characters movingCharacterId queue visited
      end
  end.

Definition findPathBFS (fuel : nat) (start goal : Position)
    (characters : list Character) (movingCharacterId : string) : Found :=
  if GridSystem.positionsEqual start goal then Path [start]
  else if negb (GridSystem.isValidPosition goal) then NoPath
  else bfs fuel goal characters movingCharacterId [(start, [start])]
           {[ (Position.x start, Position.y start) ]}.

End MovementSystem.

(** ** MovementSystem.old: the superseded path-budgeted revision *)

Module MovementSystemOld.

(** A JavaScript number that may be [Infinity]. *)
Inductive Num := Fin (z : Z) | Infinity.

(** [v || Infinity]: an absent entry and the falsy number 0 both give
    [Infinity]. *)
Definition orInfinity (v : option Num) : Num :=
  match v with
  | Some (Fin 0) => Infinity
  | Some n => n
  | None => Infinity
  end.

Definition lt (a b : Num) : bool :=
  match a, b with
  | Fin x, Fin y => x <? y
  | Fin _, Infinity => true
  | Infinity, _ => false
  end.

Definition plus (a : Num) (k : Z) : Num :=
  match a with
  | Fin x => Fin (x + k)
  | Infinity => Infinity
  end.

(** [posKey(pos)], the string "x,y", is one-to-one with the pair of
    coordinates, which stands for it. *)
Definition posKey (pos : Position) : Z * Z := (Position.x pos, Position.y pos).

Record Search := mkSearch {
  openSet : list Position;
  closedSet : gset (Z * Z);
  cameFrom : gmap (Z * Z) Position;
  gScore : gmap (Z * Z) Num;
  fScore : gmap (Z * Z) Num
}.

(** The scan of [openSet] from index 1 for a strictly smaller [fScore]. *)
Fixpoint pickLowest (fScore : gmap (Z * Z) Num) (rest : list Position) (i : nat)
    (current : Position) (currentIndex : nat) : Position * nat :=
  match rest with
  | [] => (current, currentIndex)
  | p :: rest =>
      if lt (orInfinity (fScore !! posKey p)) (orInfinity (fScore !! posKey current))
      then pickLowest fScore rest (S i) p i
      else pickLowest fScore rest (S i) current currentIndex
  end.

(** [reconstructPath] follows [cameFrom] while the current cell has an
    entry.  [fuel] bounds the walk; on the acyclic maps the search builds,
    one more than the number of entries is enough. *)
Fixpoint reconstructFrom (fuel : nat) (cameFrom : gmap (Z * Z) Position)
    (current : Position) (path : list Position) : list Position :=
  match fuel with
  | O => path
  | S fuel =>
      match cameFrom !! posKey current with
      | Some previous => reconstructFrom fuel cameFrom previous (previous :: path)
      | None => path
      end
  end.

Definition reconstructPath (cameFrom : gmap (Z * Z) Position) (current : Position)
    : list Position :=
  reconstructFrom (S (size cameFrom)) cameFrom current [current].

(** The body of the loop over the neighbours of [current]. *)
Definition visit (goal : Position) (characters : list Character)
    (movingCharacterId : string) (current : Position) (st : Search)
    (neighbor : Position) : Search :=
  if bool_decide (posKey neighbor ∈ closedSet st) then st
  else if negb (GridSystem.isValidPosition neighbor) then st
  else if negb (GridSystem.positionsEqual neighbor goal)
          && existsb (fun char =>
                        Character.isAlive char
                        && negb (String.eqb (Character.id char) movingCharacterId)
                        && GridSystem.positionsEqual (Character.position char) neighbor)
                     characters
  then st
  else
    let tentativeGScore := plus (orInfinity (gScore st !! posKey current)) 1 in
    if lt tentativeGScore (orInfinity (gScore st !! posKey neighbor))
    then
      mkSearch
        (if existsb (fun pos => GridSystem.positionsEqual pos neighbor) (openSet st)
         then openSet st else openSet st ++ [neighbor])
        (closedSet st)
        (<[posKey neighbor := current]> (cameFrom st))
        (<[posKey neighbor := tentativeGScore]> (gScore st))
        (<[posKey neighbor :=
             plus tentativeGScore (GridSystem.calculateDistance neighbor goal)]>
           (fScore st))
    else st.

(** The [while] loop; [fuel] is what is left of [maxIterations]. *)
Fixpoint search (fuel : nat) (goal : Position) (characters : list Character)
    (movingCharacterId : string) (st : Search) : option (list Position) :=
  match fuel with
  | O => None
  | S fuel =>
      match openSet st with
      | [] => None
      | first :: rest =>
          let '(current, currentIndex) :=
            pickLowest (fScore st) rest 1 first 0 in
          if GridSystem.positionsEqual current goal
          then Some (reconstructPath (cameFrom st) current)
          else
            let st :=
              mkSearch (delete currentIndex (openSet st))
                       ({[posKey current]} ∪ closedSet st)
                       (cameFrom st) (gScore st) (fScore st) in
            let st :=
              fold_left (visit goal characters movingCharacterId current)
                        (GridSystem.getAdjacentCells current) st in
            search fuel goal characters movingCharacterId st
      end
  end.

Definition maxIterations : nat := 1000.

Definition findPath (start goal : Position) (characters : list Character)
    (movingCharacterId : string) : option (list Position) :=
  if GridSystem.positionsEqual start goal then Some [start]
  else if negb (GridSystem.isValidPosition goal) then None
  else
    search maxIterations goal characters movingCharacterId
      (mkSearch [start] ∅ ∅
         {[posKey start := Fin 0]}
         {[posKey start := Fin (GridSystem.calculateDistance start goal)]}).

Definition showNumber (z : Z) : string := NilZero.string_of_int (Z.to_int z).

Definition canMove (character : Character) (to : Position)
    (gameState : GameState) : Check.t * Character :=
  if negb (Team_eqb (Character.team character) (GameState.currentTurn gameState))
  then (Check.reject "Not this character's turn", character)
  else if negb (GridSystem.isValidPosition to)
  then (Check.reject "Invalid position", character)
  else if GridSystem.positionsEqual (Character.position character) to
  then (Check.reject "Already at this position", character)
  else
    let targetOccupiedByOther :=
      existsb (fun char =>
                 Character.isAlive char
                 && negb (String.eqb (Character.id char) (Character.id character))
                 && GridSystem.positionsEqual (Character.position char) to)
              (GameState.characters gameState) in
    if targetOccupiedByOther
    then (Check.reject "Cell is occupied by another character", character)
    else
      match findPath (Character.position character) to
                     (GameState.characters gameState) (Character.id character) with
      | None => (Check.reject "No valid path to destination", character)
      | Some path =>
          let pathLength := Z.of_nat (length path) - 1 in
          let character :=
            match Character.movementPointsLeft character with
            | None => Character.set_movementPointsLeft
                        (Some GAME_CONSTANTS.MOVEMENT_POINTS_PER_TURN) character
            | Some _ => character
            end in
          let characterMovement :=
            default 0 (Character.movementPointsLeft character) in
          if characterMovement <? pathLength
          then (Check.reject
                  ("Not enough movement points (need " ++ showNumber pathLength
                   ++ ", have " ++ showNumber characterMovement ++ ")"),
                character)
          else (Check.accept, character)
      end.

(** The assignments of [executeMove] to the moving character. *)
Definition relocate (pathLength : Z) (to : Position) (character : Character)
    : Character :=
  let character := Character.set_position to character in
  let character :=
    match Character.movementPointsLeft character with
    | None => Character.set_movementPointsLeft
                (Some GAME_CONSTANTS.MOVEMENT_POINTS_PER_TURN) character
    | Some _ => character
    end in
  Character.set_movementPointsLeft
    (Some (default 0 (Character.movementPointsLeft character) - pathLength))
    character.

(** [character] is the element of index [ci] of [gameState.characters];
    out of range there is no object and the record is returned as it is. *)
Definition executeMove (ci : nat) (to : Position) (gameState : GameState)
    : GameState :=
  match GameState.characters gameState !! ci with
  | None => gameState
  | Some character =>
      let pathLength :=
        match findPath (Character.position character) to
                       (GameState.characters gameState) (Character.id character) with
        | Some path => Z.of_nat (length path) - 1
        | None => GridSystem.calculateDistance (Character.position character) to
        end in
      let gameState :=
        GameState.set_characters
          (alter (relocate pathLength to) ci (GameState.characters gameState))
          gameState in
      GameState.set_movementPointsLeft
        (GameState.movementPointsLeft gameState - pathLength) gameState
  end.

(** [GridSystem.getCellsInRange] is not among the sources: it is the
    argument [getCellsInRange]. *)
Definition getAvailableMoves (getCellsInRange : Position -> Z -> list Position)
    (character : Character) (gameState : GameState)
    : list Position * Character :=
  let range := default 0 (Character.movementPointsLeft character) in
  fold_left
    (fun (acc : list Position * Character) (cell : Position) =>
       if GridSystem.positionsEqual cell (Character.position character) then acc
       else
         let '(canMove, character) := canMove (snd acc) cell gameState in
         if Check.valid canMove then ((fst acc ++ [cell])%list, character)
         else (fst acc, character))
    (getCellsInRange (Character.position character) range)
    ([], character).

End MovementSystemOld.

(** ** CombatSystem *)

Module CombatSystem.

Definition canAttack (hasLineOfSight : GridSystem.LineOfSight)
    (attacker target : Character) (gameState : GameState) : Check.t :=
  if Character.hasAttacked attacker
  then Check.reject "Character has already attacked this turn"
  else if negb (Character.isAlive target)
  then Check.reject "Target is not alive"
  else if Team_eqb (Character.team attacker) (Character.team target)
  then Check.reject "Cannot attack ally"
  else
    let distance :=
      GridSystem.calculateDistance (Character.position attacker)
                                   (Character.position target) in
    match Character.combatType attacker with
    | MELEE =>
        if GAME_CONSTANTS.MELEE_ATTACK_RANGE <? distance
        then Check.reject "Target is out of melee range"
        else Check.accept
    | RANGED =>
        if GAME_CONSTANTS.RANGED_ATTACK_RANGE <? distance
        then Check.reject "Target is out of ranged attack range"
        else
          let occupiedCells :=
            map Character.position
              (List.filter
                 (fun c => Character.isAlive c
                           && negb (String.eqb (Character.id c) (Character.id attacker))
                           && negb (String.eqb (Character.id c) (Character.id target)))
                 (GameState.characters gameState)) in
          if negb (hasLineOfSight (Character.position attacker)
                                  (Character.position target) occupiedCells)
          then Check.reject "No line of sight to target"
          else Check.accept
    end.

(** [bonus || 0] for an optional bonus of an optional item. *)
Definition bonusOr0 (item : option Equipment) (bonus : Equipment -> option Z) : Z :=
  match item with
  | Some e => default 0 (bonus e)
  | None => 0
  end.

Definition calculateDamage (attacker target : Character) : Z :=
  let totalDamage :=
    Character.baseDamage attacker
    + bonusOr0 (Loadout.weapon (Character.equipment attacker)) Equipment.damageBonus in
  let totalArmor :=
    Character.baseArmor target
    + bonusOr0 (Loadout.armor (Character.equipment target)) Equipment.armorBonus in
  Z.max 1 (totalDamage - totalArmor).

(** The assignments of [executeAttack] to the target. *)
Definition wound (damage : Z) (target : Character) : Character :=
  let target :=
    Character.set_currentHp (Z.max 0 (Character.currentHp target - damage)) target in
  if Character.currentHp target =? 0
  then Character.set_isAlive false target
  else target.

Record AttackOutcome := mkOutcome { damage : Z; killed : bool }.

(** [attacker] and [target] are the elements of index [ai] and [ti] of
    [gameState.characters]; with [ai = ti] they are one object.  Both
    indices are in range at every call of the engine; out of range there
    is no object to read and the record is returned as it is. *)
Definition executeAttack (ai ti : nat) (gameState : GameState)
    : AttackOutcome * GameState :=
  let characters := GameState.characters gameState in
  match characters !! ai, characters !! ti with
  | Some attacker, Some target =>
      let damage := calculateDamage attacker target in
      let characters := alter (wound damage) ti characters in
      let characters := alter (Character.set_hasAttacked true) ai characters in
      let killed :=
        match characters !! ti with
        | Some target => negb (Character.isAlive target)
        | None => false
        end in
      (mkOutcome damage killed, GameState.set_characters characters gameState)
  | _, _ => (mkOutcome 0 false, gameState)
  end.

Record BattleEnd := mkBattleEnd { ended : bool; endWinner : option string }.

Definition checkBattleEnd (gameState : GameState) : BattleEnd :=
  let player1Alive :=
    length (List.filter
              (fun c => Team_eqb (Character.team c) PLAYER1 && Character.isAlive c)
              (GameState.characters gameState)) in
  let player2Alive :=
    length (List.filter
              (fun c => Team_eqb (Character.team c) PLAYER2 && Character.isAlive c)
              (GameState.characters gameState)) in
  if Nat.eqb player1Alive 0
  then mkBattleEnd true (Some (GameState.player2Id gameState))
  else if Nat.eqb player2Alive 0
  then mkBattleEnd true (Some (GameState.player1Id gameState))
  else mkBattleEnd false None.

Definition getAvailableTargets (hasLineOfSight : GridSystem.LineOfSight)
    (attacker : Character) (gameState : GameState) : list Character :=
  fold_left
    (fun (targets : list Character) (character : Character) =>
       if Team_eqb (Character.team character) (Character.team attacker)
          || negb (Character.isAlive character)
       then targets
       else if Check.valid (canAttack hasLineOfSight attacker character gameState)
       then (targets ++ [character])%list
       else targets)
    (GameState.characters gameState) [].

Definition getAvailableTargetPositions (hasLineOfSight : GridSystem.LineOfSight)
    (attacker : Character) (gameState : GameState) : list Position :=
  map Character.position (getAvailableTargets hasLineOfSight attacker gameState).

End CombatSystem.

(** ** TimerManager *)

Module TimerManager.

Definition determineWinnerByTime (gameState : GameState) : Team :=
  let player1Characters :=
    List.filter (fun c => Team_eqb (Character.team c) PLAYER1 && Character.isAlive c)
                (GameState.characters gameState) in
  let player2Characters :=
    List.filter (fun c => Team_eqb (Character.team c) PLAYER2 && Character.isAlive c)
                (GameState.characters gameState) in
  if (length player2Characters <? length player1Characters)%nat then PLAYER1
  else if (length player1Characters <? length player2Characters)%nat then PLAYER2
  else
    let player1Health :=
      fold_left (fun sum c => sum + Character.currentHp c) player1Characters 0 in
    let player2Health :=
      fold_left (fun sum c => sum + Character.currentHp c) player2Characters 0 in
    if player2Health <? player1Health then PLAYER1
    else if player1Health <? player2Health then PLAYER2
    else PLAYER1.

(** The timers.  [setTimeout] and [clearTimeout] belong to the runtime:
    [pending] is the runtime's set of timeouts that are scheduled and have
    neither fired nor been cleared, keyed by their handle, and
    [nextHandle] the handle the next [setTimeout] returns.  A timeout is
    recorded by what its callback does: which deadline of which battle it
    reports, and after how many milliseconds. *)
Inductive Deadline := TurnDeadline | BattleDeadline.

Record Timeout := mkTimeout {
  battleId : string;
  deadline : Deadline;
  delay : Z
}.

Record Timers := mkTimers {
  turnTimers : gmap string nat;
  battleTimers : gmap string nat;
  pending : gmap nat Timeout;
  nextHandle : nat
}.

Definition noTimers : Timers := mkTimers ∅ ∅ ∅ 0.

Definition setTimeout (t : Timeout) (s : Timers) : nat * Timers :=
  (nextHandle s,
   mkTimers (turnTimers s) (battleTimers s)
            (<[nextHandle s := t]> (pending s)) (S (nextHandle s))).

Definition clearTimeout (timer : nat) (s : Timers) : Timers :=
  mkTimers (turnTimers s) (battleTimers s) (delete timer (pending s))
           (nextHandle s).

Definition clearTurnTimer (battleId : string) (s : Timers) : Timers :=
  match turnTimers s !! battleId with
  | Some timer =>
      let s := clearTimeout timer s in
      mkTimers (delete battleId (turnTimers s)) (battleTimers s) (pending s)
               (nextHandle s)
  | None => s
  end.

Definition clearBattleTimer (battleId : string) (s : Timers) : Timers :=
  match battleTimers s !! battleId with
  | Some timer =>
      let s := clearTimeout timer s in
      mkTimers (turnTimers s) (delete battleId (battleTimers s)) (pending s)
               (nextHandle s)
  | None => s
  end.

Definition startTurnTimer (battleId : string) (gameState : GameState)
    (s : Timers) : Timers :=
  let s := clearTurnTimer battleId s in
  let timeLimit := GameState.turnTimeLimit gameState * 1000 in
  let '(timer, s) := setTimeout (mkTimeout battleId TurnDeadline timeLimit) s in
  mkTimers (<[battleId := timer]> (turnTimers s)) (battleTimers s) (pending s)
           (nextHandle s).

Definition startBattleTimer (battleId : string) (gameState : GameState)
    (s : Timers) : Timers :=
  let s := clearBattleTimer battleId s in
  let timeLimit := GameState.battleTimeLimit gameState * 1000 in
  let '(timer, s) := setTimeout (mkTimeout battleId BattleDeadline timeLimit) s in
  mkTimers (turnTimers s) (<[battleId := timer]> (battleTimers s)) (pending s)
           (nextHandle s).

Definition clearAllTimers (battleId : string) (s : Timers) : Timers :=
  clearBattleTimer battleId (clearTurnTimer battleId s).

(** A pending timeout fires: the runtime drops it and runs its callback,
    which the caller of [fire] is given.  The maps of the manager are not
    told. *)
Definition fire (timer : nat) (s : Timers) : option Timeout * Timers :=
  (pending s !! timer,
   mkTimers (turnTimers s) (battleTimers s) (delete timer (pending s))
            (nextHandle s)).

(** What can happen to the timers, and a history of it. *)
Inductive TimerEvent :=
| StartTurnTimer (battleId : string) (gameState : GameState)
| StartBattleTimer (battleId : string) (gameState : GameState)
| ClearTurnTimer (battleId : string)
| ClearBattleTimer (battleId : string)
| ClearAllTimers (battleId : string)
| Fires (timer : nat).

Definition happen (s : Timers) (e : TimerEvent) : Timers :=
  match e with
  | StartTurnTimer b g => startTurnTimer b g s
  | StartBattleTimer b g => startBattleTimer b g s
  | ClearTurnTimer b => clearTurnTimer b s
  | ClearBattleTimer b => clearBattleTimer b s
  | ClearAllTimers b => clearAllTimers b s
  | Fires timer => snd (fire timer s)
  end.

Definition history (events : list TimerEvent) : Timers :=
  fold_left happen events noTimers.

End TimerManager.

(** ** BattleManager *)

Module BattleManager.

(** [uuidv4()] is a supply of fresh identifiers: [uuid n] is the value of
    the n-th call made while the battle is created. *)
Definition createDefaultCharacters (uuid : nat -> string) (team : Team)
    (p0 p1 p2 : Position) : list Character :=
  let unlocked := [WEAPON; ARMOR] in
  let budget := Some GAME_CONSTANTS.MOVEMENT_POINTS_PER_TURN in
  [ Character.mk (uuid 0%nat)
      (match team with PLAYER1 => "Warrior P1" | PLAYER2 => "Warrior P2" end)
      1 0 p0 100 100 20 5 MELEE Loadout.empty unlocked team true false false budget;
    Character.mk (uuid 1%nat)
      (match team with PLAYER1 => "Archer P1" | PLAYER2 => "Archer P2" end)
      1 0 p1 70 70 15 2 RANGED Loadout.empty unlocked team true false false budget;
    Character.mk (uuid 2%nat)
      (match team with PLAYER1 => "Knight P1" | PLAYER2 => "Knight P2" end)
      1 0 p2 120 120 18 8 MELEE Loadout.empty unlocked team true false false budget ].

Definition createBattle (uuid : nat -> string) (now : Z)
    (player1Id player2Id : string) : GameState :=
  let battleId := uuid 0%nat in
  let player1Characters :=
    createDefaultCharacters (fun n => uuid (1 + n)%nat) PLAYER1
      (Position.mk 7 1) (Position.mk 7 4) (Position.mk 7 7) in
  let player2Characters :=
    createDefaultCharacters (fun n => uuid (4 + n)%nat) PLAYER2
      (Position.mk 0 1) (Position.mk 0 4) (Position.mk 0 7) in
  GameState.mk battleId player1Id player2Id
    GAME_CONSTANTS.GRID_WIDTH GAME_CONSTANTS.GRID_HEIGHT
    (player1Characters ++ player2Characters)
    PLAYER1 1 GAME_CONSTANTS.MOVEMENT_POINTS_PER_TURN active None
    (Some now) GAME_CONSTANTS.TURN_TIME_LIMIT
    (Some now) GAME_CONSTANTS.BATTLE_TIME_LIMIT
    now now false.

(** [characters.find(c => c.id === id)]: the first character with that id,
    with its index. *)
Fixpoint findFrom (i : nat) (id : string) (characters : list Character)
    : option (nat * Character) :=
  match characters with
  | [] => None
  | c :: rest =>
      if String.eqb (Character.id c) id then Some (i, c)
      else findFrom (S i) id rest
  end.

Definition find (id : string) (characters : list Character)
    : option (nat * Character) :=
  findFrom 0 id characters.

Definition handleEndTurn (gameState : GameState) (now : Z)
    : ActionResult * GameState :=
  let gameState := TurnManager.endTurn gameState now in
  let gameState := GameState.set_updatedAt now gameState in
  (ActionResult.ok gameState, gameState).

Definition handleMove (characterId : string) (to : Position)
    (gameState : GameState) (now : Z) : ActionResult * GameState :=
  match find characterId (GameState.characters gameState) with
  | None => (ActionResult.fail "Character not found", gameState)
  | Some (ci, character) =>
      let '(canMove, character) :=
        MovementSystem.canMove character to gameState in
      let gameState :=
        GameState.set_characters
          (<[ci := character]> (GameState.characters gameState)) gameState in
      if negb (Check.valid canMove)
      then (ActionResult.mk false (Check.error canMove) None None None, gameState)
      else
        let gameState := MovementSystem.executeMove ci to gameState in
        let gameState := GameState.set_updatedAt now gameState in
        if GameState.autoEndTurn gameState
        then
          let '(endTurnResult, gameState) := handleEndTurn gameState now in
          if ActionResult.success endTurnResult
             && bool_decide (is_Some (ActionResult.newState endTurnResult))
          then (endTurnResult, gameState)
          else (ActionResult.ok gameState, gameState)
        else (ActionResult.ok gameState, gameState)
  end.

Definition handleAttack (hasLineOfSight : GridSystem.LineOfSight)
    (attackerId targetId : string) (gameState : GameState) (now : Z)
    : ActionResult * GameState :=
  match find attackerId (GameState.characters gameState),
        find targetId (GameState.characters gameState) with
  | Some (ai, attacker), Some (ti, target) =>
      let canAttack :=
        CombatSystem.canAttack hasLineOfSight attacker target gameState in
      if negb (Check.valid canAttack)
      then (ActionResult.mk false (Check.error canAttack) None None None, gameState)
      else
        let '(result, gameState) := CombatSystem.executeAttack ai ti gameState in
        let gameState := GameState.set_updatedAt now gameState in
        let battleEnd := CombatSystem.checkBattleEnd gameState in
        let gameState :=
          if CombatSystem.ended battleEnd
          then
            GameState.set_winner
              (Some (match CombatSystem.endWinner battleEnd with
                     | Some w =>
                         if String.eqb w (GameState.player1Id gameState)
                         then PLAYER1 else PLAYER2
                     | None => PLAYER2
                     end))
              (GameState.set_status finished gameState)
          else gameState in
        let killedCharacterId :=
          if CombatSystem.killed result then Some (Character.id target) else None in
        if GameState.autoEndTurn gameState && negb (CombatSystem.ended battleEnd)
        then
          let '(endTurnResult, gameState) := handleEndTurn gameState now in
          if ActionResult.success endTurnResult
             && bool_decide (is_Some (ActionResult.newState endTurnResult))
          then (ActionResult.mk true None (ActionResult.newState endTurnResult)
                  (Some (CombatSystem.damage result)) killedCharacterId,
                gameState)
          else (ActionResult.mk true None (Some gameState)
                  (Some (CombatSystem.damage result)) killedCharacterId,
                gameState)
        else (ActionResult.mk true None (Some gameState)
                (Some (CombatSystem.damage result)) killedCharacterId,
              gameState)
  | _, _ => (ActionResult.fail "Character not found", gameState)
  end.

Definition handleSurrender (playerId : string) (gameState : GameState) (now : Z)
    : ActionResult * GameState :=
  let loser :=
    if String.eqb playerId (GameState.player1Id gameState)
    then PLAYER1 else PLAYER2 in
  let winner := match loser with PLAYER1 => PLAYER2 | PLAYER2 => PLAYER1 end in
  let gameState := GameState.set_status finished gameState in
  let gameState := GameState.set_winner (Some winner) gameState in
  let gameState := GameState.set_updatedAt now gameState in
  (ActionResult.ok gameState, gameState).

(** [processAction] gives the result and the battle record as the call
    leaves it.  No handler throws on a typed action, so the [catch] branch
    has no counterpart. *)
Definition processAction (hasLineOfSight : GridSystem.LineOfSight)
    (action : BattleAction) (playerId : string) (gameState : GameState)
    (now : Z) : ActionResult * GameState :=
  if negb (TurnManager.canAct playerId gameState)
  then (ActionResult.fail "Not your turn", gameState)
  else
    match action with
    | MoveAction characterId _ to => handleMove characterId to gameState now
    | AttackAction attackerId targetId =>
        handleAttack hasLineOfSight attackerId targetId gameState now
    | EndTurnAction => handleEndTurn gameState now
    | SurrenderAction => handleSurrender playerId gameState now
    | EquipItemAction _ _ => (ActionResult.fail "Unknown action type", gameState)
    end.

Record AvailableActions := mkAvailableActions {
  canMove : bool;
  availableMoves : list Position;
  canAttack : bool;
  availableTargets : list Character
}.

(** [getAvailableActions] gives [null] ([None]) or the options of the
    character, and the battle record as the call leaves it
    ([getAvailableMoves] may set the character's movement counter). *)
Definition getAvailableActions (hasLineOfSight : GridSystem.LineOfSight)
    (characterId : string) (gameState : GameState)
    : option AvailableActions * GameState :=
  match find characterId (GameState.characters gameState) with
  | None => (None, gameState)
  | Some (ci, character) =>
      if negb (Character.isAlive character) then (None, gameState)
      else
        let canMove :=
          negb (Character.hasMoved character)
          && (0 <? GameState.movementPointsLeft gameState) in
        let '(availableMoves, character') :=
          if negb (Character.hasMoved character)
          then MovementSystem.getAvailableMoves character gameState
          else ([], character) in
        let gameState :=
          GameState.set_characters
            (<[ci := character']> (GameState.characters gameState)) gameState in
        let canAttack := negb (Character.hasAttacked character') in
        let availableTargets :=
          if negb (Character.hasAttacked character')
          then CombatSystem.getAvailableTargets hasLineOfSight character' gameState
          else [] in
        (Some (mkAvailableActions canMove availableMoves canAttack availableTargets),
         gameState)
  end.

End BattleManager.

(** ** SocketHandler: the battles on file, their timers and what is sent *)

Module SocketHandler.

(** What the handler sends or sets going.  [handleBattleEnd] and
    [handleBotTurn] are asynchronous and use collaborators that are not
    among the sources (the database service, the bot); a call of one is
    recorded, its later work is not modelled. *)
Inductive Sent :=
| BattleError (to : string) (message : option string)
| BattleUpdate (to : string) (gameState : GameState) (action : BattleAction)
    (damage : option Z) (killedCharacterId : option string)
| BattleEndBegun (battleId : string) (gameState : GameState)
| BotTurnBegun (battleId : string) (gameState : GameState).

Record t := mk {
  activeBattles : gmap string GameState;
  playerSockets : gmap string string;
  timerManager : TimerManager.Timers;
  sent : list Sent
}.

Definition send (e : Sent) (s : t) : t :=
  mk (activeBattles s) (playerSockets s) (timerManager s) (sent s ++ [e])%list.

Definition setBattle (battleId : string) (gameState : GameState) (s : t) : t :=
  mk (<[battleId := gameState]> (activeBattles s)) (playerSockets s)
     (timerManager s) (sent s).

Definition setTimers (timers : TimerManager.Timers) (s : t) : t :=
  mk (activeBattles s) (playerSockets s) timers (sent s).

(** The battle record on file is the object [processAction] mutates: what
    the call leaves of it is on file whether the action succeeds or not. *)
Definition processBattleAction (hasLineOfSight : GridSystem.LineOfSight)
    (battleId : string) (action : BattleAction) (playerId : string) (now : Z)
    (s : t) : t :=
  match activeBattles s !! battleId with
  | None => s
  | Some gameState =>
      let isParticipant :=
        String.eqb playerId (GameState.player1Id gameState)
        || String.eqb playerId (GameState.player2Id gameState) in
      if negb isParticipant
      then send (BattleError battleId (Some "Spectators cannot perform actions")) s
      else
        let '(result, gameState) :=
          BattleManager.processAction hasLineOfSight action playerId gameState now in
        let s := setBattle battleId gameState s in
        if negb (ActionResult.success result)
        then
          match playerSockets s !! playerId with
          | Some socketId => send (BattleError socketId (ActionResult.error result)) s
          | None => s
          end
        else
          match ActionResult.newState result with
          | None => s
          | Some newState =>
              let s := setBattle battleId newState s in
              let s :=
                send (BattleUpdate battleId newState action
                        (ActionResult.damage result)
                        (ActionResult.killedCharacterId result)) s in
              match GameState.status newState with
              | finished =>
                  let s :=
                    setTimers (TimerManager.clearAllTimers battleId (timerManager s)) s in
                  send (BattleEndBegun battleId newState) s
              | _ =>
                  let s :=
                    match action with
                    | EndTurnAction =>
                        setTimers (TimerManager.startTurnTimer battleId newState
                                     (timerManager s)) s
                    | _ => s
                    end in
                  if Team_eqb (GameState.currentTurn newState) PLAYER2
                     && String.eqb (GameState.player2Id newState) "AI_BOT"
                  then send (BotTurnBegun battleId newState) s
                  else s
              end
          end
  end.

Definition startBattleTimers (battleId : string) (gameState : GameState) (s : t)
    : t :=
  setTimers
    (TimerManager.startBattleTimer battleId gameState
       (TimerManager.startTurnTimer battleId gameState (timerManager s))) s.

Definition handleTurnTimeout (hasLineOfSight : GridSystem.LineOfSight)
    (battleId : string) (now : Z) (s : t) : t :=
  match activeBattles s !! battleId with
  | None => s
  | Some gameState =>
      match GameState.status gameState with
      | active =>
          processBattleAction hasLineOfSight battleId EndTurnAction "SYSTEM" now s
      | _ => s
      end
  end.

Definition handleBattleTimeout (battleId : string) (s : t) : t :=
  match activeBattles s !! battleId with
  | None => s
  | Some gameState =>
      match GameState.status gameState with
      | active =>
          let gameState :=
            GameState.set_winner
              (Some (TimerManager.determineWinnerByTime gameState)) gameState in
          let gameState := GameState.set_status finished gameState in
          let s := setBattle battleId gameState s in
          let s :=
            setTimers (TimerManager.clearAllTimers battleId (timerManager s)) s in
          send (BattleEndBegun battleId gameState) s
      | _ => s
      end
  end.

(** A pending timeout comes due: the runtime drops it and runs the
    callback the handler gave for it. *)
Definition expire (hasLineOfSight : GridSystem.LineOfSight) (timer : nat)
    (now : Z) (s : t) : t :=
  let '(due, timers) := TimerManager.fire timer (timerManager s) in
  let s := setTimers timers s in
  match due with
  | None => s
  | Some timeout =>
      match TimerManager.deadline timeout with
      | TimerManager.TurnDeadline =>
          handleTurnTimeout hasLineOfSight (TimerManager.battleId timeout) now s
      | TimerManager.BattleDeadline =>
          handleBattleTimeout (TimerManager.battleId timeout) s
      end
  end.

End SocketHandler.

(** ** A battle played through the engine *)

Module Scenario.

Record Request := mkRequest {
  action : BattleAction;
  playerId : string;
  now : Z
}.

(** The battle record after one submitted action. *)
Definition submit (hasLineOfSight : GridSystem.LineOfSight)
    (gameState : GameState) (r : Request) : GameState :=
  snd (BattleManager.processAction hasLineOfSight (action r) (playerId r)
         gameState (now r)).

(** The battle record after a sequence of submitted actions. *)
Definition play (hasLineOfSight : GridSystem.LineOfSight)
    (gameState : GameState) (requests : list Request) : GameState :=
  fold_left (submit hasLineOfSight) requests gameState.

(** Whether each action of a sequence succeeded, in order. *)
Fixpoint outcomes (hasLineOfSight : GridSystem.LineOfSight)
    (gameState : GameState) (requests : list Request) : list bool :=
  match requests with
  | [] => []
  | r :: requests =>
      let '(result, gameState) :=
        BattleManager.processAction hasLineOfSight (action r) (playerId r)
          gameState (now r) in
      ActionResult.success result :: outcomes hasLineOfSight gameState requests
  end.

Definition uuid (n : nat) : string :=
  match n with
  | 0%nat => "battle"
  | 1%nat => "w1" | 2%nat => "a1" | 3%nat => "k1"
  | 4%nat => "w2" | 5%nat => "a2" | _ => "k2"
  end.

Definition fresh : GameState := BattleManager.createBattle uuid 1000 "alice" "bob".

Definition clearSight : GridSystem.LineOfSight := fun _ _ _ => true.

(** PLAYER2's warrior as [fresh] holds it. *)
Definition warrior2 : Character :=
  Character.mk "w2" "Warrior P2" 1 0 (Position.mk 0 1) 100 100 20 5 MELEE
    Loadout.empty [WEAPON; ARMOR] PLAYER2 true false false (Some 2).

(** PLAYER1's warrior as [fresh] holds it. *)
Definition warrior1 : Character :=
  Character.mk "w1" "Warrior P1" 1 0 (Position.mk 7 1) 100 100 20 5 MELEE
    Loadout.empty [WEAPON; ARMOR] PLAYER1 true false false (Some 2).

Definition move (who : string) (id : string) (fx fy x y : Z) (at_ : Z) : Request :=
  mkRequest (MoveAction id (Position.mk fx fy) (Position.mk x y)) who at_.

(** The two warriors walk towards each other along the row y = 1 until they
    stand on neighbouring cells; it is then PLAYER2's turn. *)
Definition approach : list Request :=
  [ move "alice" "w1" 7 1 6 1 2000; move "alice" "w1" 6 1 5 1 2001;
    move "bob" "w2" 0 1 1 1 2002;
    move "alice" "w1" 5 1 4 1 2003;
    move "bob" "w2" 1 1 2 1 2004;
    move "alice" "w1" 4 1 3 1 2005 ].

Definition contact : GameState := Eval vm_compute in play clearSight fresh approach.

(** From [contact], PLAYER2's warrior strikes PLAYER1's warrior in each of
    its turns and PLAYER1 passes, until the seventh strike. *)
Definition exchange (at_ : Z) : list Request :=
  [ mkRequest (AttackAction "w2" "w1") "bob" at_;
    mkRequest EndTurnAction "alice" (at_ + 1) ].

Definition duel : list Request :=
  exchange 3000 ++ exchange 3002 ++ exchange 3004 ++ exchange 3006
  ++ exchange 3008 ++ exchange 3010
  ++ [ mkRequest (AttackAction "w2" "w1") "bob" 3012 ].

Definition fallen : GameState := Eval vm_compute in play clearSight contact duel.

End Scenario.

(** ** Notions the properties are stated with *)

Definition otherTeam (t : Team) : Team :=
  match t with PLAYER1 => PLAYER2 | PLAYER2 => PLAYER1 end.

Definition playerIdOf (t : Team) (g : GameState) : string :=
  match t with
  | PLAYER1 => GameState.player1Id g
  | PLAYER2 => GameState.player2Id g
  end.

(** A character counts for team [t] when it belongs to it and is alive. *)
Definition livesFor (t : Team) (c : Character) : Prop :=
  Character.team c = t /\ Character.isAlive c = true.

Definition noLiving (t : Team) (g : GameState) : Prop :=
  forall c, c ∈ GameState.characters g -> ~ livesFor t c.

Definition hasLiving (t : Team) (g : GameState) : Prop :=
  exists c, c ∈ GameState.characters g /\ livesFor t c.

(** Number of living characters of a team, and their summed health. *)
Fixpoint livingCount (t : Team) (l : list Character) : nat :=
  match l with
  | [] => 0
  | c :: l =>
      match Character.team c, t, Character.isAlive c with
      | PLAYER1, PLAYER1, true | PLAYER2, PLAYER2, true => S (livingCount t l)
      | _, _, _ => livingCount t l
      end
  end.

Fixpoint livingHealth (t : Team) (l : list Character) : Z :=
  match l with
  | [] => 0
  | c :: l =>
      match Character.team c, t, Character.isAlive c with
      | PLAYER1, PLAYER1, true | PLAYER2, PLAYER2, true =>
          Character.currentHp c + livingHealth t l
      | _, _, _ => livingHealth t l
      end
  end.

(** The damage bonus of the equipped weapon and the armor bonus of the
    equipped armor; an empty slot or an item without the bonus gives 0. *)
Definition weaponDamageBonus (c : Character) : Z :=
  match Loadout.weapon (Character.equipment c) with
  | Some w => match Equipment.damageBonus w with Some b => b | None => 0 end
  | None => 0
  end.

Definition armorArmorBonus (c : Character) : Z :=
  match Loadout.armor (Character.equipment c) with
  | Some a => match Equipment.armorBonus a with Some b => b | None => 0 end
  | None => 0
  end.

(** A cell is closed to [character] when another living character stands
    on it. *)
Definition occupiedByOther (character : Character) (g : GameState)
    (p : Position) : Prop :=
  exists char : Character,
    char ∈ GameState.characters g
    /\ Character.isAlive char = true
    /\ Character.id char <> Character.id character
    /\ Character.position char = p.

(** [walk character g from cells goal]: stepping from [from] onto the
    cells of [cells] in order, each an orthogonal neighbour of the one
    before, a valid grid cell and not closed to [character], ends on
    [goal].  The number of steps is the length of [cells]. *)
Fixpoint walk (character : Character) (g : GameState) (from : Position)
    (cells : list Position) (goal : Position) : Prop :=
  match cells with
  | [] => from = goal
  | p :: rest =>
      GridSystem.calculateDistance from p = 1
      /\ GridSystem.isValidPosition p = true
      /\ ~ occupiedByOther character g p
      /\ walk character g p rest goal
  end.

(** Movement points a character has left; a counter not yet set stands for
    the full budget of the turn, as [canMove] sets it. *)
Definition movementLeft (character : Character) : Z :=
  default GAME_CONSTANTS.MOVEMENT_POINTS_PER_TURN
          (Character.movementPointsLeft character).

(** The rule of [canMove] as the specification words it, for a revision
    [canMove] of the function. *)
Definition pathBudgetRule
    (canMove : Character -> Position -> GameState -> Check.t * Character) : Prop :=
  forall (character : Character) (to : Position) (g : GameState),
    Character.team character = GameState.currentTurn g ->
    (Check.valid (fst (canMove character to g)) = true
     <-> GridSystem.isValidPosition to = true
         /\ Character.position character <> to
         /\ ~ occupiedByOther character g to
         /\ exists cells : list Position,
              walk character g (Character.position character) cells to
              /\ Z.of_nat (length cells) <= movementLeft character).

(** A battle record in which every character has been struck down. *)
Definition wipedOut : GameState :=
  GameState.set_characters
    (CombatSystem.wound 1000 <$> GameState.characters Scenario.fresh)
    Scenario.fresh.

(** The rule of [checkBattleEnd] as the specification words it. *)
Definition survivorWinsRule : Prop :=
  forall g : GameState,
    let r := CombatSystem.checkBattleEnd g in
    (CombatSystem.ended r = true <-> noLiving PLAYER1 g \/ noLiving PLAYER2 g)
    /\ (CombatSystem.ended r = true ->
        exists t : Team,
          CombatSystem.endWinner r = Some (playerIdOf t g)
          /\ hasLiving t g /\ noLiving (otherTeam t) g).

(** ** Invariants of a battle record *)

(** The fields of a character that describe who it is, not how the battle
    is going. *)
Definition roster (c : Character) :=
  (Character.id c, Character.name c, Character.level c, Character.experience c,
   Character.maxHp c, Character.baseDamage c, Character.baseArmor c,
   Character.combatType c, Character.equipment c, Character.unlockedSlots c,
   Character.team c, Character.hasMoved c).

(** The assignments the engine makes to one character, and their
    sequences: setting an unset movement counter, a step onto a valid cell
    paid with a movement point, a wound, the mark of having attacked, and
    the reset at the start of a turn. *)
Inductive evolves : Character -> Character -> Prop :=
| ev_same c : evolves c c
| ev_counter c :
    Character.movementPointsLeft c = None ->
    evolves c (Character.set_movementPointsLeft
                 (Some GAME_CONSTANTS.MOVEMENT_POINTS_PER_TURN) c)
| ev_step c to m :
    Character.movementPointsLeft c = Some m -> 1 <= m ->
    GridSystem.isValidPosition to = true ->
    evolves c (MovementSystem.relocate to c)
| ev_wound c d : 1 <= d -> evolves c (CombatSystem.wound d c)
| ev_attacked c : evolves c (Character.set_hasAttacked true c)
| ev_reset c t : evolves c (TurnManager.resetForTurn t c)
| ev_then c1 c2 c3 : evolves c1 c2 -> evolves c2 c3 -> evolves c1 c3.

(** The characters of [l'] are those of [l], each at its place, after
    assignments of the engine. *)
Definition evolved (l l' : list Character) : Prop :=
  length l = length l'
  /\ forall i c c', l !! i = Some c -> l' !! i = Some c' -> evolves c c'.

(** Health within bounds, and alive exactly with health left. *)
Definition healthy (c : Character) : Prop :=
  0 <= Character.currentHp c <= Character.maxHp c
  /\ (Character.isAlive c = true <-> 0 < Character.currentHp c).

(** The movement counter is set and within the budget of a turn. *)
Definition budgeted (c : Character) : Prop :=
  exists m, Character.movementPointsLeft c = Some m
            /\ 0 <= m <= GAME_CONSTANTS.MOVEMENT_POINTS_PER_TURN.

Definition onGrid (c : Character) : Prop :=
  GridSystem.isValidPosition (Character.position c) = true.

(** The team's pool holds at least one point and at most the budget. *)
Definition poolInRange (g : GameState) : Prop :=
  1 <= GameState.movementPointsLeft g <= GAME_CONSTANTS.MOVEMENT_POINTS_PER_TURN.

(** Everything the data model asks of a battle record. *)
Record WellFormed (g : GameState) : Prop := mkWellFormed {
  wf_health : Forall healthy (GameState.characters g);
  wf_budget : Forall budgeted (GameState.characters g);
  wf_grid : Forall onGrid (GameState.characters g);
  wf_pool : poolInRange g
}.

(** No two characters share an id. *)
Definition distinctIds (l : list Character) : Prop :=
  forall i j ci cj,
    l !! i = Some ci -> l !! j = Some cj -> i <> j ->
    Character.id ci <> Character.id cj.

(** No two living characters stand on one cell. *)
Definition apart (l : list Character) : Prop :=
  forall i j ci cj,
    l !! i = Some ci -> l !! j = Some cj -> i <> j ->
    Character.isAlive ci = true -> Character.isAlive cj = true ->
    Character.position ci <> Character.position cj.

(** Each character stays where it is, and none comes to life. *)
Definition settled (l l' : list Character) : Prop :=
  length l = length l'
  /\ forall i c c', l !! i = Some c -> l' !! i = Some c' ->
       Character.position c' = Character.position c
       /\ Character.id c' = Character.id c
       /\ (Character.isAlive c' = true -> Character.isAlive c = true).

(** The cells that can block a ranged attack: those of the living
    characters other than attacker and target, in battle order. *)
Definition sightObstacles (attacker target : Character) (g : GameState)
    : list Position :=
  map Character.position
    (List.filter
       (fun c => Character.isAlive c
                 && negb (String.eqb (Character.id c) (Character.id attacker))
                 && negb (String.eqb (Character.id c) (Character.id target)))
       (GameState.characters g)).

(** Every living character of [t] in [l] has spent its movement points. *)
Definition allSpent (t : Team) (l : list Character) : Prop :=
  forall c, c ∈ l -> livesFor t c ->
            default 0 (Character.movementPointsLeft c) <= 0.

(** The character [getAvailableMoves] hands from call to call is the
    given one, possibly with its counter set. *)
Definition sameMover (c c2 : Character) : Prop :=
  c2 = c
  \/ (Character.movementPointsLeft c = None
      /\ c2 = Character.set_movementPointsLeft
                (Some GAME_CONSTANTS.MOVEMENT_POINTS_PER_TURN) c).

(** A cell is blocked for the character of id [movingCharacterId] when
    another living character of [characters] stands on it. *)
Definition blocked (characters : list Character) (movingCharacterId : string)
    (p : Position) : Prop :=
  exists char : Character,
    char ∈ characters
    /\ Character.isAlive char = true
    /\ Character.id char <> movingCharacterId
    /\ Character.position char = p.

(** [trail characters id goal from cells to]: stepping from [from] onto
    the cells of [cells] in order, each an orthogonal neighbour of the one
    before and a valid grid cell, and each either the goal or not blocked,
    ends on [to]. *)
Fixpoint trail (characters : list Character) (movingCharacterId : string)
    (goal from : Position) (cells : list Position) (to : Position) : Prop :=
  match cells with
  | [] => from = to
  | p :: rest =>
      GridSystem.calculateDistance from p = 1
      /\ GridSystem.isValidPosition p = true
      /\ (p = goal \/ ~ blocked characters movingCharacterId p)
      /\ trail characters movingCharacterId goal p rest to
  end.

(** Every queued entry carries a trail from the start to its cell. *)
Definition queued (characters : list Character) (movingId : string)
    (start goal : Position) (queue : list (Position * list Position)) : Prop :=
  Forall (fun e => exists cells,
                     snd e = start :: cells
                     /\ trail characters movingId goal start cells (fst e))
         queue.

(** Every pending timeout is the one the manager has on file for its
    battle and deadline, and its handle has been given out. *)
Definition onFile (s : TimerManager.Timers) : Prop :=
  forall h t, TimerManager.pending s !! h = Some t ->
    (h < TimerManager.nextHandle s)%nat
    /\ match TimerManager.deadline t with
       | TimerManager.TurnDeadline =>
           TimerManager.turnTimers s !! TimerManager.battleId t = Some h
       | TimerManager.BattleDeadline =>
           TimerManager.battleTimers s !! TimerManager.battleId t = Some h
       end.

(** Every handle the manager has on file was given out, and a pending
    timeout under it is of the battle and deadline it is filed for. *)
Definition genuine (s : TimerManager.Timers) : Prop :=
  (forall b h, TimerManager.turnTimers s !! b = Some h ->
     (h < TimerManager.nextHandle s)%nat
     /\ forall t, TimerManager.pending s !! h = Some t ->
                  TimerManager.battleId t = b
                  /\ TimerManager.deadline t = TimerManager.TurnDeadline)
  /\ (forall b h, TimerManager.battleTimers s !! b = Some h ->
        (h < TimerManager.nextHandle s)%nat
        /\ forall t, TimerManager.pending s !! h = Some t ->
                     TimerManager.battleId t = b
                     /\ TimerManager.deadline t = TimerManager.BattleDeadline).

(** One fresh battle on file, its two timers running. *)
Definition oneBattle : SocketHandler.t :=
  SocketHandler.startBattleTimers "battle" Scenario.fresh
    (SocketHandler.mk {["battle" := Scenario.fresh]} ∅ TimerManager.noTimers []).

(** The keys [findPathBFS] can mark as visited besides the start: one for
    each cell of the grid. *)
Definition gridKeys : gset (Z * Z) :=
  list_to_set
    (seqZ 0 GAME_CONSTANTS.GRID_WIDTH
       ≫= (fun x => (fun y => (x, y)) <$> seqZ 0 GAME_CONSTANTS.GRID_HEIGHT)).

(** The iterations the loop of [findPathBFS] still has before it: the
    entries queued and the cells not yet marked. *)
Definition iterationsLeft (queue : list (Position * list Position))
    (visited : gset (Z * Z)) : nat :=
  (length queue + size (gridKeys ∖ visited))%nat.

(** * Properties *)

(** ** Turn alternation *)

Lemma startTurn_currentTurn g now :
  GameState.currentTurn (TurnManager.startTurn g now) = GameState.currentTurn g.
Proof. reflexivity. Qed.

Lemma startTurn_turnNumber g now :
  GameState.turnNumber (TurnManager.startTurn g now) = GameState.turnNumber g.
Proof. reflexivity. Qed.

Lemma endTurn_currentTurn g now :
  GameState.currentTurn (TurnManager.endTurn g now)
  = otherTeam (GameState.currentTurn g).
Proof. unfold TurnManager.endTurn. cbn. destruct (GameState.currentTurn g); reflexivity. Qed.

Lemma endTurn_turnNumber g now :
  GameState.turnNumber (TurnManager.endTurn g now)
  = match otherTeam (GameState.currentTurn g) with
    | PLAYER1 => GameState.turnNumber g + 1
    | PLAYER2 => GameState.turnNumber g
    end.
Proof. unfold TurnManager.endTurn. cbn. destruct (GameState.currentTurn g); reflexivity. Qed.

(** C7. Two consecutive [endTurn] calls give the turn back to the team that
    had it and add exactly one to [turnNumber]; one [endTurn] hands the turn
    to the other team and adds one to [turnNumber] exactly when the team that
    receives the turn is PLAYER1 (otherwise [turnNumber] is unchanged). *)
Theorem endTurn_alternation :
  forall (g : GameState) (now1 now2 : Z),
    let g1 := TurnManager.endTurn g now1 in
    let g2 := TurnManager.endTurn g1 now2 in
    GameState.currentTurn g2 = GameState.currentTurn g
    /\ GameState.turnNumber g2 = GameState.turnNumber g + 1
    /\ GameState.currentTurn g1 = otherTeam (GameState.currentTurn g)
    /\ GameState.currentTurn g1 <> GameState.currentTurn g
    /\ (GameState.currentTurn g1 = PLAYER1 ->
        GameState.turnNumber g1 = GameState.turnNumber g + 1)
    /\ (GameState.currentTurn g1 <> PLAYER1 ->
        GameState.turnNumber g1 = GameState.turnNumber g).
Proof.
  intros g now1 now2 g1 g2. subst g1 g2.
  rewrite !endTurn_currentTurn, !endTurn_turnNumber, !endTurn_currentTurn.
  destruct (GameState.currentTurn g); cbn; repeat split;
    try congruence; try lia; intros; congruence.
Qed.

(** ** Start of a turn *)

Lemma Team_eqb_eq a b : Team_eqb a b = true <-> a = b.
Proof. destruct a, b; cbn; split; congruence. Qed.

Lemma Team_eqb_neq a b : Team_eqb a b = false <-> a <> b.
Proof. destruct a, b; cbn; split; congruence. Qed.

Lemma resetForTurn_active t c :
  Character.team c = t -> Character.isAlive c = true ->
  TurnManager.resetForTurn t c
  = Character.set_movementPointsLeft
      (Some GAME_CONSTANTS.MOVEMENT_POINTS_PER_TURN)
      (Character.set_hasAttacked false c).
Proof.
  intros Ht Ha. unfold TurnManager.resetForTurn.
  apply Team_eqb_eq in Ht. rewrite Ht, Ha. reflexivity.
Qed.

Lemma resetForTurn_idle t c :
  Character.team c <> t \/ Character.isAlive c = false ->
  TurnManager.resetForTurn t c = c.
Proof.
  intros [Ht | Ha]; unfold TurnManager.resetForTurn.
  - apply Team_eqb_neq in Ht. rewrite Ht. reflexivity.
  - rewrite Ha, andb_false_r. reflexivity.
Qed.

Lemma resetForTurn_team t c :
  Character.team (TurnManager.resetForTurn t c) = Character.team c.
Proof. unfold TurnManager.resetForTurn. case (_ && _); reflexivity. Qed.

Lemma resetForTurn_isAlive t c :
  Character.isAlive (TurnManager.resetForTurn t c) = Character.isAlive c.
Proof. unfold TurnManager.resetForTurn. case (_ && _); reflexivity. Qed.

Lemma startTurn_characters g now :
  GameState.characters (TurnManager.startTurn g now)
  = TurnManager.resetForTurn (GameState.currentTurn g) <$> GameState.characters g.
Proof. reflexivity. Qed.

(** C8. After [startTurn], every living character of the team whose turn
    begins has [hasAttacked = false] and [movementPointsLeft] equal to
    MOVEMENT_POINTS_PER_TURN (its other fields are as they were); the
    battle's own [movementPointsLeft] is MOVEMENT_POINTS_PER_TURN; the
    clock reading is stored in [turnStartTime]; and every character of the
    other team and every dead character is unchanged, at its place in the
    list. *)
Theorem startTurn_resets_active_team :
  forall (g : GameState) (now : Z),
    let g' := TurnManager.startTurn g now in
    GameState.currentTurn g' = GameState.currentTurn g
    /\ length (GameState.characters g') = length (GameState.characters g)
    /\ (forall (i : nat) (c' : Character),
          GameState.characters g' !! i = Some c' ->
          livesFor (GameState.currentTurn g') c' ->
          Character.hasAttacked c' = false
          /\ Character.movementPointsLeft c'
             = Some GAME_CONSTANTS.MOVEMENT_POINTS_PER_TURN
          /\ exists c, GameState.characters g !! i = Some c
                       /\ c' = Character.set_movementPointsLeft
                                 (Some GAME_CONSTANTS.MOVEMENT_POINTS_PER_TURN)
                                 (Character.set_hasAttacked false c))
    /\ GameState.movementPointsLeft g' = GAME_CONSTANTS.MOVEMENT_POINTS_PER_TURN
    /\ GameState.turnStartTime g' = Some now
    /\ (forall (i : nat) (c : Character),
          GameState.characters g !! i = Some c ->
          ~ livesFor (GameState.currentTurn g) c ->
          GameState.characters g' !! i = Some c).
Proof.
  intros g now g'. subst g'.
  rewrite startTurn_currentTurn, startTurn_characters.
  split; [reflexivity|]. split; [apply length_fmap|].
  split; [|split; [reflexivity|split; [reflexivity|]]].
  - intros i c' Hi [Ht Ha].
    rewrite list_lookup_fmap in Hi.
    destruct (GameState.characters g !! i) as [c|] eqn:Hc; [|discriminate].
    cbn in Hi. injection Hi as <-.
    rewrite resetForTurn_team in Ht. rewrite resetForTurn_isAlive in Ha.
    rewrite (resetForTurn_active _ _ Ht Ha). cbn.
    split; [reflexivity|]. split; [reflexivity|]. exists c. split; reflexivity.
  - intros i c Hi Hn.
    rewrite list_lookup_fmap, Hi. cbn. f_equal.
    apply resetForTurn_idle. unfold livesFor in Hn.
    destruct (Character.isAlive c); [left|right; reflexivity].
    intros Ht. apply Hn. split; [exact Ht|reflexivity].
Qed.

(** ** Winner on battle timeout *)

Lemma filter_living_length t l :
  length (List.filter (fun c => Team_eqb (Character.team c) t && Character.isAlive c) l)
  = livingCount t l.
Proof.
  induction l as [|c l IH]; [reflexivity|]. cbn.
  destruct (Character.team c), t, (Character.isAlive c); cbn; rewrite ?IH; reflexivity.
Qed.

Lemma fold_left_health_acc l acc :
  fold_left (fun sum c => sum + Character.currentHp c) l acc
  = acc + fold_left (fun sum c => sum + Character.currentHp c) l 0.
Proof.
  revert acc. induction l as [|c l IH]; intros acc; cbn [fold_left]; [lia|].
  rewrite (IH (acc + _)), (IH (0 + _)). lia.
Qed.

Lemma filter_living_health t l :
  fold_left (fun sum c => sum + Character.currentHp c)
    (List.filter (fun c => Team_eqb (Character.team c) t && Character.isAlive c) l) 0
  = livingHealth t l.
Proof.
  induction l as [|c l IH]; [reflexivity|]. cbn.
  destruct (Character.team c), t, (Character.isAlive c); cbn; rewrite ?IH;
    try reflexivity; rewrite fold_left_health_acc, IH; reflexivity.
Qed.

(** C9. [determineWinnerByTime] gives the team with strictly more living
    characters; with equal counts, the team whose living characters have
    the strictly greater summed [currentHp]; with equal sums too, PLAYER1.
    The result is a function of these four numbers alone. *)
Theorem determineWinnerByTime_rule :
  forall (g : GameState),
    let n1 := livingCount PLAYER1 (GameState.characters g) in
    let n2 := livingCount PLAYER2 (GameState.characters g) in
    let h1 := livingHealth PLAYER1 (GameState.characters g) in
    let h2 := livingHealth PLAYER2 (GameState.characters g) in
    let w := TimerManager.determineWinnerByTime g in
    ((n2 < n1)%nat -> w = PLAYER1)
    /\ ((n1 < n2)%nat -> w = PLAYER2)
    /\ (n1 = n2 -> h2 < h1 -> w = PLAYER1)
    /\ (n1 = n2 -> h1 < h2 -> w = PLAYER2)
    /\ (n1 = n2 -> h1 = h2 -> w = PLAYER1).
Proof.
  intros g n1 n2 h1 h2 w. subst w. unfold TimerManager.determineWinnerByTime.
  rewrite !filter_living_length, !filter_living_health.
  fold n1 n2 h1 h2.
  destruct (Nat.ltb_spec n2 n1), (Nat.ltb_spec n1 n2),
           (Z.ltb_spec h2 h1), (Z.ltb_spec h1 h2);
    repeat split; intros; try reflexivity; lia.
Qed.

(** ** Resolution of an attack *)

Lemma calculateDamage_formula attacker target :
  CombatSystem.calculateDamage attacker target
  = Z.max 1 (Character.baseDamage attacker + weaponDamageBonus attacker
             - (Character.baseArmor target + armorArmorBonus target)).
Proof.
  unfold CombatSystem.calculateDamage, CombatSystem.bonusOr0,
    weaponDamageBonus, armorArmorBonus.
  destruct (Loadout.weapon _) as [w|], (Loadout.armor _) as [a|];
    try destruct (Equipment.damageBonus w); try destruct (Equipment.armorBonus a);
    reflexivity.
Qed.

Lemma wound_currentHp d t :
  Character.currentHp (CombatSystem.wound d t) = Z.max 0 (Character.currentHp t - d).
Proof. unfold CombatSystem.wound. cbn. case (_ =? _); reflexivity. Qed.

Lemma wound_isAlive d t :
  Character.isAlive (CombatSystem.wound d t)
  = if Z.max 0 (Character.currentHp t - d) =? 0 then false else Character.isAlive t.
Proof. unfold CombatSystem.wound. cbn. case (_ =? _); reflexivity. Qed.

Lemma wound_dead d t :
  Character.currentHp (CombatSystem.wound d t) = 0 ->
  Character.isAlive (CombatSystem.wound d t) = false.
Proof.
  rewrite wound_currentHp, wound_isAlive. intros ->. reflexivity.
Qed.

(** The target and the attacker as [executeAttack] leaves them, whether or
    not they are one object. *)
Lemma executeAttack_characters g ai ti attacker target :
  GameState.characters g !! ai = Some attacker ->
  GameState.characters g !! ti = Some target ->
  let d := CombatSystem.calculateDamage attacker target in
  let chars' := GameState.characters (snd (CombatSystem.executeAttack ai ti g)) in
  fst (CombatSystem.executeAttack ai ti g)
  = CombatSystem.mkOutcome d (negb (Character.isAlive (CombatSystem.wound d target)))
  /\ (exists target', chars' !! ti = Some target'
        /\ Character.currentHp target' = Character.currentHp (CombatSystem.wound d target)
        /\ Character.isAlive target' = Character.isAlive (CombatSystem.wound d target))
  /\ (exists attacker', chars' !! ai = Some attacker'
        /\ Character.hasAttacked attacker' = true)
  /\ (forall j, j <> ai -> j <> ti -> chars' !! j = GameState.characters g !! j).
Proof.
  intros Ha Ht d chars'. subst chars'.
  unfold CombatSystem.executeAttack. rewrite Ha, Ht. fold d. cbn [fst snd].
  cbn [GameState.characters GameState.set_characters].
  destruct (decide (ai = ti)) as [->|Hne].
  - rewrite list_lookup_alter_eq, list_lookup_alter_eq, Ht. cbn.
    split; [reflexivity|]. split; [eexists; split; [reflexivity|split; reflexivity]|].
    split; [eexists; split; reflexivity|].
    intros j Hj _. rewrite !list_lookup_alter_ne by congruence. reflexivity.
  - rewrite list_lookup_alter_ne, list_lookup_alter_eq, Ht by exact Hne. cbn.
    split; [reflexivity|]. split; [eexists; split; [reflexivity|split; reflexivity]|].
    split.
    + rewrite list_lookup_alter_eq, list_lookup_alter_ne, Ha by congruence. cbn.
      eexists; split; reflexivity.
    + intros j Hj1 Hj2. rewrite !list_lookup_alter_ne by congruence. reflexivity.
Qed.

(** C4. [executeAttack] deals
    max(1, attacker.baseDamage + weapon damageBonus - (target.baseArmor +
    armor armorBonus)), which is at least 1; the target's [currentHp]
    becomes max(0, currentHp - damage); its [isAlive] becomes false when
    the new [currentHp] is 0 and is left as it was otherwise; the
    attacker's [hasAttacked] becomes true; the call returns the damage and
    [killed = not isAlive] of the target, which for a target that was alive
    is true exactly when its [currentHp] reached 0. *)
Theorem executeAttack_resolution :
  forall (g : GameState) (ai ti : nat) (attacker target : Character),
    GameState.characters g !! ai = Some attacker ->
    GameState.characters g !! ti = Some target ->
    let dealt :=
      Z.max 1 (Character.baseDamage attacker + weaponDamageBonus attacker
               - (Character.baseArmor target + armorArmorBonus target)) in
    let result := fst (CombatSystem.executeAttack ai ti g) in
    let g' := snd (CombatSystem.executeAttack ai ti g) in
    CombatSystem.damage result = dealt
    /\ 1 <= dealt
    /\ (exists target' : Character,
          GameState.characters g' !! ti = Some target'
          /\ Character.currentHp target' = Z.max 0 (Character.currentHp target - dealt)
          /\ (Character.currentHp target' = 0 -> Character.isAlive target' = false)
          /\ (Character.currentHp target' <> 0 ->
              Character.isAlive target' = Character.isAlive target)
          /\ CombatSystem.killed result = negb (Character.isAlive target')
          /\ (Character.isAlive target = true ->
              (CombatSystem.killed result = true <-> Character.currentHp target' = 0)))
    /\ (exists attacker' : Character,
          GameState.characters g' !! ai = Some attacker'
          /\ Character.hasAttacked attacker' = true).
Proof.
  intros g ai ti attacker target Ha Ht dealt result g'.
  destruct (executeAttack_characters g ai ti attacker target Ha Ht)
    as (Hres & (t' & Ht' & Hhp & Halive) & Hatt & _).
  rewrite calculateDamage_formula in Hres, Hhp, Halive. fold dealt in Hres, Hhp, Halive.
  subst result g'. rewrite Hres, wound_isAlive.
  cbn [CombatSystem.damage CombatSystem.killed].
  split; [reflexivity|]. split; [lia|]. split; [|exact Hatt].
  exists t'. split; [exact Ht'|].
  rewrite wound_currentHp in Hhp. rewrite wound_isAlive in Halive.
  rewrite Halive, Hhp.
  split; [reflexivity|].
  destruct (Z.eqb_spec (Z.max 0 (Character.currentHp target - dealt)) 0) as [E|E].
  - repeat split; intros; try reflexivity; congruence.
  - repeat split; intros; try reflexivity; try congruence.
    destruct (Character.isAlive target); cbn in *; congruence.
Qed.

Lemma executeAttack_resolution_witness :
  GameState.characters Scenario.fresh !! 0%nat = Some Scenario.warrior1
  /\ GameState.characters Scenario.fresh !! 3%nat = Some Scenario.warrior2
  /\ CombatSystem.damage (fst (CombatSystem.executeAttack 0 3 Scenario.fresh)) = 15.
Proof.
  split; [reflexivity|]. split; [reflexivity|].
  destruct (executeAttack_resolution Scenario.fresh 0 3
              Scenario.warrior1 Scenario.warrior2 eq_refl eq_refl) as [Hd _].
  exact Hd.
Defined.

(** ** End of the battle *)

Lemma livesFor_dec t c : {livesFor t c} + {~ livesFor t c}.
Proof.
  unfold livesFor.
  destruct (Character.team c), t, (Character.isAlive c);
    (left; split; reflexivity) || (right; intros [? ?]; congruence).
Defined.

Lemma livingCount_cons t c l :
  livingCount t (c :: l)
  = if livesFor_dec t c then S (livingCount t l) else livingCount t l.
Proof.
  cbn. destruct (livesFor_dec t c) as [[Ht Ha]|Hn].
  - rewrite Ht, Ha. destruct t; reflexivity.
  - unfold livesFor in Hn.
    destruct (Character.team c), t, (Character.isAlive c); try reflexivity;
      exfalso; apply Hn; split; reflexivity.
Qed.

Lemma livingCount_zero t l :
  livingCount t l = 0%nat <-> (forall c, c ∈ l -> ~ livesFor t c).
Proof.
  induction l as [|c l IH].
  - split; [intros _ c Hc; inversion Hc|reflexivity].
  - rewrite livingCount_cons. destruct (livesFor_dec t c) as [Hl|Hn].
    + split; [discriminate|]. intros H. exfalso. apply (H c); [left|exact Hl].
    + rewrite IH. split.
      * intros H c' Hc'. apply elem_of_cons in Hc' as [->|Hc']; [exact Hn|auto].
      * intros H c' Hc'. apply H. right. exact Hc'.
Qed.

Lemma livingCount_pos t l :
  livingCount t l <> 0%nat <-> (exists c, c ∈ l /\ livesFor t c).
Proof.
  induction l as [|c l IH].
  - split; [intros H; exfalso; apply H; reflexivity|intros (c & Hc & _); inversion Hc].
  - rewrite livingCount_cons. destruct (livesFor_dec t c) as [Hl|Hn].
    + split; [intros _; exists c; split; [left|exact Hl]|discriminate].
    + rewrite IH. split.
      * intros (c' & Hc' & Hl). exists c'. split; [right; exact Hc'|exact Hl].
      * intros (c' & Hc' & Hl). apply elem_of_cons in Hc' as [->|Hc'];
          [contradiction|exists c'; split; assumption].
Qed.

Lemma checkBattleEnd_cases g :
  CombatSystem.checkBattleEnd g
  = if Nat.eqb (livingCount PLAYER1 (GameState.characters g)) 0
    then CombatSystem.mkBattleEnd true (Some (GameState.player2Id g))
    else if Nat.eqb (livingCount PLAYER2 (GameState.characters g)) 0
    then CombatSystem.mkBattleEnd true (Some (GameState.player1Id g))
    else CombatSystem.mkBattleEnd false None.
Proof.
  unfold CombatSystem.checkBattleEnd. rewrite !filter_living_length. reflexivity.
Qed.

Lemma noLiving_count t g :
  noLiving t g <-> livingCount t (GameState.characters g) = 0%nat.
Proof. unfold noLiving. symmetry. apply livingCount_zero. Qed.

Lemma hasLiving_count t g :
  hasLiving t g <-> livingCount t (GameState.characters g) <> 0%nat.
Proof. unfold hasLiving. symmetry. apply livingCount_pos. Qed.

(** C6, as the specification words it, fails: in a battle record where
    neither team has a living character [checkBattleEnd] names PLAYER2's
    player, whose team has no living character. *)
Lemma survivorWinsRule_fails : ~ survivorWinsRule.
Proof.
  intros H. destruct (H wipedOut) as [_ Hw].
  destruct (Hw eq_refl) as (t & _ & Hl & _).
  apply hasLiving_count in Hl. apply Hl. destruct t; reflexivity.
Qed.

(** C6, amended. [checkBattleEnd] returns [ended = true] exactly when at
    least one team has no living character.  The winner is then the
    player of PLAYER2 when PLAYER1 has no living character, and the player
    of PLAYER1 otherwise; so when some character is still alive the winner
    is the player of the team that still has a living character, its
    opponent having none.  When the battle has not ended there is no
    winner. *)
Theorem checkBattleEnd_rule :
  forall g : GameState,
    let r := CombatSystem.checkBattleEnd g in
    (CombatSystem.ended r = true <-> noLiving PLAYER1 g \/ noLiving PLAYER2 g)
    /\ (noLiving PLAYER1 g ->
        CombatSystem.endWinner r = Some (GameState.player2Id g))
    /\ (hasLiving PLAYER1 g -> noLiving PLAYER2 g ->
        CombatSystem.endWinner r = Some (GameState.player1Id g))
    /\ (CombatSystem.ended r = true ->
        hasLiving PLAYER1 g \/ hasLiving PLAYER2 g ->
        exists t : Team,
          CombatSystem.endWinner r = Some (playerIdOf t g)
          /\ hasLiving t g /\ noLiving (otherTeam t) g)
    /\ (CombatSystem.ended r = false -> CombatSystem.endWinner r = None).
Proof.
  intros g r. subst r. rewrite checkBattleEnd_cases.
  rewrite !noLiving_count, !hasLiving_count.
  destruct (Nat.eqb_spec (livingCount PLAYER1 (GameState.characters g)) 0) as [E1|E1];
    destruct (Nat.eqb_spec (livingCount PLAYER2 (GameState.characters g)) 0) as [E2|E2];
    cbn; repeat split; intros; try reflexivity; try congruence; try tauto.
  - exists PLAYER2. cbn. rewrite noLiving_count, hasLiving_count. tauto.
  - exists PLAYER1. cbn. rewrite noLiving_count, hasLiving_count. tauto.
Qed.

(** ** The auto-end-turn flag *)

Lemma startTurn_autoEndTurn g now :
  GameState.autoEndTurn (TurnManager.startTurn g now) = GameState.autoEndTurn g.
Proof. reflexivity. Qed.

Lemma endTurn_autoEndTurn g now :
  GameState.autoEndTurn (TurnManager.endTurn g now) = GameState.autoEndTurn g.
Proof.
  unfold TurnManager.endTurn. cbn. destruct (GameState.currentTurn g); reflexivity.
Qed.

Lemma autoEndTurnIfNeeded_autoEndTurn g now :
  GameState.autoEndTurn (TurnManager.autoEndTurnIfNeeded g now)
  = GameState.autoEndTurn g.
Proof.
  unfold TurnManager.autoEndTurnIfNeeded.
  case (negb _); [apply endTurn_autoEndTurn|reflexivity].
Qed.

Lemma executeMove_autoEndTurn ci to g :
  GameState.autoEndTurn g = true ->
  GameState.autoEndTurn (MovementSystem.executeMove ci to g) = true.
Proof.
  intros H. unfold MovementSystem.executeMove.
  case (_ || _); cbn; [reflexivity|exact H].
Qed.

Lemma executeAttack_autoEndTurn ai ti g :
  GameState.autoEndTurn (snd (CombatSystem.executeAttack ai ti g))
  = GameState.autoEndTurn g.
Proof.
  unfold CombatSystem.executeAttack.
  destruct (GameState.characters g !! ai), (GameState.characters g !! ti); reflexivity.
Qed.

Lemma handleEndTurn_autoEndTurn g now :
  GameState.autoEndTurn (snd (BattleManager.handleEndTurn g now))
  = GameState.autoEndTurn g.
Proof. exact (endTurn_autoEndTurn g now). Qed.

Lemma handleEndTurn_result g now :
  fst (BattleManager.handleEndTurn g now)
  = ActionResult.ok (snd (BattleManager.handleEndTurn g now)).
Proof. reflexivity. Qed.

Lemma handleSurrender_autoEndTurn playerId g now :
  GameState.autoEndTurn (snd (BattleManager.handleSurrender playerId g now))
  = GameState.autoEndTurn g.
Proof. reflexivity. Qed.

Lemma handleMove_autoEndTurn characterId to g now :
  GameState.autoEndTurn g = true ->
  GameState.autoEndTurn (snd (BattleManager.handleMove characterId to g now)) = true.
Proof.
  intros H. unfold BattleManager.handleMove.
  destruct (BattleManager.find characterId (GameState.characters g)) as [[ci c]|];
    [|exact H].
  destruct (MovementSystem.canMove c to g) as [chk c'].
  destruct (negb (Check.valid chk)); [exact H|].
  set (g1 := GameState.set_updatedAt now _).
  assert (H1 : GameState.autoEndTurn g1 = true).
  { subst g1. cbn. apply executeMove_autoEndTurn. exact H. }
  rewrite H1.
  destruct (BattleManager.handleEndTurn g1 now) as [r g2] eqn:E.
  assert (H2 : GameState.autoEndTurn g2 = true).
  { change g2 with (snd (r, g2)). rewrite <- E, handleEndTurn_autoEndTurn. exact H1. }
  case (_ && _); exact H2.
Qed.

Lemma handleAttack_autoEndTurn los attackerId targetId g now :
  GameState.autoEndTurn g = true ->
  GameState.autoEndTurn
    (snd (BattleManager.handleAttack los attackerId targetId g now)) = true.
Proof.
  intros H. unfold BattleManager.handleAttack.
  destruct (BattleManager.find attackerId (GameState.characters g)) as [[ai a]|];
    [|exact H].
  destruct (BattleManager.find targetId (GameState.characters g)) as [[ti t]|];
    [|exact H].
  destruct (negb (Check.valid _)); [exact H|].
  pose proof (executeAttack_autoEndTurn ai ti g) as Hx.
  destruct (CombatSystem.executeAttack ai ti g) as [res g1]. cbn [snd] in Hx.
  set (g2 := GameState.set_updatedAt now g1).
  set (g3 := if CombatSystem.ended (CombatSystem.checkBattleEnd g2) then _ else g2).
  assert (H3 : GameState.autoEndTurn g3 = true).
  { subst g3 g2. case (CombatSystem.ended _); cbn; congruence. }
  destruct (GameState.autoEndTurn g3 && _); [|exact H3].
  destruct (BattleManager.handleEndTurn g3 now) as [r g4] eqn:E.
  assert (H4 : GameState.autoEndTurn g4 = true).
  { change g4 with (snd (r, g4)). rewrite <- E, handleEndTurn_autoEndTurn. exact H3. }
  case (_ && _); exact H4.
Qed.

Lemma processAction_autoEndTurn los action playerId g now :
  GameState.autoEndTurn g = true ->
  GameState.autoEndTurn
    (snd (BattleManager.processAction los action playerId g now)) = true.
Proof.
  intros H. unfold BattleManager.processAction.
  destruct (negb _); [exact H|].
  destruct action.
  - apply handleMove_autoEndTurn. exact H.
  - apply handleAttack_autoEndTurn. exact H.
  - rewrite handleEndTurn_autoEndTurn. exact H.
  - exact H.
  - rewrite handleSurrender_autoEndTurn. exact H.
Qed.

Lemma play_autoEndTurn los requests :
  forall g, GameState.autoEndTurn g = true ->
            GameState.autoEndTurn (Scenario.play los g requests) = true.
Proof.
  induction requests as [|r rs IH]; intros g H; [exact H|].
  cbn. apply IH. apply processAction_autoEndTurn. exact H.
Qed.

(** C10. Once [autoEndTurn] is true on a battle record it stays true:
    [startTurn], [endTurn], [autoEndTurnIfNeeded], [executeMove],
    [executeAttack], every [processAction] and every sequence of submitted
    actions leave it true.  In particular the turn handed over by
    [handleEndTurn] belongs to the other team and still carries the flag. *)
Theorem autoEndTurn_never_reset :
  forall (los : GridSystem.LineOfSight) (g : GameState),
    GameState.autoEndTurn g = true ->
    (forall now, GameState.autoEndTurn (TurnManager.startTurn g now) = true)
    /\ (forall now, GameState.autoEndTurn (TurnManager.endTurn g now) = true)
    /\ (forall now, GameState.autoEndTurn (TurnManager.autoEndTurnIfNeeded g now) = true)
    /\ (forall ci to, GameState.autoEndTurn (MovementSystem.executeMove ci to g) = true)
    /\ (forall ai ti,
          GameState.autoEndTurn (snd (CombatSystem.executeAttack ai ti g)) = true)
    /\ (forall action playerId now,
          GameState.autoEndTurn
            (snd (BattleManager.processAction los action playerId g now)) = true)
    /\ (forall requests, GameState.autoEndTurn (Scenario.play los g requests) = true)
    /\ (forall now,
          let g' := snd (BattleManager.handleEndTurn g now) in
          GameState.currentTurn g' = otherTeam (GameState.currentTurn g)
          /\ GameState.autoEndTurn g' = true).
Proof.
  intros los g H. repeat split; intros.
  - rewrite startTurn_autoEndTurn. exact H.
  - rewrite endTurn_autoEndTurn. exact H.
  - rewrite autoEndTurnIfNeeded_autoEndTurn. exact H.
  - apply executeMove_autoEndTurn. exact H.
  - rewrite executeAttack_autoEndTurn. exact H.
  - apply processAction_autoEndTurn. exact H.
  - apply play_autoEndTurn. exact H.
  - apply endTurn_currentTurn.
  - rewrite handleEndTurn_autoEndTurn. exact H.
Qed.

Lemma autoEndTurn_never_reset_witness :
  GameState.autoEndTurn Scenario.contact = true
  /\ GameState.autoEndTurn
       (Scenario.play Scenario.clearSight Scenario.contact Scenario.duel) = true.
Proof.
  split; [reflexivity|].
  destruct (autoEndTurn_never_reset Scenario.clearSight Scenario.contact eq_refl)
    as (_ & _ & _ & _ & _ & _ & Hplay & _).
  exact (Hplay Scenario.duel).
Defined.

Lemma executeMove_sets_flag ci to g :
  GameState.movementPointsLeft g <= 1 ->
  GameState.autoEndTurn (MovementSystem.executeMove ci to g) = true.
Proof.
  intros H. unfold MovementSystem.executeMove.
  cbn [GameState.movementPointsLeft GameState.set_movementPointsLeft
       GameState.set_characters].
  replace (GameState.movementPointsLeft g - 1 <=? 0) with true
    by (symmetry; apply Z.leb_le; lia).
  rewrite orb_true_r. reflexivity.
Qed.

(** ** The battles of [Scenario] are reached through the engine *)

Lemma contact_reached :
  Scenario.play Scenario.clearSight Scenario.fresh Scenario.approach
  = Scenario.contact
  /\ forallb (fun b => b)
       (Scenario.outcomes Scenario.clearSight Scenario.fresh Scenario.approach)
     = true.
Proof. split; vm_compute; reflexivity. Qed.

Lemma fallen_reached :
  Scenario.play Scenario.clearSight Scenario.contact Scenario.duel
  = Scenario.fallen
  /\ forallb (fun b => b)
       (Scenario.outcomes Scenario.clearSight Scenario.contact Scenario.duel)
     = true.
Proof. split; vm_compute; reflexivity. Qed.

Lemma fresh_warriors :
  BattleManager.find "w1" (GameState.characters Scenario.fresh)
  = Some (0%nat, Scenario.warrior1)
  /\ BattleManager.find "w2" (GameState.characters Scenario.fresh)
     = Some (3%nat, Scenario.warrior2).
Proof. split; reflexivity. Qed.

(** ** Turn ownership *)

Lemma getPlayerTeam_outsider playerId g :
  playerId <> GameState.player1Id g ->
  playerId <> GameState.player2Id g ->
  TurnManager.getPlayerTeam playerId g = None.
Proof.
  intros H1 H2. unfold TurnManager.getPlayerTeam.
  apply String.eqb_neq in H1, H2. rewrite H1, H2. reflexivity.
Qed.

(** C1 on the code. An action submitted under an identity that is neither
    [player1Id] nor [player2Id] (the timer's 'SYSTEM' among them) is
    refused with 'Not your turn', END_TURN included, and the battle record
    is left as it was: [processAction] has no exemption for a system
    actor. *)
Theorem outsider_action_refused :
  forall (los : GridSystem.LineOfSight) (action : BattleAction)
         (playerId : string) (g : GameState) (now : Z),
    playerId <> GameState.player1Id g ->
    playerId <> GameState.player2Id g ->
    BattleManager.processAction los action playerId g now
    = (ActionResult.fail "Not your turn", g).
Proof.
  intros los action playerId g now H1 H2.
  unfold BattleManager.processAction, TurnManager.canAct.
  rewrite (getPlayerTeam_outsider _ _ H1 H2). reflexivity.
Qed.

Lemma outsider_action_refused_witness :
  "SYSTEM" <> GameState.player1Id Scenario.fresh
  /\ "SYSTEM" <> GameState.player2Id Scenario.fresh
  /\ BattleManager.processAction Scenario.clearSight EndTurnAction "SYSTEM"
       Scenario.fresh 16000
     = (ActionResult.fail "Not your turn", Scenario.fresh).
Proof.
  split; [discriminate|]. split; [discriminate|].
  apply (outsider_action_refused Scenario.clearSight EndTurnAction "SYSTEM"
           Scenario.fresh 16000); discriminate.
Defined.

(** ** Acting out of turn *)

Lemma findFrom_lookup id l :
  forall k i c, BattleManager.findFrom k id l = Some (i, c) ->
    exists j, i = (k + j)%nat /\ l !! j = Some c /\ Character.id c = id.
Proof.
  induction l as [|a l IH]; intros k i c; cbn; [discriminate|].
  destruct (String.eqb_spec (Character.id a) id) as [E|E].
  - intros [= <- <-]. exists 0%nat. split; [lia|]. split; [reflexivity|exact E].
  - intros Hf. destruct (IH _ _ _ Hf) as (j & -> & Hj & Hid).
    exists (S j). split; [lia|]. split; assumption.
Qed.

Lemma find_lookup id l i c :
  BattleManager.find id l = Some (i, c) ->
  l !! i = Some c /\ Character.id c = id.
Proof.
  intros Hf. destruct (findFrom_lookup _ _ _ _ _ Hf) as (j & -> & Hj & Hid).
  split; assumption.
Qed.

Lemma set_characters_same g :
  GameState.set_characters (GameState.characters g) g = g.
Proof. destruct g; reflexivity. Qed.

Lemma canMove_offturn c to g :
  Character.team c <> GameState.currentTurn g ->
  MovementSystem.canMove c to g = (Check.reject "Not this character's turn", c).
Proof.
  intros H. unfold MovementSystem.canMove.
  apply Team_eqb_neq in H. rewrite H. reflexivity.
Qed.

(** The MOVE half of C2 holds: a move of a character whose team does not
    have the turn is refused, whoever submits it, and the battle record
    is exactly as it was. *)
Lemma offturn_move_refused los characterId from to playerId g now ci c :
  BattleManager.find characterId (GameState.characters g) = Some (ci, c) ->
  Character.team c <> GameState.currentTurn g ->
  exists msg,
    BattleManager.processAction los (MoveAction characterId from to) playerId g now
    = (ActionResult.fail msg, g).
Proof.
  intros Hf Ht. unfold BattleManager.processAction.
  destruct (negb _); [eexists; reflexivity|].
  unfold BattleManager.handleMove. rewrite Hf, (canMove_offturn _ _ _ Ht). cbn.
  apply find_lookup in Hf as [Hl _].
  rewrite (list_insert_id _ _ _ Hl), set_characters_same.
  eexists; reflexivity.
Qed.

(** C2 on the code, ATTACK half. In the battle [Scenario.contact], reached
    from a fresh battle by legal moves, it is PLAYER2's turn; an ATTACK
    whose attacker is PLAYER1's warrior is accepted, and the target loses
    15 health: [canAttack] does not look at whose turn it is. *)
Theorem offturn_attack_accepted :
  forall (los : GridSystem.LineOfSight) (now : Z),
    let g := Scenario.contact in
    let r := BattleManager.processAction los (AttackAction "w1" "w2") "bob" g now in
    GameState.currentTurn g = PLAYER2
    /\ (exists a, BattleManager.find "w1" (GameState.characters g) = Some (0%nat, a)
                  /\ Character.team a = PLAYER1)
    /\ (exists t, GameState.characters g !! 3%nat = Some t
                  /\ Character.id t = "w2" /\ Character.currentHp t = 100)
    /\ ActionResult.success (fst r) = true
    /\ ActionResult.damage (fst r) = Some 15
    /\ (exists t, GameState.characters (snd r) !! 3%nat = Some t
                  /\ Character.id t = "w2" /\ Character.currentHp t = 85).
Proof.
  intros los now g r. subst g r. vm_compute.
  split; [reflexivity|].
  split; [eexists; split; reflexivity|].
  split; [eexists; split; [reflexivity|split; reflexivity]|].
  split; [reflexivity|]. split; [reflexivity|].
  eexists; split; [reflexivity|split; reflexivity].
Qed.

(** ** The dead *)

Lemma canAttack_dead_target los attacker target g :
  Character.isAlive target = false ->
  Check.valid (CombatSystem.canAttack los attacker target g) = false.
Proof.
  intros H. unfold CombatSystem.canAttack. rewrite H.
  destruct (Character.hasAttacked attacker); reflexivity.
Qed.

(** An ATTACK naming a dead character as target is refused and leaves the
    battle record as it was. *)
Lemma attack_on_dead_refused los attackerId targetId playerId g now ti target :
  BattleManager.find targetId (GameState.characters g) = Some (ti, target) ->
  Character.isAlive target = false ->
  exists r,
    BattleManager.processAction los (AttackAction attackerId targetId) playerId g now
    = (r, g) /\ ActionResult.success r = false.
Proof.
  intros Hf Hd. unfold BattleManager.processAction.
  destruct (negb _); [eexists; split; reflexivity|].
  unfold BattleManager.handleAttack. rewrite Hf.
  destruct (BattleManager.find attackerId _) as [[ai a]|];
    [|eexists; split; reflexivity].
  rewrite (canAttack_dead_target los a target g Hd). cbn.
  eexists; split; reflexivity.
Qed.

(** C5 on the code, acting half. In the battle [Scenario.fallen], reached
    from a fresh battle through the engine, PLAYER1's warrior has
    [currentHp = 0] and [isAlive = false]; a MOVE of that warrior is
    accepted and relocates it, and an ATTACK with it as attacker is
    accepted and deals 15 damage: neither [canMove] nor [canAttack] looks
    at [isAlive] of the acting character. *)
Theorem dead_character_acts :
  forall (los : GridSystem.LineOfSight) (now : Z),
    let g := Scenario.fallen in
    let m := BattleManager.processAction los
               (MoveAction "w1" (Position.mk 3 1) (Position.mk 4 1)) "alice" g now in
    let a := BattleManager.processAction los (AttackAction "w1" "w2") "alice" g now in
    (exists c, BattleManager.find "w1" (GameState.characters g) = Some (0%nat, c)
               /\ Character.currentHp c = 0 /\ Character.isAlive c = false
               /\ Character.position c = Position.mk 3 1)
    /\ ActionResult.success (fst m) = true
    /\ (exists c, GameState.characters (snd m) !! 0%nat = Some c
                  /\ Character.isAlive c = false
                  /\ Character.position c = Position.mk 4 1)
    /\ ActionResult.success (fst a) = true
    /\ ActionResult.damage (fst a) = Some 15.
Proof.
  intros los now g m a. subst g m a. vm_compute.
  split; [eexists; split; [reflexivity|repeat split]|].
  split; [reflexivity|].
  split; [eexists; split; [reflexivity|split; reflexivity]|].
  split; reflexivity.
Qed.

(** ** Legality of a move *)

Lemma positionsEqual_eq a b : GridSystem.positionsEqual a b = true <-> a = b.
Proof.
  unfold GridSystem.positionsEqual. destruct a as [ax ay], b as [bx by_]. cbn.
  rewrite andb_true_iff, !Z.eqb_eq. split; [intros [-> ->]; reflexivity|].
  intros [= -> ->]. split; reflexivity.
Qed.

Lemma positionsEqual_neq a b : GridSystem.positionsEqual a b = false <-> a <> b.
Proof.
  rewrite <- positionsEqual_eq. destruct (GridSystem.positionsEqual a b);
    split; congruence.
Qed.

Lemma targetOccupied_iff character g to :
  existsb (fun char =>
             Character.isAlive char
             && negb (String.eqb (Character.id char) (Character.id character))
             && GridSystem.positionsEqual (Character.position char) to)
          (GameState.characters g) = true
  <-> occupiedByOther character g to.
Proof.
  rewrite existsb_exists. unfold occupiedByOther.
  split; intros (char & Hin & H); exists char.
  - rewrite !andb_true_iff, negb_true_iff, String.eqb_neq, positionsEqual_eq in H.
    rewrite list_elem_of_In. tauto.
  - rewrite !andb_true_iff, negb_true_iff, String.eqb_neq, positionsEqual_eq.
    rewrite <- list_elem_of_In. tauto.
Qed.

Lemma targetOccupied_false character g to :
  existsb (fun char =>
             Character.isAlive char
             && negb (String.eqb (Character.id char) (Character.id character))
             && GridSystem.positionsEqual (Character.position char) to)
          (GameState.characters g) = false
  <-> ~ occupiedByOther character g to.
Proof.
  rewrite <- targetOccupied_iff. destruct (existsb _ _); split; congruence.
Qed.

(** The cells of row 1 left of PLAYER1's warrior are free on a fresh
    battle. *)
Lemma fresh_row_free p :
  Position.x p = 5 \/ Position.x p = 6 ->
  ~ occupiedByOther Scenario.warrior1 Scenario.fresh p.
Proof.
  intros Hp (char & Hin & _ & _ & <-).
  vm_compute in Hin.
  repeat (apply elem_of_cons in Hin as [->|Hin]; [cbn in Hp; lia|]).
  inversion Hin.
Qed.

(** On a fresh battle everything the specification asks of a move of
    PLAYER1's warrior from (7,1) to (5,1) holds: a free path of two steps,
    and two movement points. *)
Lemma fresh_two_steps :
  Character.team Scenario.warrior1 = GameState.currentTurn Scenario.fresh
  /\ GameState.characters Scenario.fresh !! 0%nat = Some Scenario.warrior1
  /\ GridSystem.isValidPosition (Position.mk 5 1) = true
  /\ Character.position Scenario.warrior1 <> Position.mk 5 1
  /\ ~ occupiedByOther Scenario.warrior1 Scenario.fresh (Position.mk 5 1)
  /\ exists cells : list Position,
       walk Scenario.warrior1 Scenario.fresh
            (Character.position Scenario.warrior1) cells (Position.mk 5 1)
       /\ Z.of_nat (length cells) <= movementLeft Scenario.warrior1.
Proof.
  split; [reflexivity|]. split; [reflexivity|].
  split; [reflexivity|]. split; [discriminate|].
  split; [apply fresh_row_free; left; reflexivity|].
  exists [Position.mk 6 1; Position.mk 5 1]. split; [|vm_compute; discriminate].
  cbn [walk]. split; [reflexivity|]. split; [reflexivity|].
  split; [apply fresh_row_free; right; reflexivity|].
  split; [reflexivity|]. split; [reflexivity|].
  split; [apply fresh_row_free; left; reflexivity|reflexivity].
Qed.

(** C3, as the specification words it, fails: on a fresh battle PLAYER1's
    warrior has two movement points and the cell two steps to its left is
    free and reachable by a free two-step path, and [canMove] refuses it
    ('Can only move 1 cell at a time'). *)
Lemma pathBudgetRule_fails : ~ pathBudgetRule MovementSystem.canMove.
Proof.
  intros H.
  destruct fresh_two_steps as (Ht & _ & Hrest).
  destruct (H Scenario.warrior1 (Position.mk 5 1) Scenario.fresh Ht) as [_ Hback].
  enough (false = true) by discriminate.
  apply Hback. exact Hrest.
Qed.

(** The superseded revision does not follow the rule either.  Its search
    reads the cost of the start cell as [gScore.get(start) || Infinity];
    that cost is 0, so every tentative cost is [Infinity], no neighbour is
    ever opened, and no path is found to any other cell. *)
Lemma visit_stuck goal characters movingId current st neighbor :
  MovementSystemOld.gScore st !! MovementSystemOld.posKey current
  = Some (MovementSystemOld.Fin 0) ->
  MovementSystemOld.visit goal characters movingId current st neighbor = st.
Proof.
  intros Hg. unfold MovementSystemOld.visit. rewrite Hg. cbn.
  repeat case_match; reflexivity.
Qed.

Lemma visits_stuck goal characters movingId current neighbors :
  forall st,
    MovementSystemOld.gScore st !! MovementSystemOld.posKey current
    = Some (MovementSystemOld.Fin 0) ->
    fold_left (MovementSystemOld.visit goal characters movingId current) neighbors st
    = st.
Proof.
  induction neighbors as [|n ns IH]; intros st Hg; [reflexivity|].
  cbn [fold_left]. rewrite (visit_stuck _ _ _ _ _ _ Hg). apply IH, Hg.
Qed.

Lemma old_findPath_finds_nothing start goal characters movingId :
  start <> goal ->
  MovementSystemOld.findPath start goal characters movingId = None.
Proof.
  intros Hne. apply positionsEqual_neq in Hne.
  unfold MovementSystemOld.findPath. rewrite Hne.
  destruct (negb _); [reflexivity|].
  generalize MovementSystemOld.maxIterations. intros [|fuel]; [reflexivity|].
  cbn [MovementSystemOld.search MovementSystemOld.openSet
       MovementSystemOld.pickLowest MovementSystemOld.fScore
       MovementSystemOld.cameFrom MovementSystemOld.gScore
       MovementSystemOld.closedSet].
  rewrite Hne, visits_stuck by apply lookup_singleton_eq.
  destruct fuel; reflexivity.
Qed.

Lemma old_canMove_never_valid character to g :
  Check.valid (fst (MovementSystemOld.canMove character to g)) = false.
Proof.
  unfold MovementSystemOld.canMove.
  destruct (negb (Team_eqb _ _)); [reflexivity|].
  destruct (negb (GridSystem.isValidPosition to)); [reflexivity|].
  destruct (GridSystem.positionsEqual _ to) eqn:Hp; [reflexivity|].
  destruct (existsb _ _); [reflexivity|].
  apply positionsEqual_neq in Hp.
  rewrite (old_findPath_finds_nothing _ _ _ _ Hp). reflexivity.
Qed.

Lemma old_revision_breaks_rule : ~ pathBudgetRule MovementSystemOld.canMove.
Proof.
  intros H.
  destruct fresh_two_steps as (Ht & _ & Hrest).
  destruct (H Scenario.warrior1 (Position.mk 5 1) Scenario.fresh Ht) as [_ Hback].
  pose proof (Hback Hrest) as Hv.
  rewrite old_canMove_never_valid in Hv. discriminate.
Qed.

(** C3, amended. For a character of the team that has the turn, [canMove]
    returns valid exactly when the destination is a valid grid cell,
    differs from the current position, is not occupied by another living
    character, lies at grid distance at most MAX_MOVE_DISTANCE_PER_ACTION
    (one step) from the current position, and the character has at least
    one movement point left.  A destination further away is refused
    however many movement points remain. *)
Theorem canMove_single_step_rule :
  forall (character : Character) (to : Position) (g : GameState),
    Character.team character = GameState.currentTurn g ->
    (Check.valid (fst (MovementSystem.canMove character to g)) = true
     <-> GridSystem.isValidPosition to = true
         /\ Character.position character <> to
         /\ ~ occupiedByOther character g to
         /\ GridSystem.calculateDistance (Character.position character) to
            <= GAME_CONSTANTS.MAX_MOVE_DISTANCE_PER_ACTION
         /\ 1 <= movementLeft character).
Proof.
  intros character to g Ht. unfold MovementSystem.canMove.
  apply Team_eqb_eq in Ht. rewrite Ht. cbn [negb].
  destruct (GridSystem.isValidPosition to) eqn:Hv; cbn [negb fst Check.valid Check.reject];
    [|split; [discriminate|intros [? _]; discriminate]].
  destruct (GridSystem.positionsEqual (Character.position character) to) eqn:Hp;
    cbn [fst Check.valid Check.reject].
  { apply positionsEqual_eq in Hp. split; [discriminate|tauto]. }
  apply positionsEqual_neq in Hp.
  destruct (existsb _ (GameState.characters g)) eqn:Ho;
    cbn [fst Check.valid Check.reject].
  { apply targetOccupied_iff in Ho. split; [discriminate|tauto]. }
  apply targetOccupied_false in Ho.
  destruct (Z.ltb_spec GAME_CONSTANTS.MAX_MOVE_DISTANCE_PER_ACTION
              (GridSystem.calculateDistance (Character.position character) to))
    as [Hd|Hd]; cbn [fst Check.valid Check.reject].
  { split; [discriminate|]. intros (_ & _ & _ & Hle & _). lia. }
  unfold movementLeft.
  destruct (Character.movementPointsLeft character) as [mp|] eqn:Hm; cbn.
  - rewrite Hm. cbn. destruct (Z.leb_spec mp 0); cbn;
      (split; [try discriminate; intros _; repeat split; try assumption; lia|]);
      intros (_ & _ & _ & _ & ?); try reflexivity; lia.
  - split; [intros _; repeat split; assumption || (vm_compute; discriminate)|].
    intros _. reflexivity.
Qed.

Lemma canMove_single_step_rule_witness :
  Character.team Scenario.warrior1 = GameState.currentTurn Scenario.fresh
  /\ Check.valid
       (fst (MovementSystem.canMove Scenario.warrior1 (Position.mk 6 1)
               Scenario.fresh)) = true.
Proof.
  split; [reflexivity|].
  apply (canMove_single_step_rule Scenario.warrior1 (Position.mk 6 1)
           Scenario.fresh eq_refl).
  split; [reflexivity|]. split; [discriminate|].
  split; [|split; [discriminate|discriminate]].
  intros (char & Hin & _ & _ & Hp). vm_compute in Hin.
  repeat (apply elem_of_cons in Hin as [->|Hin]; [discriminate|]).
  inversion Hin.
Defined.

(** * Further properties of the engine *)

(** ** How the characters of a battle change *)

Lemma evolved_same l : evolved l l.
Proof.
  split; [reflexivity|]. intros i c c' H1 H2.
  rewrite H1 in H2. injection H2 as <-. constructor.
Qed.

Lemma evolved_then l1 l2 l3 : evolved l1 l2 -> evolved l2 l3 -> evolved l1 l3.
Proof.
  intros [L12 H12] [L23 H23]. split; [congruence|].
  intros i c1 c3 H1 H3.
  destruct (l2 !! i) as [c2|] eqn:H2.
  - eapply ev_then; eauto.
  - apply lookup_ge_None in H2. apply lookup_lt_Some in H1. lia.
Qed.

Lemma evolved_insert l i c c' :
  l !! i = Some c -> evolves c c' -> evolved l (<[i := c']> l).
Proof.
  intros Hi He. split; [symmetry; apply length_insert|].
  intros j x x' Hx Hx'. destruct (decide (i = j)) as [->|Hne].
  - rewrite list_lookup_insert_eq in Hx' by (eapply lookup_lt_Some; eauto).
    congruence.
  - rewrite list_lookup_insert_ne in Hx' by exact Hne.
    rewrite Hx in Hx'. injection Hx' as <-. constructor.
Qed.

Lemma evolved_alter f l i :
  (forall c, l !! i = Some c -> evolves c (f c)) -> evolved l (alter f i l).
Proof.
  intros Hf. split; [symmetry; apply length_alter|].
  intros j x x' Hx Hx'. destruct (decide (i = j)) as [->|Hne].
  - rewrite list_lookup_alter_eq, Hx in Hx'. injection Hx' as <-. auto.
  - rewrite list_lookup_alter_ne in Hx' by exact Hne.
    rewrite Hx in Hx'. injection Hx' as <-. constructor.
Qed.

Lemma evolved_fmap f l : (forall c, evolves c (f c)) -> evolved l (f <$> l).
Proof.
  intros Hf. split; [symmetry; apply length_fmap|].
  intros j x x' Hx Hx'. rewrite list_lookup_fmap, Hx in Hx'.
  injection Hx' as <-. auto.
Qed.

Lemma evolves_all (P : Character -> Prop) l l' :
  (forall c c', evolves c c' -> P c -> P c') ->
  evolved l l' -> Forall P l -> Forall P l'.
Proof.
  intros HP [Hlen He] Hl. rewrite Forall_lookup in Hl |- *.
  intros i c' Hc'. destruct (l !! i) as [c|] eqn:Hc.
  - eapply HP; eauto.
  - apply lookup_ge_None in Hc. apply lookup_lt_Some in Hc'. lia.
Qed.

(** What [canMove] leaves of the character, and what an accepted move
    guarantees. *)
Lemma canMove_character c to g :
  evolves c (snd (MovementSystem.canMove c to g)).
Proof.
  unfold MovementSystem.canMove.
  repeat (case_match; cbn [snd]; try constructor); assumption.
Qed.

Lemma canMove_keeps_set_counter c to g m :
  Character.movementPointsLeft c = Some m ->
  snd (MovementSystem.canMove c to g) = c.
Proof.
  intros Hm. unfold MovementSystem.canMove. rewrite Hm.
  repeat (case_match; cbn [snd]; try reflexivity).
Qed.

Lemma canMove_accepts c to g :
  Check.valid (fst (MovementSystem.canMove c to g)) = true ->
  Character.team c = GameState.currentTurn g
  /\ GridSystem.isValidPosition to = true
  /\ Character.position c <> to
  /\ ~ occupiedByOther c g to
  /\ GridSystem.calculateDistance (Character.position c) to
     <= GAME_CONSTANTS.MAX_MOVE_DISTANCE_PER_ACTION
  /\ exists m, Character.movementPointsLeft (snd (MovementSystem.canMove c to g))
               = Some m /\ 1 <= m.
Proof.
  unfold MovementSystem.canMove.
  destruct (Team_eqb _ _) eqn:Ht; cbn [negb]; [|discriminate].
  destruct (GridSystem.isValidPosition to) eqn:Hv; cbn [negb]; [|discriminate].
  destruct (GridSystem.positionsEqual _ to) eqn:Hp; [discriminate|].
  destruct (existsb _ _) eqn:Ho; [discriminate|].
  destruct (Z.ltb_spec GAME_CONSTANTS.MAX_MOVE_DISTANCE_PER_ACTION
              (GridSystem.calculateDistance (Character.position c) to));
    [discriminate|].
  apply Team_eqb_eq in Ht. apply positionsEqual_neq in Hp.
  apply targetOccupied_false in Ho.
  destruct (Character.movementPointsLeft c) as [m|] eqn:Hm; cbn.
  - rewrite Hm. cbn. destruct (Z.leb_spec m 0); [discriminate|]. intros _.
    repeat split; try assumption. exists m. split; [assumption|lia].
  - intros _. repeat split; try assumption.
    eexists. split; [reflexivity|]. vm_compute. discriminate.
Qed.

Lemma calculateDamage_positive a t : 1 <= CombatSystem.calculateDamage a t.
Proof. rewrite calculateDamage_formula. lia. Qed.

Lemma executeAttack_evolved ai ti g :
  evolved (GameState.characters g)
          (GameState.characters (snd (CombatSystem.executeAttack ai ti g))).
Proof.
  unfold CombatSystem.executeAttack.
  destruct (GameState.characters g !! ai) as [a|]; [|apply evolved_same].
  destruct (GameState.characters g !! ti) as [t|]; [|apply evolved_same].
  cbn [snd GameState.characters GameState.set_characters].
  eapply evolved_then.
  - apply evolved_alter. intros c _. apply ev_wound, calculateDamage_positive.
  - apply evolved_alter. intros c _. apply ev_attacked.
Qed.

Lemma endTurn_characters g now :
  GameState.characters (TurnManager.endTurn g now)
  = TurnManager.resetForTurn (otherTeam (GameState.currentTurn g))
      <$> GameState.characters g.
Proof.
  unfold TurnManager.endTurn. cbn. destruct (GameState.currentTurn g); reflexivity.
Qed.

Lemma handleEndTurn_characters g now :
  GameState.characters (snd (BattleManager.handleEndTurn g now))
  = TurnManager.resetForTurn (otherTeam (GameState.currentTurn g))
      <$> GameState.characters g.
Proof. exact (endTurn_characters g now). Qed.

Lemma handleEndTurn_evolved g now :
  evolved (GameState.characters g)
          (GameState.characters (snd (BattleManager.handleEndTurn g now))).
Proof.
  rewrite handleEndTurn_characters. apply evolved_fmap. intros c. apply ev_reset.
Qed.

(** The handlers, with the auto-chained END_TURN written out: it always
    succeeds and always carries the record. *)
Lemma handleMove_unfold characterId to g now :
  BattleManager.handleMove characterId to g now
  = match BattleManager.find characterId (GameState.characters g) with
    | None => (ActionResult.fail "Character not found", g)
    | Some (ci, c) =>
        let chk := fst (MovementSystem.canMove c to g) in
        let c1 := snd (MovementSystem.canMove c to g) in
        let g1 := GameState.set_characters (<[ci := c1]> (GameState.characters g)) g in
        if negb (Check.valid chk)
        then (ActionResult.mk false (Check.error chk) None None None, g1)
        else
          let g2 := GameState.set_updatedAt now (MovementSystem.executeMove ci to g1) in
          if GameState.autoEndTurn g2
          then (ActionResult.ok (snd (BattleManager.handleEndTurn g2 now)),
                snd (BattleManager.handleEndTurn g2 now))
          else (ActionResult.ok g2, g2)
    end.
Proof.
  unfold BattleManager.handleMove.
  destruct (BattleManager.find _ _) as [[ci c]|]; [|reflexivity].
  destruct (MovementSystem.canMove c to g) as [chk c1]. cbn [fst snd].
  destruct (negb (Check.valid chk)); [reflexivity|].
  destruct (GameState.autoEndTurn _); reflexivity.
Qed.

Lemma handleAttack_unfold los attackerId targetId g now :
  BattleManager.handleAttack los attackerId targetId g now
  = match BattleManager.find attackerId (GameState.characters g),
          BattleManager.find targetId (GameState.characters g) with
    | Some (ai, a), Some (ti, t) =>
        let chk := CombatSystem.canAttack los a t g in
        if negb (Check.valid chk)
        then (ActionResult.mk false (Check.error chk) None None None, g)
        else
          let out := fst (CombatSystem.executeAttack ai ti g) in
          let g2 := GameState.set_updatedAt now
                      (snd (CombatSystem.executeAttack ai ti g)) in
          let over := CombatSystem.checkBattleEnd g2 in
          let g3 :=
            if CombatSystem.ended over
            then GameState.set_winner
                   (Some (match CombatSystem.endWinner over with
                          | Some w => if String.eqb w (GameState.player1Id g2)
                                      then PLAYER1 else PLAYER2
                          | None => PLAYER2
                          end))
                   (GameState.set_status finished g2)
            else g2 in
          let g4 :=
            if GameState.autoEndTurn g3 && negb (CombatSystem.ended over)
            then snd (BattleManager.handleEndTurn g3 now) else g3 in
          (ActionResult.mk true None (Some g4) (Some (CombatSystem.damage out))
             (if CombatSystem.killed out then Some (Character.id t) else None),
           g4)
    | _, _ => (ActionResult.fail "Character not found", g)
    end.
Proof.
  unfold BattleManager.handleAttack.
  destruct (BattleManager.find attackerId _) as [[ai a]|]; [|reflexivity].
  destruct (BattleManager.find targetId _) as [[ti t]|]; [|reflexivity].
  destruct (negb (Check.valid _)); [reflexivity|].
  destruct (CombatSystem.executeAttack ai ti g) as [out g1]. cbn [fst snd].
  destruct (CombatSystem.ended _); cbn [negb]; rewrite ?andb_false_r, ?andb_true_r;
    [reflexivity|].
  destruct (GameState.autoEndTurn _); reflexivity.
Qed.

Lemma executeMove_characters ci to g :
  GameState.characters (MovementSystem.executeMove ci to g)
  = alter (MovementSystem.relocate to) ci (GameState.characters g).
Proof.
  unfold MovementSystem.executeMove. case (_ || _); reflexivity.
Qed.

Lemma handleMove_evolved characterId to g now :
  evolved (GameState.characters g)
          (GameState.characters (snd (BattleManager.handleMove characterId to g now))).
Proof.
  rewrite handleMove_unfold.
  destruct (BattleManager.find _ _) as [[ci c]|] eqn:Hf; [|apply evolved_same].
  apply find_lookup in Hf as [Hl _]. cbv zeta.
  pose proof (canMove_character c to g) as Hev.
  pose proof (canMove_accepts c to g) as Hacc.
  set (c1 := snd (MovementSystem.canMove c to g)) in *.
  set (g1 := GameState.set_characters _ g).
  assert (E1 : evolved (GameState.characters g) (GameState.characters g1))
    by (apply (evolved_insert _ _ c); assumption).
  destruct (Check.valid _); cbn [negb snd]; [|exact E1].
  destruct (Hacc eq_refl) as (_ & Hv & _ & _ & _ & m & Hm & Hge).
  set (g2 := GameState.set_updatedAt now _).
  assert (E2 : evolved (GameState.characters g) (GameState.characters g2)).
  { eapply evolved_then; [exact E1|]. subst g2.
    change (GameState.characters (GameState.set_updatedAt now ?x))
      with (GameState.characters x).
    rewrite executeMove_characters. apply evolved_alter. intros c0 Hc0.
    subst g1. cbn in Hc0.
    rewrite list_lookup_insert_eq in Hc0 by (eapply lookup_lt_Some; eauto).
    injection Hc0 as <-. eapply ev_step; eauto. }
  destruct (GameState.autoEndTurn g2); cbn [snd]; [|exact E2].
  eapply evolved_then; [exact E2|apply handleEndTurn_evolved].
Qed.

Lemma handleAttack_evolved los attackerId targetId g now :
  evolved (GameState.characters g)
          (GameState.characters
             (snd (BattleManager.handleAttack los attackerId targetId g now))).
Proof.
  rewrite handleAttack_unfold.
  destruct (BattleManager.find attackerId _) as [[ai a]|]; [|apply evolved_same].
  destruct (BattleManager.find targetId _) as [[ti t]|]; [|apply evolved_same].
  cbv zeta.
  destruct (negb (Check.valid (CombatSystem.canAttack los a t g)));
    [apply evolved_same|]. cbn [snd].
  set (g2 := GameState.set_updatedAt now _).
  assert (E2 : evolved (GameState.characters g) (GameState.characters g2))
    by apply executeAttack_evolved.
  set (g3 := if CombatSystem.ended _ then _ else g2).
  assert (E3 : evolved (GameState.characters g) (GameState.characters g3))
    by (subst g3; destruct (CombatSystem.ended _); exact E2).
  destruct (_ && _); [|exact E3].
  eapply evolved_then; [exact E3|apply handleEndTurn_evolved].
Qed.

Lemma processAction_evolved los action playerId g now :
  evolved (GameState.characters g)
          (GameState.characters
             (snd (BattleManager.processAction los action playerId g now))).
Proof.
  unfold BattleManager.processAction.
  destruct (negb _); [apply evolved_same|].
  destruct action; cbn [snd].
  - apply handleMove_evolved.
  - apply handleAttack_evolved.
  - apply handleEndTurn_evolved.
  - apply evolved_same.
  - apply evolved_same.
Qed.

Lemma play_evolved los requests :
  forall g, evolved (GameState.characters g)
                    (GameState.characters (Scenario.play los g requests)).
Proof.
  induction requests as [|r rs IH]; intros g; [apply evolved_same|].
  cbn. eapply evolved_then; [|apply IH]. apply processAction_evolved.
Qed.

(** ** The roster never changes *)

Lemma evolves_roster c c' : evolves c c' -> roster c' = roster c.
Proof.
  induction 1 as [c|c Hm|c to m Hm Hge Hv|c d Hd|c|c t|c1 c2 c3 _ IH1 _ IH2].
  - reflexivity.
  - reflexivity.
  - unfold MovementSystem.relocate. cbn. rewrite Hm. reflexivity.
  - unfold CombatSystem.wound. cbn. case (_ =? _); reflexivity.
  - reflexivity.
  - unfold TurnManager.resetForTurn. case (_ && _); reflexivity.
  - congruence.
Qed.

Lemma evolved_roster l l' : evolved l l' -> roster <$> l' = roster <$> l.
Proof.
  intros [Hlen He]. apply list_eq. intros i. rewrite !list_lookup_fmap.
  destruct (l !! i) as [c|] eqn:Hc, (l' !! i) as [c'|] eqn:Hc'; cbn.
  - f_equal. apply evolves_roster. eauto.
  - apply lookup_ge_None in Hc'. apply lookup_lt_Some in Hc. lia.
  - apply lookup_ge_None in Hc. apply lookup_lt_Some in Hc'. lia.
  - reflexivity.
Qed.

(** X1. Whatever actions are submitted, in whatever order and by whomever,
    the battle keeps the same characters at the same places of the list,
    each with the id, name, level, experience, maxHp, baseDamage, baseArmor,
    combat type, equipment, unlocked slots, team and hasMoved flag it had:
    no character is added, removed, reordered, re-teamed or re-equipped. *)
Theorem roster_is_fixed :
  forall (los : GridSystem.LineOfSight) (g : GameState)
         (requests : list Scenario.Request),
    roster <$> GameState.characters (Scenario.play los g requests)
    = roster <$> GameState.characters g.
Proof. intros los g requests. apply evolved_roster, play_evolved. Qed.

(** ** Health *)

Lemma wound_healthy d c :
  1 <= d -> healthy c ->
  healthy (CombatSystem.wound d c)
  /\ Character.currentHp (CombatSystem.wound d c) <= Character.currentHp c
  /\ (Character.isAlive c = false -> Character.isAlive (CombatSystem.wound d c) = false).
Proof.
  intros Hd [Hb Ha]. unfold healthy.
  rewrite wound_currentHp, wound_isAlive.
  assert (Character.maxHp (CombatSystem.wound d c) = Character.maxHp c) as ->
    by (unfold CombatSystem.wound; cbn; case (_ =? _); reflexivity).
  destruct (Z.eqb_spec (Z.max 0 (Character.currentHp c - d)) 0) as [E|E].
  - repeat split; try lia; try discriminate.
  - repeat split; try lia; intros H0;
      first [exact H0 | apply Ha; lia | apply Ha in H0; lia].
Qed.

Lemma evolves_healthy c c' :
  evolves c c' -> healthy c ->
  healthy c'
  /\ Character.currentHp c' <= Character.currentHp c
  /\ (Character.isAlive c = false -> Character.isAlive c' = false).
Proof.
  induction 1 as [c|c Hm|c to m Hm Hge Hv|c d Hd|c|c t|c1 c2 c3 _ IH1 _ IH2];
    intros Hh.
  - repeat split; try apply Hh; auto; lia.
  - repeat split; try apply Hh; auto; cbn; lia.
  - unfold MovementSystem.relocate. cbn. rewrite Hm. cbn.
    repeat split; try apply Hh; auto; lia.
  - apply wound_healthy; assumption.
  - repeat split; try apply Hh; auto; cbn; lia.
  - unfold TurnManager.resetForTurn. case (_ && _); cbn;
      repeat split; try apply Hh; auto; lia.
  - destruct (IH1 Hh) as (H2 & Hle1 & Hd1). destruct (IH2 H2) as (H3 & Hle2 & Hd2).
    repeat split; try apply H3; auto; lia.
Qed.

(** X2. In a battle whose characters all have [0 <= currentHp <= maxHp]
    and are alive exactly when [currentHp > 0], no sequence of submitted
    actions ever raises a character's [currentHp] or brings a dead
    character back to life. *)
Theorem no_healing_no_revival :
  forall (los : GridSystem.LineOfSight) (g : GameState)
         (requests : list Scenario.Request),
    Forall healthy (GameState.characters g) ->
    forall (i : nat) (c c' : Character),
      GameState.characters g !! i = Some c ->
      GameState.characters (Scenario.play los g requests) !! i = Some c' ->
      Character.currentHp c' <= Character.currentHp c
      /\ (Character.isAlive c = false -> Character.isAlive c' = false).
Proof.
  intros los g requests Hh i c c' Hc Hc'.
  destruct (play_evolved los requests g) as [_ He].
  rewrite Forall_lookup in Hh.
  destruct (evolves_healthy c c' (He _ _ _ Hc Hc') (Hh _ _ Hc)) as (_ & ? & ?).
  split; assumption.
Qed.

Lemma no_healing_no_revival_witness :
  Forall healthy (GameState.characters Scenario.fresh)
  /\ exists c' : Character,
       GameState.characters
         (Scenario.play Scenario.clearSight Scenario.fresh
            (Scenario.approach ++ Scenario.duel)) !! 0%nat = Some c'
       /\ Character.currentHp c' <= Character.currentHp Scenario.warrior1.
Proof.
  assert (Hh : Forall healthy (GameState.characters Scenario.fresh))
    by (repeat constructor; cbn; try lia; intros; try lia; reflexivity).
  split; [exact Hh|].
  assert (Hc' : { c' : Character
                | GameState.characters
                    (Scenario.play Scenario.clearSight Scenario.fresh
                       (Scenario.approach ++ Scenario.duel)) !! 0%nat = Some c' }).
  { eexists. vm_compute. reflexivity. }
  destruct Hc' as [c' Hc']. exists c'. split; [exact Hc'|].
  destruct (no_healing_no_revival Scenario.clearSight Scenario.fresh
              (Scenario.approach ++ Scenario.duel) Hh 0%nat Scenario.warrior1 c'
              eq_refl Hc') as [Hle _].
  exact Hle.
Defined.

(** ** Well-formed battle records *)

Lemma evolves_budgeted c c' : evolves c c' -> budgeted c -> budgeted c'.
Proof.
  induction 1 as [c|c Hm|c to m Hm Hge Hv|c d Hd|c|c t|c1 c2 c3 _ IH1 _ IH2];
    intros Hb; auto.
  - eexists. split; [reflexivity|]. vm_compute. split; discriminate.
  - destruct Hb as (m' & Hm' & Hle). assert (m' = m) as -> by congruence.
    unfold MovementSystem.relocate. cbn. rewrite Hm. cbn. rewrite Hm. cbn.
    eexists. split; [reflexivity|].
    unfold GAME_CONSTANTS.MOVEMENT_POINTS_PER_TURN in *. lia.
  - destruct Hb as (m & Hm & Hle). exists m. split; [|exact Hle].
    unfold CombatSystem.wound. cbn. case (_ =? _); exact Hm.
  - unfold TurnManager.resetForTurn. case (_ && _); [|exact Hb].
    eexists. split; [reflexivity|]. vm_compute. split; discriminate.
Qed.

Lemma evolves_onGrid c c' : evolves c c' -> onGrid c -> onGrid c'.
Proof.
  unfold onGrid.
  induction 1 as [c|c Hm|c to m Hm Hge Hv|c d Hd|c|c t|c1 c2 c3 _ IH1 _ IH2];
    intros Hg; auto.
  - unfold MovementSystem.relocate. cbn. rewrite Hm. exact Hv.
  - unfold CombatSystem.wound. cbn. case (_ =? _); exact Hg.
  - unfold TurnManager.resetForTurn. case (_ && _); exact Hg.
Qed.

Lemma executeMove_pool ci to g :
  GameState.movementPointsLeft (MovementSystem.executeMove ci to g)
  = GameState.movementPointsLeft g - 1.
Proof. unfold MovementSystem.executeMove. case (_ || _); reflexivity. Qed.

Lemma executeMove_flag_unset ci to g :
  GameState.autoEndTurn (MovementSystem.executeMove ci to g) = false ->
  1 <= GameState.movementPointsLeft g - 1.
Proof.
  intros H. destruct (Z.le_gt_cases (GameState.movementPointsLeft g) 1) as [Hle|Hgt];
    [|lia].
  rewrite (executeMove_sets_flag ci to g Hle) in H. discriminate.
Qed.

Lemma handleEndTurn_pool g now :
  GameState.movementPointsLeft (snd (BattleManager.handleEndTurn g now))
  = GAME_CONSTANTS.MOVEMENT_POINTS_PER_TURN.
Proof.
  unfold BattleManager.handleEndTurn, TurnManager.endTurn. cbn.
  destruct (GameState.currentTurn g); reflexivity.
Qed.

Lemma budget_in_range :
  1 <= GAME_CONSTANTS.MOVEMENT_POINTS_PER_TURN
  <= GAME_CONSTANTS.MOVEMENT_POINTS_PER_TURN.
Proof. vm_compute. split; discriminate. Qed.

Lemma processAction_pool los action playerId g now :
  poolInRange g ->
  poolInRange (snd (BattleManager.processAction los action playerId g now)).
Proof.
  unfold poolInRange. intros Hp. unfold BattleManager.processAction.
  destruct (negb _); [exact Hp|].
  destruct action; cbn [snd]; try exact Hp.
  - rewrite handleMove_unfold.
    destruct (BattleManager.find _ _) as [[ci c]|]; [|exact Hp]. cbv zeta.
    destruct (negb (Check.valid _)); [exact Hp|].
    set (g1 := GameState.set_characters _ g).
    destruct (GameState.autoEndTurn _) eqn:Hflag; cbn [snd].
    + rewrite handleEndTurn_pool. apply budget_in_range.
    + change (GameState.autoEndTurn (MovementSystem.executeMove ci to g1) = false)
        in Hflag.
      apply executeMove_flag_unset in Hflag.
      change (GameState.movementPointsLeft (GameState.set_updatedAt now ?x))
        with (GameState.movementPointsLeft x).
      rewrite executeMove_pool. subst g1. cbn in *. lia.
  - rewrite handleAttack_unfold.
    destruct (BattleManager.find attackerId _) as [[ai a]|]; [|exact Hp].
    destruct (BattleManager.find targetId _) as [[ti t]|]; [|exact Hp].
    cbv zeta.
    destruct (negb (Check.valid (CombatSystem.canAttack los a t g))); [exact Hp|].
    cbn [snd].
    destruct (_ && _); [rewrite handleEndTurn_pool; apply budget_in_range|].
    assert (Hx : GameState.movementPointsLeft
                   (snd (CombatSystem.executeAttack ai ti g))
                 = GameState.movementPointsLeft g).
    { unfold CombatSystem.executeAttack.
      destruct (GameState.characters g !! ai), (GameState.characters g !! ti);
        reflexivity. }
    destruct (CombatSystem.ended _); cbn; rewrite Hx; exact Hp.
  - rewrite handleEndTurn_pool. apply budget_in_range.
Qed.

Lemma processAction_wellFormed los action playerId g now :
  WellFormed g ->
  WellFormed (snd (BattleManager.processAction los action playerId g now)).
Proof.
  intros [Hh Hb Hg Hp].
  pose proof (processAction_evolved los action playerId g now) as He.
  split.
  - eapply evolves_all; [|exact He|exact Hh].
    intros c c' Hcc Hc. apply (evolves_healthy c c' Hcc Hc).
  - eapply evolves_all; [|exact He|exact Hb]. apply evolves_budgeted.
  - eapply evolves_all; [|exact He|exact Hg]. apply evolves_onGrid.
  - apply processAction_pool, Hp.
Qed.

Lemma createBattle_wellFormed uuid now player1Id player2Id :
  WellFormed (BattleManager.createBattle uuid now player1Id player2Id).
Proof.
  split; cbn.
  - repeat constructor; cbn; try lia; intros; try lia; reflexivity.
  - repeat constructor; eexists; (split; [reflexivity|]); vm_compute;
      split; discriminate.
  - repeat constructor.
  - apply budget_in_range.
Qed.

(** X3. A battle record that is well formed (every character with
    [0 <= currentHp <= maxHp], alive exactly when [currentHp > 0], a set
    movement counter between 0 and the budget, and a position on the grid;
    the team pool between 1 and the budget) is still well formed after any
    sequence of submitted actions, accepted or refused.  In particular no
    movement counter ever goes negative. *)
Theorem wellFormed_is_kept :
  forall (los : GridSystem.LineOfSight) (requests : list Scenario.Request)
         (g : GameState),
    WellFormed g -> WellFormed (Scenario.play los g requests).
Proof.
  intros los requests. induction requests as [|r rs IH]; intros g Hw; [exact Hw|].
  cbn. apply IH. apply processAction_wellFormed, Hw.
Qed.

Lemma wellFormed_is_kept_witness :
  WellFormed Scenario.fresh
  /\ WellFormed (Scenario.play Scenario.clearSight Scenario.fresh
                   (Scenario.approach ++ Scenario.duel)).
Proof.
  split; [apply createBattle_wellFormed|].
  apply (wellFormed_is_kept Scenario.clearSight
           (Scenario.approach ++ Scenario.duel) Scenario.fresh).
  apply createBattle_wellFormed.
Defined.

(** ** A created battle *)

Lemma six_places {A} (l : list A) (P : nat -> A -> Prop) a0 a1 a2 a3 a4 a5 :
  l = [a0; a1; a2; a3; a4; a5] ->
  P 0%nat a0 -> P 1%nat a1 -> P 2%nat a2 -> P 3%nat a3 -> P 4%nat a4 -> P 5%nat a5 ->
  forall i x, l !! i = Some x -> P i x.
Proof.
  intros -> H0 H1 H2 H3 H4 H5 i x Hi.
  do 6 (destruct i as [|i]; [injection Hi as <-; assumption|]).
  discriminate.
Qed.

Lemma createBattle_apart uuid now player1Id player2Id :
  apart (GameState.characters
           (BattleManager.createBattle uuid now player1Id player2Id)).
Proof.
  intros i j ci cj Hi Hj Hne _ _. revert j cj Hj Hne. revert i ci Hi.
  refine (six_places _ _ _ _ _ _ _ _ eq_refl _ _ _ _ _ _);
    refine (six_places _ _ _ _ _ _ _ _ eq_refl _ _ _ _ _ _);
    intros Hne; cbn; congruence.
Qed.

Lemma createBattle_distinctIds uuid now player1Id player2Id :
  (forall i j : nat, (1 <= i <= 6)%nat -> (1 <= j <= 6)%nat -> i <> j ->
                     uuid i <> uuid j) ->
  distinctIds (GameState.characters
                 (BattleManager.createBattle uuid now player1Id player2Id)).
Proof.
  intros Hu i j ci cj Hi Hj Hne. revert j cj Hj Hne. revert i ci Hi.
  refine (six_places _ _ _ _ _ _ _ _ eq_refl _ _ _ _ _ _);
    refine (six_places _ _ _ _ _ _ _ _ eq_refl _ _ _ _ _ _);
    intros Hne; cbn; try congruence; apply Hu; lia.
Qed.

Lemma scenario_uuid_distinct :
  forall i j : nat, (1 <= i <= 6)%nat -> (1 <= j <= 6)%nat -> i <> j ->
                    Scenario.uuid i <> Scenario.uuid j.
Proof.
  intros i j Hi Hj Hne.
  assert (Hi' : (i = 1 \/ i = 2 \/ i = 3 \/ i = 4 \/ i = 5 \/ i = 6)%nat) by lia.
  assert (Hj' : (j = 1 \/ j = 2 \/ j = 3 \/ j = 4 \/ j = 5 \/ j = 6)%nat) by lia.
  destruct Hi' as [->|[->|[->|[->|[->| ->]]]]];
    destruct Hj' as [->|[->|[->|[->|[->| ->]]]]];
    try congruence; cbn; discriminate.
Qed.

(** X4. [createBattle] gives, for any two player ids and any supply of
    identifiers, an active battle on turn 1 of PLAYER1 with three living
    characters per team, none standing on another's cell, that is well
    formed, not ended, and in which the team on turn has actions left; the
    character ids are pairwise distinct when the six identifiers drawn for
    them are. *)
Theorem createBattle_starts_well :
  forall (uuid : nat -> string) (now : Z) (player1Id player2Id : string),
    let g := BattleManager.createBattle uuid now player1Id player2Id in
    WellFormed g
    /\ GameState.status g = active
    /\ GameState.currentTurn g = PLAYER1
    /\ GameState.turnNumber g = 1
    /\ GameState.winner g = None
    /\ GameState.player1Id g = player1Id /\ GameState.player2Id g = player2Id
    /\ livingCount PLAYER1 (GameState.characters g) = 3%nat
    /\ livingCount PLAYER2 (GameState.characters g) = 3%nat
    /\ apart (GameState.characters g)
    /\ CombatSystem.ended (CombatSystem.checkBattleEnd g) = false
    /\ TurnManager.hasActionsLeft g = true
    /\ ((forall i j : nat, (1 <= i <= 6)%nat -> (1 <= j <= 6)%nat -> i <> j ->
                           uuid i <> uuid j) ->
        distinctIds (GameState.characters g)).
Proof.
  intros uuid now player1Id player2Id g. subst g.
  split; [apply createBattle_wellFormed|].
  do 8 (split; [reflexivity|]).
  split; [apply createBattle_apart|].
  split; [reflexivity|]. split; [reflexivity|].
  apply createBattle_distinctIds.
Qed.

(** ** Living characters never share a cell *)


Lemma settled_apart l l' : settled l l' -> apart l -> apart l'.
Proof.
  intros [Hlen Hs] Ha i j ci' cj' Hi Hj Hne Hai Haj.
  destruct (l !! i) as [ci|] eqn:Hci;
    [|apply lookup_ge_None in Hci; apply lookup_lt_Some in Hi; lia].
  destruct (l !! j) as [cj|] eqn:Hcj;
    [|apply lookup_ge_None in Hcj; apply lookup_lt_Some in Hj; lia].
  destruct (Hs _ _ _ Hci Hi) as (-> & _ & Hli).
  destruct (Hs _ _ _ Hcj Hj) as (-> & _ & Hlj).
  eapply Ha; eauto.
Qed.

Lemma settled_then l1 l2 l3 : settled l1 l2 -> settled l2 l3 -> settled l1 l3.
Proof.
  intros [L12 H12] [L23 H23]. split; [congruence|].
  intros i c1 c3 H1 H3.
  destruct (l2 !! i) as [c2|] eqn:H2;
    [|apply lookup_ge_None in H2; apply lookup_lt_Some in H1; lia].
  destruct (H12 _ _ _ H1 H2) as (? & ? & ?).
  destruct (H23 _ _ _ H2 H3) as (? & ? & ?).
  repeat split; try congruence; auto.
Qed.

Lemma settled_same l : settled l l.
Proof.
  split; [reflexivity|]. intros i c c' H1 H2. rewrite H1 in H2.
  injection H2 as <-. auto.
Qed.

Lemma settled_fmap f l :
  (forall c, Character.position (f c) = Character.position c
             /\ Character.id (f c) = Character.id c
             /\ (Character.isAlive (f c) = true -> Character.isAlive c = true)) ->
  settled l (f <$> l).
Proof.
  intros Hf. split; [symmetry; apply length_fmap|].
  intros i c c' Hc Hc'. rewrite list_lookup_fmap, Hc in Hc'.
  injection Hc' as <-. apply Hf.
Qed.

Lemma settled_alter f l k :
  (forall c, Character.position (f c) = Character.position c
             /\ Character.id (f c) = Character.id c
             /\ (Character.isAlive (f c) = true -> Character.isAlive c = true)) ->
  settled l (alter f k l).
Proof.
  intros Hf. split; [symmetry; apply length_alter|].
  intros i c c' Hc Hc'. destruct (decide (k = i)) as [->|Hne].
  - rewrite list_lookup_alter_eq, Hc in Hc'. injection Hc' as <-. apply Hf.
  - rewrite list_lookup_alter_ne, Hc in Hc' by exact Hne.
    injection Hc' as <-. auto.
Qed.

Lemma resetForTurn_settles t c :
  Character.position (TurnManager.resetForTurn t c) = Character.position c
  /\ Character.id (TurnManager.resetForTurn t c) = Character.id c
  /\ (Character.isAlive (TurnManager.resetForTurn t c) = true ->
      Character.isAlive c = true).
Proof. unfold TurnManager.resetForTurn. case (_ && _); cbn; auto. Qed.

Lemma wound_settles d c :
  Character.position (CombatSystem.wound d c) = Character.position c
  /\ Character.id (CombatSystem.wound d c) = Character.id c
  /\ (Character.isAlive (CombatSystem.wound d c) = true ->
      Character.isAlive c = true).
Proof.
  unfold CombatSystem.wound. cbn. case (_ =? _); cbn;
    repeat split; auto; discriminate.
Qed.

Lemma handleEndTurn_settled g now :
  settled (GameState.characters g)
          (GameState.characters (snd (BattleManager.handleEndTurn g now))).
Proof.
  rewrite handleEndTurn_characters. apply settled_fmap, resetForTurn_settles.
Qed.

Lemma executeAttack_settled ai ti g :
  settled (GameState.characters g)
          (GameState.characters (snd (CombatSystem.executeAttack ai ti g))).
Proof.
  unfold CombatSystem.executeAttack.
  destruct (GameState.characters g !! ai) as [a|]; [|apply settled_same].
  destruct (GameState.characters g !! ti) as [t|]; [|apply settled_same].
  cbn [snd GameState.characters GameState.set_characters].
  eapply settled_then.
  - apply settled_alter, wound_settles.
  - apply settled_alter. intros c. cbn. auto.
Qed.

Lemma canMove_settles c to g :
  Character.position (snd (MovementSystem.canMove c to g)) = Character.position c
  /\ Character.id (snd (MovementSystem.canMove c to g)) = Character.id c
  /\ Character.isAlive (snd (MovementSystem.canMove c to g)) = Character.isAlive c.
Proof.
  unfold MovementSystem.canMove.
  repeat (case_match; cbn [snd]; try (repeat split; reflexivity)).
Qed.

(** The move itself: the mover lands on a cell no other living character
    holds. *)
Lemma relocate_apart l ci c to :
  distinctIds l -> apart l ->
  l !! ci = Some c ->
  (forall j cj, l !! j = Some cj -> Character.isAlive cj = true ->
                Character.id cj <> Character.id c -> Character.position cj <> to) ->
  apart (alter (MovementSystem.relocate to) ci l).
Proof.
  intros Hd Ha Hc Hfree i j xi xj Hi Hj Hne Hai Haj.
  assert (Hpos : forall x, Character.position (MovementSystem.relocate to x) = to).
  { intros x. unfold MovementSystem.relocate. cbn. case_match; reflexivity. }
  assert (Hal : forall x, Character.isAlive (MovementSystem.relocate to x)
                          = Character.isAlive x).
  { intros x. unfold MovementSystem.relocate. cbn. case_match; reflexivity. }
  destruct (decide (ci = i)) as [Ei|Hi'], (decide (ci = j)) as [Ej|Hj'].
  - congruence.
  - subst i. rewrite list_lookup_alter_eq, Hc in Hi. injection Hi as <-.
    rewrite list_lookup_alter_ne in Hj by exact Hj'.
    rewrite Hpos. intros E. eapply (Hfree j xj Hj Haj); [|symmetry; exact E].
    apply (Hd j ci xj c Hj Hc). congruence.
  - subst j. rewrite list_lookup_alter_eq, Hc in Hj. injection Hj as <-.
    rewrite list_lookup_alter_ne in Hi by exact Hi'.
    rewrite Hpos. intros E. eapply (Hfree i xi Hi Hai); [|exact E].
    apply (Hd i ci xi c Hi Hc). congruence.
  - rewrite list_lookup_alter_ne in Hi by exact Hi'.
    rewrite list_lookup_alter_ne in Hj by exact Hj'.
    eapply Ha; eauto.
Qed.

Lemma evolved_distinctIds l l' : evolved l l' -> distinctIds l -> distinctIds l'.
Proof.
  intros He Hd i j ci' cj' Hi Hj Hne.
  pose proof (evolved_roster _ _ He) as Hr.
  assert (Hid : forall k c', l' !! k = Some c' ->
                  exists c, l !! k = Some c /\ Character.id c = Character.id c').
  { intros k c' Hk.
    assert (H : (roster <$> l') !! k = Some (roster c'))
      by (rewrite list_lookup_fmap, Hk; reflexivity).
    rewrite Hr, list_lookup_fmap in H.
    destruct (l !! k) as [c|]; [|discriminate]. cbn in H.
    exists c. split; [reflexivity|]. unfold roster in H. congruence. }
  destruct (Hid _ _ Hi) as (ci & Hci & <-).
  destruct (Hid _ _ Hj) as (cj & Hcj & <-).
  eapply Hd; eauto.
Qed.

Lemma handleMove_apart characterId to g now :
  distinctIds (GameState.characters g) -> apart (GameState.characters g) ->
  apart (GameState.characters (snd (BattleManager.handleMove characterId to g now))).
Proof.
  intros Hd Ha. rewrite handleMove_unfold.
  destruct (BattleManager.find _ _) as [[ci c]|] eqn:Hf; [|exact Ha].
  apply find_lookup in Hf as [Hl _]. cbv zeta.
  pose proof (canMove_settles c to g) as (Hpos1 & Hid1 & Hal1).
  pose proof (canMove_character c to g) as Hev.
  pose proof (canMove_accepts c to g) as Hacc.
  set (c1 := snd (MovementSystem.canMove c to g)) in *.
  set (l1 := <[ci := c1]> (GameState.characters g)).
  assert (S1 : settled (GameState.characters g) l1).
  { split; [symmetry; apply length_insert|].
    intros i x x' Hx Hx'. subst l1. destruct (decide (ci = i)) as [->|Hne].
    - rewrite list_lookup_insert_eq in Hx' by (eapply lookup_lt_Some; eauto).
      assert (x = c) as -> by congruence. injection Hx' as <-.
      rewrite Hpos1, Hid1, Hal1. auto.
    - rewrite list_lookup_insert_ne, Hx in Hx' by exact Hne.
      injection Hx' as <-. auto. }
  assert (A1 : apart l1) by (eapply settled_apart; eauto).
  assert (D1 : distinctIds l1).
  { eapply evolved_distinctIds; [|exact Hd]. apply (evolved_insert _ _ c); assumption. }
  destruct (Check.valid _); cbn [negb snd]; [|exact A1].
  destruct (Hacc eq_refl) as (_ & _ & _ & Hfree & _).
  set (g2 := GameState.set_updatedAt now _).
  assert (A2 : apart (GameState.characters g2)).
  { subst g2.
    change (GameState.characters (GameState.set_updatedAt now ?x))
      with (GameState.characters x).
    rewrite executeMove_characters. cbn [GameState.characters GameState.set_characters].
    fold l1. apply (relocate_apart l1 ci c1); try assumption.
    - subst l1. apply list_lookup_insert_eq. eapply lookup_lt_Some; eauto.
    - intros j cj Hj Halive Hidj Hpj. apply Hfree.
      destruct (decide (ci = j)) as [->|Hne].
      + subst l1. rewrite list_lookup_insert_eq in Hj
          by (eapply lookup_lt_Some; eauto). congruence.
      + subst l1. rewrite list_lookup_insert_ne in Hj by exact Hne.
        exists cj. repeat split; try assumption; try congruence.
        eapply list_elem_of_lookup_2; eauto. }
  destruct (GameState.autoEndTurn g2); cbn [snd]; [|exact A2].
  eapply settled_apart; [apply handleEndTurn_settled|exact A2].
Qed.

Lemma handleAttack_settled los attackerId targetId g now :
  settled (GameState.characters g)
          (GameState.characters
             (snd (BattleManager.handleAttack los attackerId targetId g now))).
Proof.
  rewrite handleAttack_unfold.
  destruct (BattleManager.find attackerId _) as [[ai a]|]; [|apply settled_same].
  destruct (BattleManager.find targetId _) as [[ti t]|]; [|apply settled_same].
  cbv zeta.
  destruct (negb (Check.valid (CombatSystem.canAttack los a t g)));
    [apply settled_same|]. cbn [snd].
  set (g2 := GameState.set_updatedAt now _).
  assert (E2 : settled (GameState.characters g) (GameState.characters g2))
    by apply executeAttack_settled.
  set (g3 := if CombatSystem.ended _ then _ else g2).
  assert (E3 : settled (GameState.characters g) (GameState.characters g3))
    by (subst g3; destruct (CombatSystem.ended _); exact E2).
  destruct (_ && _); [|exact E3].
  eapply settled_then; [exact E3|apply handleEndTurn_settled].
Qed.

Lemma processAction_apart los action playerId g now :
  distinctIds (GameState.characters g) -> apart (GameState.characters g) ->
  apart (GameState.characters
           (snd (BattleManager.processAction los action playerId g now))).
Proof.
  intros Hd Ha. unfold BattleManager.processAction.
  destruct (negb _); [exact Ha|].
  destruct action; cbn [snd]; try exact Ha.
  - apply handleMove_apart; assumption.
  - eapply settled_apart; [apply handleAttack_settled|exact Ha].
  - eapply settled_apart; [apply handleEndTurn_settled|exact Ha].
Qed.

(** X5. In a battle whose characters have pairwise distinct ids and whose
    living characters stand on pairwise distinct cells, the living
    characters still stand on pairwise distinct cells after any sequence of
    submitted actions: no accepted move puts a living character on the cell
    of another. *)
Theorem living_never_share_a_cell :
  forall (los : GridSystem.LineOfSight) (requests : list Scenario.Request)
         (g : GameState),
    distinctIds (GameState.characters g) ->
    apart (GameState.characters g) ->
    apart (GameState.characters (Scenario.play los g requests)).
Proof.
  intros los requests. induction requests as [|r rs IH]; intros g Hd Ha; [exact Ha|].
  cbn. apply IH.
  - eapply evolved_distinctIds; [apply processAction_evolved|exact Hd].
  - apply processAction_apart; assumption.
Qed.

Lemma living_never_share_a_cell_witness :
  distinctIds (GameState.characters Scenario.fresh)
  /\ apart (GameState.characters Scenario.fresh)
  /\ apart (GameState.characters
              (Scenario.play Scenario.clearSight Scenario.fresh
                 (Scenario.approach ++ Scenario.duel))).
Proof.
  split; [apply createBattle_distinctIds, scenario_uuid_distinct|].
  split; [apply createBattle_apart|].
  apply (living_never_share_a_cell Scenario.clearSight
           (Scenario.approach ++ Scenario.duel) Scenario.fresh).
  - apply createBattle_distinctIds, scenario_uuid_distinct.
  - apply createBattle_apart.
Defined.

(** ** What a refused action leaves behind *)

Lemma handleEndTurn_success g now :
  ActionResult.success (fst (BattleManager.handleEndTurn g now)) = true.
Proof. reflexivity. Qed.

Lemma canMove_refusal_message c to g :
  Check.valid (fst (MovementSystem.canMove c to g)) = false ->
  is_Some (Check.error (fst (MovementSystem.canMove c to g))).
Proof.
  unfold MovementSystem.canMove.
  repeat (case_match; cbn [fst Check.valid Check.error Check.reject Check.accept];
          try (intros _; eexists; reflexivity)); discriminate.
Qed.

Lemma canAttack_refusal_message los a t g :
  Check.valid (CombatSystem.canAttack los a t g) = false ->
  is_Some (Check.error (CombatSystem.canAttack los a t g)).
Proof.
  unfold CombatSystem.canAttack.
  repeat (case_match; cbn [Check.valid Check.error Check.reject Check.accept];
          try (intros _; eexists; reflexivity)); discriminate.
Qed.

(** X6. When every character's movement counter is set (as it is from
    [createBattle] on), an action that [processAction] refuses
    ([success = false], whatever the reason) leaves the battle record
    exactly as it was, timestamps included; and the refusal carries an
    error message and no state. *)
Theorem refused_action_changes_nothing :
  forall (los : GridSystem.LineOfSight) (action : BattleAction)
         (playerId : string) (g : GameState) (now : Z),
    Forall (fun c => is_Some (Character.movementPointsLeft c))
           (GameState.characters g) ->
    ActionResult.success
      (fst (BattleManager.processAction los action playerId g now)) = false ->
    snd (BattleManager.processAction los action playerId g now) = g
    /\ is_Some (ActionResult.error
                  (fst (BattleManager.processAction los action playerId g now)))
    /\ ActionResult.newState
         (fst (BattleManager.processAction los action playerId g now)) = None.
Proof.
  intros los action playerId g now Hset.
  unfold BattleManager.processAction.
  destruct (negb _); [intros _; cbn; eauto|].
  destruct action.
  - rewrite handleMove_unfold.
    destruct (BattleManager.find _ _) as [[ci c]|] eqn:Hf; [|intros _; cbn; eauto].
    apply find_lookup in Hf as [Hl _]. cbv zeta.
    rewrite Forall_lookup in Hset. destruct (Hset _ _ Hl) as [m Hm].
    rewrite (canMove_keeps_set_counter c to g m Hm).
    rewrite (list_insert_id _ _ _ Hl), set_characters_same.
    pose proof (canMove_refusal_message c to g) as Hmsg.
    destruct (Check.valid (fst (MovementSystem.canMove c to g))); cbn [negb].
    + destruct (GameState.autoEndTurn _); cbn; discriminate.
    + intros _. cbn [fst snd ActionResult.error ActionResult.newState].
      split; [reflexivity|]. split; [apply Hmsg; reflexivity|reflexivity].
  - rewrite handleAttack_unfold.
    destruct (BattleManager.find attackerId _) as [[ai a]|]; [|intros _; cbn; eauto].
    destruct (BattleManager.find targetId _) as [[ti t]|]; [|intros _; cbn; eauto].
    cbv zeta.
    pose proof (canAttack_refusal_message los a t g) as Hmsg.
    destruct (Check.valid (CombatSystem.canAttack los a t g)); cbn [negb];
      [cbn; discriminate|].
    intros _. cbn [fst snd ActionResult.error ActionResult.newState].
    split; [reflexivity|]. split; [apply Hmsg; reflexivity|reflexivity].
  - cbn. discriminate.
  - intros _. cbn. eauto.
  - cbn. discriminate.
Qed.

Lemma refused_action_changes_nothing_witness :
  Forall (fun c => is_Some (Character.movementPointsLeft c))
         (GameState.characters Scenario.fresh)
  /\ snd (BattleManager.processAction Scenario.clearSight
            (MoveAction "w1" (Position.mk 7 1) (Position.mk 5 1)) "alice"
            Scenario.fresh 2000) = Scenario.fresh.
Proof.
  assert (H : Forall (fun c => is_Some (Character.movementPointsLeft c))
                     (GameState.characters Scenario.fresh))
    by (repeat constructor; eexists; reflexivity).
  split; [exact H|].
  apply (refused_action_changes_nothing Scenario.clearSight
           (MoveAction "w1" (Position.mk 7 1) (Position.mk 5 1)) "alice"
           Scenario.fresh 2000 H).
  reflexivity.
Defined.

(** ** Surrender *)

(** X7. SURRENDER is accepted exactly from the player whose team has the
    turn; the battle is then finished, the winner is the team that does not
    have the turn, and nothing else of the record but [updatedAt] changes.
    From anyone else, the opponent included, it is refused with
    'Not your turn' and the record is untouched. *)
Theorem surrender_only_on_own_turn :
  forall (los : GridSystem.LineOfSight) (playerId : string) (g : GameState)
         (now : Z),
    let r := BattleManager.processAction los SurrenderAction playerId g now in
    (TurnManager.canAct playerId g = true ->
     snd r = GameState.set_updatedAt now
               (GameState.set_winner (Some (otherTeam (GameState.currentTurn g)))
                  (GameState.set_status finished g))
     /\ fst r = ActionResult.ok (snd r))
    /\ (TurnManager.canAct playerId g = false ->
        r = (ActionResult.fail "Not your turn", g)).
Proof.
  intros los playerId g now r. subst r.
  unfold BattleManager.processAction, BattleManager.handleSurrender,
    TurnManager.canAct, TurnManager.getPlayerTeam.
  destruct (String.eqb playerId (GameState.player1Id g));
    destruct (String.eqb playerId (GameState.player2Id g));
    destruct (GameState.currentTurn g); cbn;
    split; intros; try discriminate; try reflexivity; split; reflexivity.
Qed.

(** ** A finished battle *)

Lemma executeAttack_frame ai ti g :
  snd (CombatSystem.executeAttack ai ti g)
  = GameState.set_characters
      (GameState.characters (snd (CombatSystem.executeAttack ai ti g))) g.
Proof.
  unfold CombatSystem.executeAttack.
  destruct (GameState.characters g !! ai), (GameState.characters g !! ti);
    cbn [snd]; try (symmetry; apply set_characters_same).
  destruct g; reflexivity.
Qed.

Lemma handleEndTurn_verdict g now :
  GameState.status (snd (BattleManager.handleEndTurn g now)) = GameState.status g
  /\ GameState.winner (snd (BattleManager.handleEndTurn g now)) = GameState.winner g.
Proof.
  unfold BattleManager.handleEndTurn, TurnManager.endTurn. cbn.
  destruct (GameState.currentTurn g); split; reflexivity.
Qed.

Lemma executeMove_verdict ci to g :
  GameState.status (MovementSystem.executeMove ci to g) = GameState.status g
  /\ GameState.winner (MovementSystem.executeMove ci to g) = GameState.winner g.
Proof.
  unfold MovementSystem.executeMove. case (_ || _); split; reflexivity.
Qed.

Lemma moved_verdict ci to l g now :
  let g2 := GameState.set_updatedAt now
              (MovementSystem.executeMove ci to (GameState.set_characters l g)) in
  GameState.status g2 = GameState.status g
  /\ GameState.winner g2 = GameState.winner g.
Proof.
  cbv zeta. unfold MovementSystem.executeMove. case (_ || _); split; reflexivity.
Qed.

(** One action either leaves status and winner alone, or finishes the
    battle and names a winner. *)
Lemma processAction_verdict los action playerId g now :
  let g' := snd (BattleManager.processAction los action playerId g now) in
  (GameState.status g' = GameState.status g
   /\ GameState.winner g' = GameState.winner g)
  \/ (GameState.status g' = finished /\ is_Some (GameState.winner g')).
Proof.
  cbv zeta. unfold BattleManager.processAction.
  destruct (negb _); [left; split; reflexivity|].
  destruct action; cbn [snd].
  - rewrite handleMove_unfold.
    destruct (BattleManager.find _ _) as [[ci c]|]; [|left; split; reflexivity].
    cbv zeta. destruct (negb (Check.valid _)); [left; split; reflexivity|].
    left. destruct (GameState.autoEndTurn _); cbn [snd].
    + match goal with
      | |- context [BattleManager.handleEndTurn ?x now] =>
          destruct (handleEndTurn_verdict x now) as [-> ->]
      end.
      apply moved_verdict.
    + apply moved_verdict.
  - rewrite handleAttack_unfold.
    destruct (BattleManager.find attackerId _) as [[ai a]|];
      [|left; split; reflexivity].
    destruct (BattleManager.find targetId _) as [[ti t]|];
      [|left; split; reflexivity].
    cbv zeta.
    destruct (negb (Check.valid (CombatSystem.canAttack los a t g)));
      [left; split; reflexivity|]. cbn [snd].
    rewrite (executeAttack_frame ai ti g).
    destruct (CombatSystem.ended _) eqn:Hend; cbn [negb];
      rewrite ?andb_false_r, ?andb_true_r.
    + right. split; [reflexivity|]. cbn. eauto.
    + left. destruct (GameState.autoEndTurn _); [|split; reflexivity].
      match goal with
      | |- context [BattleManager.handleEndTurn ?x now] =>
          destruct (handleEndTurn_verdict x now) as [-> ->]
      end.
      split; reflexivity.
  - left. apply handleEndTurn_verdict.
  - left. split; reflexivity.
  - right. split; [reflexivity|]. cbn. eauto.
Qed.

(** X8. A finished battle stays finished under every sequence of submitted
    actions, a winner once named is never unset, and a battle that
    becomes finished carries a winner: the engine finishes a battle only
    together with naming one, and never reopens it. *)
Theorem finished_is_final :
  forall (los : GridSystem.LineOfSight) (requests : list Scenario.Request)
         (g : GameState),
    let g' := Scenario.play los g requests in
    (GameState.status g = finished -> GameState.status g' = finished)
    /\ (is_Some (GameState.winner g) -> is_Some (GameState.winner g'))
    /\ (GameState.status g' = finished ->
        GameState.status g = finished \/ is_Some (GameState.winner g')).
Proof.
  intros los requests. induction requests as [|r rs IH]; intros g; cbv zeta.
  - cbn. auto.
  - cbn [Scenario.play fold_left].
    change (fold_left (Scenario.submit los) rs ?x) with (Scenario.play los x rs).
    destruct (IH (Scenario.submit los g r)) as (H1 & H2 & H3).
    destruct (processAction_verdict los (Scenario.action r) (Scenario.playerId r)
                g (Scenario.now r)) as [[Hs Hw]|[Hs Hw]];
      fold (Scenario.submit los g r) in Hs, Hw.
    + repeat split.
      * intros Hf. apply H1. congruence.
      * intros Hw0. apply H2. congruence.
      * intros Hf. destruct (H3 Hf) as [Hb|Hb]; [left; congruence|right; exact Hb].
    + repeat split.
      * intros _. apply H1, Hs.
      * intros _. apply H2, Hw.
      * intros _. right. apply H2, Hw.
Qed.

(** ** What an accepted attack reports *)

Lemma canAttack_accepts los a t g :
  Check.valid (CombatSystem.canAttack los a t g) = true ->
  Character.hasAttacked a = false
  /\ Character.isAlive t = true
  /\ Character.team a <> Character.team t.
Proof.
  unfold CombatSystem.canAttack.
  destruct (Character.hasAttacked a); [discriminate|].
  destruct (Character.isAlive t); [|discriminate]. cbn [negb].
  destruct (Team_eqb _ _) eqn:Ht; [discriminate|].
  intros _. apply Team_eqb_neq in Ht. auto.
Qed.

Lemma resetForTurn_health t c :
  Character.currentHp (TurnManager.resetForTurn t c) = Character.currentHp c.
Proof. unfold TurnManager.resetForTurn. case (_ && _); reflexivity. Qed.

(** X9. An ATTACK that [processAction] accepts was submitted by the player
    on turn, names two characters of the battle and passed [canAttack];
    its result reports the damage [calculateDamage] gives for them and
    carries the record; in that record the target's [currentHp] is
    max(0, currentHp - damage) and it is alive exactly when that is not 0;
    and [killedCharacterId] is the target's id exactly when its
    [currentHp] reached 0, and absent otherwise. *)
Theorem accepted_attack_report :
  forall (los : GridSystem.LineOfSight) (attackerId targetId playerId : string)
         (g : GameState) (now : Z),
    let r := fst (BattleManager.processAction los
                    (AttackAction attackerId targetId) playerId g now) in
    let g' := snd (BattleManager.processAction los
                     (AttackAction attackerId targetId) playerId g now) in
    ActionResult.success r = true ->
    TurnManager.canAct playerId g = true
    /\ exists (ai ti : nat) (a t : Character),
         BattleManager.find attackerId (GameState.characters g) = Some (ai, a)
         /\ BattleManager.find targetId (GameState.characters g) = Some (ti, t)
         /\ Check.valid (CombatSystem.canAttack los a t g) = true
         /\ ActionResult.damage r = Some (CombatSystem.calculateDamage a t)
         /\ ActionResult.newState r = Some g'
         /\ ActionResult.error r = None
         /\ exists t' : Character,
              GameState.characters g' !! ti = Some t'
              /\ Character.currentHp t'
                 = Z.max 0 (Character.currentHp t - CombatSystem.calculateDamage a t)
              /\ Character.isAlive t' = negb (Character.currentHp t' =? 0)
              /\ ActionResult.killedCharacterId r
                 = if Character.currentHp t' =? 0 then Some (Character.id t)
                   else None.
Proof.
  intros los attackerId targetId playerId g now. cbv zeta.
  unfold BattleManager.processAction.
  destruct (TurnManager.canAct playerId g); cbn [negb]; [|discriminate].
  rewrite handleAttack_unfold.
  destruct (BattleManager.find attackerId _) as [[ai a]|] eqn:Hfa; [|discriminate].
  destruct (BattleManager.find targetId _) as [[ti t]|] eqn:Hft; [|discriminate].
  cbv zeta.
  destruct (Check.valid (CombatSystem.canAttack los a t g)) eqn:Hv; cbn [negb];
    [|discriminate].
  intros _. split; [reflexivity|]. exists ai, ti, a, t.
  split; [reflexivity|]. split; [reflexivity|]. split; [exact Hv|].
  apply find_lookup in Hfa as [Hla _]. apply find_lookup in Hft as [Hlt _].
  destruct (executeAttack_characters g ai ti a t Hla Hlt)
    as (Hres & (t1 & Ht1 & Hhp & Halive) & _ & _).
  destruct (canAttack_accepts los a t g Hv) as (_ & Hta & _).
  rewrite wound_currentHp in Hhp. rewrite wound_isAlive, Hta in Halive.
  cbn [fst snd ActionResult.damage ActionResult.newState ActionResult.error
       ActionResult.killedCharacterId].
  rewrite Hres. cbn [CombatSystem.damage CombatSystem.killed].
  rewrite wound_isAlive, Hta.
  split; [reflexivity|]. split; [reflexivity|]. split; [reflexivity|].
  set (g2 := GameState.set_updatedAt now _).
  set (g3 := if CombatSystem.ended _ then _ else g2).
  assert (H3 : GameState.characters g3 !! ti = Some t1).
  { subst g3 g2. destruct (CombatSystem.ended _); exact Ht1. }
  set (d := CombatSystem.calculateDamage a t) in *.
  destruct (GameState.autoEndTurn g3 && _).
  - rewrite handleEndTurn_characters, list_lookup_fmap, H3. cbn.
    eexists. split; [reflexivity|].
    rewrite resetForTurn_health, resetForTurn_isAlive, Hhp, Halive.
    split; [reflexivity|].
    destruct (Z.max 0 (Character.currentHp t - d) =? 0); split; reflexivity.
  - exists t1. split; [exact H3|]. rewrite Hhp, Halive.
    split; [reflexivity|].
    destruct (Z.max 0 (Character.currentHp t - d) =? 0); split; reflexivity.
Qed.

Lemma accepted_attack_report_witness :
  ActionResult.success
    (fst (BattleManager.processAction Scenario.clearSight
            (AttackAction "w2" "w1") "bob" Scenario.contact 3000)) = true
  /\ TurnManager.canAct "bob" Scenario.contact = true.
Proof.
  assert (H : ActionResult.success
                (fst (BattleManager.processAction Scenario.clearSight
                        (AttackAction "w2" "w1") "bob" Scenario.contact 3000))
              = true) by (vm_compute; reflexivity).
  split; [exact H|].
  destruct (accepted_attack_report Scenario.clearSight "w2" "w1" "bob"
              Scenario.contact 3000 H) as [Hc _].
  exact Hc.
Defined.

(** ** Handing over the turn *)

Lemma canAct_iff p g :
  TurnManager.canAct p g = true
  <-> (p = GameState.player1Id g /\ GameState.currentTurn g = PLAYER1)
      \/ (p <> GameState.player1Id g /\ p = GameState.player2Id g
          /\ GameState.currentTurn g = PLAYER2).
Proof.
  unfold TurnManager.canAct, TurnManager.getPlayerTeam.
  destruct (String.eqb_spec p (GameState.player1Id g)) as [E1|E1];
    [|destruct (String.eqb_spec p (GameState.player2Id g)) as [E2|E2]];
    destruct (GameState.currentTurn g); cbn; split;
    try discriminate; try tauto; intros [[? ?]|[? [? ?]]]; congruence.
Qed.

Lemma canAct_false_iff p g :
  TurnManager.canAct p g = false <-> ~ TurnManager.canAct p g = true.
Proof. destruct (TurnManager.canAct p g); split; congruence. Qed.

Lemma processAction_endTurn los p g now :
  TurnManager.canAct p g = true ->
  BattleManager.processAction los EndTurnAction p g now
  = BattleManager.handleEndTurn g now.
Proof. intros H. unfold BattleManager.processAction. rewrite H. reflexivity. Qed.

Lemma handleEndTurn_players g now :
  GameState.player1Id (snd (BattleManager.handleEndTurn g now)) = GameState.player1Id g
  /\ GameState.player2Id (snd (BattleManager.handleEndTurn g now)) = GameState.player2Id g
  /\ GameState.currentTurn (snd (BattleManager.handleEndTurn g now))
     = otherTeam (GameState.currentTurn g).
Proof.
  unfold BattleManager.handleEndTurn, TurnManager.endTurn. cbn.
  destruct (GameState.currentTurn g); repeat split; reflexivity.
Qed.

(** X10. When the two players have different ids, exactly one of them can
    act at any time, the player of the team on turn; an END_TURN from that
    player is accepted, after it that player can no longer act and the
    other player can, and an END_TURN from the other player right away
    gives the turn back. *)
Theorem turn_is_handed_over :
  forall (los : GridSystem.LineOfSight) (g : GameState) (now : Z),
    GameState.player1Id g <> GameState.player2Id g ->
    let mover := playerIdOf (GameState.currentTurn g) g in
    let waiter := playerIdOf (otherTeam (GameState.currentTurn g)) g in
    let r := BattleManager.processAction los EndTurnAction mover g now in
    TurnManager.canAct mover g = true
    /\ TurnManager.canAct waiter g = false
    /\ (forall p, TurnManager.canAct p g = true -> p = mover)
    /\ ActionResult.success (fst r) = true
    /\ TurnManager.canAct mover (snd r) = false
    /\ TurnManager.canAct waiter (snd r) = true
    /\ GameState.currentTurn
         (snd (BattleManager.processAction los EndTurnAction waiter (snd r) now))
       = GameState.currentTurn g.
Proof.
  intros los g now Hne mover waiter r.
  assert (Hm : TurnManager.canAct mover g = true).
  { apply canAct_iff. subst mover. destruct (GameState.currentTurn g); cbn;
      [left|right]; repeat split; congruence. }
  assert (Hw : TurnManager.canAct waiter g = false).
  { apply canAct_false_iff. rewrite canAct_iff. subst waiter.
    destruct (GameState.currentTurn g); cbn; intros [[? ?]|[? [? ?]]]; congruence. }
  assert (Honly : forall p, TurnManager.canAct p g = true -> p = mover).
  { intros p Hp. apply canAct_iff in Hp. subst mover.
    destruct Hp as [[-> ->]|[_ [-> ->]]]; reflexivity. }
  subst r. rewrite (processAction_endTurn los mover g now Hm).
  destruct (handleEndTurn_players g now) as (H1 & H2 & H3).
  set (g1 := snd (BattleManager.handleEndTurn g now)) in *.
  assert (Hm1 : TurnManager.canAct mover g1 = false).
  { apply canAct_false_iff. rewrite canAct_iff, H1, H2, H3. subst mover.
    destruct (GameState.currentTurn g); cbn; intros [[? ?]|[? [? ?]]]; congruence. }
  assert (Hw1 : TurnManager.canAct waiter g1 = true).
  { apply canAct_iff. rewrite H1, H2, H3. subst waiter.
    destruct (GameState.currentTurn g); cbn; [right|left]; repeat split; congruence. }
  do 3 (split; [assumption|]). split; [reflexivity|].
  split; [exact Hm1|]. split; [exact Hw1|].
  rewrite (processAction_endTurn los waiter g1 now Hw1).
  destruct (handleEndTurn_players g1 now) as (_ & _ & ->). rewrite H3.
  destruct (GameState.currentTurn g); reflexivity.
Qed.

Lemma turn_is_handed_over_witness :
  GameState.player1Id Scenario.fresh <> GameState.player2Id Scenario.fresh
  /\ TurnManager.canAct "bob"
       (snd (BattleManager.processAction Scenario.clearSight EndTurnAction
               "alice" Scenario.fresh 2000)) = true.
Proof.
  assert (H : GameState.player1Id Scenario.fresh <> GameState.player2Id Scenario.fresh)
    by discriminate.
  split; [exact H|].
  destruct (turn_is_handed_over Scenario.clearSight Scenario.fresh 2000 H)
    as (_ & _ & _ & _ & _ & Hw & _).
  exact Hw.
Defined.

(** ** Legality of an attack *)

(** X11. [canAttack] accepts exactly when the attacker has not attacked
    yet, the target is alive and of the other team, and the target is in
    reach: for a melee attacker at grid distance at most
    MELEE_ATTACK_RANGE, line of sight not being consulted; for a ranged
    attacker at grid distance at most RANGED_ATTACK_RANGE with a line of
    sight past the cells of the other living characters.  So no character
    can attack itself, an ally or a dead character. *)
Theorem canAttack_rule :
  forall (los : GridSystem.LineOfSight) (a t : Character) (g : GameState),
    let distance :=
      GridSystem.calculateDistance (Character.position a) (Character.position t) in
    Check.valid (CombatSystem.canAttack los a t g) = true
    <-> Character.hasAttacked a = false
        /\ Character.isAlive t = true
        /\ Character.team a <> Character.team t
        /\ match Character.combatType a with
           | MELEE => distance <= GAME_CONSTANTS.MELEE_ATTACK_RANGE
           | RANGED =>
               distance <= GAME_CONSTANTS.RANGED_ATTACK_RANGE
               /\ los (Character.position a) (Character.position t)
                      (sightObstacles a t g) = true
           end.
Proof.
  intros los a t g distance. subst distance.
  unfold CombatSystem.canAttack. fold (sightObstacles a t g).
  destruct (Character.hasAttacked a); [split; [discriminate|intros [? _]; discriminate]|].
  destruct (Character.isAlive t); cbn [negb];
    [|split; [discriminate|intros (_ & ? & _); discriminate]].
  destruct (Team_eqb _ _) eqn:Ht.
  { apply Team_eqb_eq in Ht. split; [discriminate|intros (_ & _ & ? & _); contradiction]. }
  apply Team_eqb_neq in Ht.
  destruct (Character.combatType a).
  - destruct (Z.ltb_spec GAME_CONSTANTS.MELEE_ATTACK_RANGE
                (GridSystem.calculateDistance (Character.position a)
                   (Character.position t))) as [Hd|Hd]; cbn.
    + split; [discriminate|]. intros (_ & _ & _ & Hle). lia.
    + split; [|reflexivity]. intros _. repeat split; assumption.
  - destruct (Z.ltb_spec GAME_CONSTANTS.RANGED_ATTACK_RANGE
                (GridSystem.calculateDistance (Character.position a)
                   (Character.position t))) as [Hd|Hd]; cbn.
    + split; [discriminate|]. intros (_ & _ & _ & Hle & _). lia.
    + destruct (los _ _ _); cbn.
      * split; [|reflexivity]. intros _. repeat split; assumption.
      * split; [discriminate|]. intros (_ & _ & _ & _ & Hl). discriminate.
Qed.

(** ** The targets on offer *)

Lemma getAvailableTargets_from los a g l acc :
  fold_left
    (fun (targets : list Character) (character : Character) =>
       if Team_eqb (Character.team character) (Character.team a)
          || negb (Character.isAlive character)
       then targets
       else if Check.valid (CombatSystem.canAttack los a character g)
       then (targets ++ [character])%list
       else targets) l acc
  = (acc ++ List.filter (fun t => Check.valid (CombatSystem.canAttack los a t g)) l)%list.
Proof.
  revert acc. induction l as [|c l IH]; intros acc; cbn [fold_left List.filter].
  - symmetry. apply app_nil_r.
  - rewrite IH.
    destruct (Check.valid (CombatSystem.canAttack los a c g)) eqn:Hv.
    + destruct (canAttack_accepts los a c g Hv) as (_ & Hal & Hteam).
      rewrite Hal. cbn [negb]. rewrite orb_false_r.
      assert (Team_eqb (Character.team c) (Character.team a) = false) as ->
        by (apply Team_eqb_neq; congruence).
      rewrite <- app_assoc. reflexivity.
    + destruct (_ || _); reflexivity.
Qed.

(** X12. [getAvailableTargets] lists, in battle order, exactly the
    characters [canAttack] accepts as targets of the attacker; every one
    of them is alive and of the other team, and the list is empty once the
    attacker has attacked. *)
Theorem getAvailableTargets_exact :
  forall (los : GridSystem.LineOfSight) (a : Character) (g : GameState),
    CombatSystem.getAvailableTargets los a g
    = List.filter (fun t => Check.valid (CombatSystem.canAttack los a t g))
                  (GameState.characters g)
    /\ (forall t, t ∈ CombatSystem.getAvailableTargets los a g <->
                  t ∈ GameState.characters g
                  /\ Check.valid (CombatSystem.canAttack los a t g) = true)
    /\ (forall t, t ∈ CombatSystem.getAvailableTargets los a g ->
                  Character.isAlive t = true /\ Character.team t <> Character.team a)
    /\ (Character.hasAttacked a = true ->
        CombatSystem.getAvailableTargets los a g = []).
Proof.
  intros los a g.
  assert (E : CombatSystem.getAvailableTargets los a g
              = List.filter (fun t => Check.valid (CombatSystem.canAttack los a t g))
                            (GameState.characters g)).
  { unfold CombatSystem.getAvailableTargets. rewrite getAvailableTargets_from.
    reflexivity. }
  assert (M : forall t, t ∈ CombatSystem.getAvailableTargets los a g <->
                        t ∈ GameState.characters g
                        /\ Check.valid (CombatSystem.canAttack los a t g) = true).
  { intros t. rewrite E, !list_elem_of_In, filter_In. reflexivity. }
  split; [exact E|]. split; [exact M|]. split.
  - intros t Ht. apply M in Ht as [_ Hv].
    destruct (canAttack_accepts los a t g Hv) as (_ & ? & ?). split; congruence.
  - intros Ha. rewrite E. clear E M.
    induction (GameState.characters g) as [|c l IH]; [reflexivity|].
    cbn [List.filter]. unfold CombatSystem.canAttack at 1. rewrite Ha.
    cbn [Check.valid Check.reject]. exact IH.
Qed.

(** ** What a move costs *)

Lemma relocate_fields to c :
  Character.position (MovementSystem.relocate to c) = to
  /\ Character.movementPointsLeft (MovementSystem.relocate to c)
     = Some (movementLeft c - 1)
  /\ Character.currentHp (MovementSystem.relocate to c) = Character.currentHp c
  /\ Character.isAlive (MovementSystem.relocate to c) = Character.isAlive c
  /\ Character.hasAttacked (MovementSystem.relocate to c) = Character.hasAttacked c
  /\ roster (MovementSystem.relocate to c) = roster c.
Proof.
  unfold MovementSystem.relocate, movementLeft. cbn.
  destruct (Character.movementPointsLeft c) eqn:E; cbn; rewrite ?E; cbn;
    repeat split; reflexivity.
Qed.

Lemma allSpent_forallb t l :
  forallb (fun c => default 0 (Character.movementPointsLeft c) <=? 0)
    (List.filter (fun c => Team_eqb (Character.team c) t && Character.isAlive c) l)
  = true
  <-> allSpent t l.
Proof.
  rewrite forallb_forall. unfold allSpent, livesFor. split.
  - intros H c Hc [Ht Ha]. apply Z.leb_le, H, filter_In.
    split; [apply list_elem_of_In, Hc|].
    apply Team_eqb_eq in Ht. rewrite Ht, Ha. reflexivity.
  - intros H c Hc. apply filter_In in Hc as [Hc Hp].
    apply andb_true_iff in Hp as [Ht Ha]. apply Team_eqb_eq in Ht.
    apply Z.leb_le, H; [apply list_elem_of_In, Hc|split; assumption].
Qed.

(** X13. [executeMove] puts the character on the destination, takes one
    movement point from the character (an unset counter counting as the
    full budget) and one from the team's pool, whatever the distance
    covered; it leaves the character's health, life, attack mark and roster
    fields, every other character and the turn as they were; and it raises
    [autoEndTurn] exactly when the flag was already up, or the pool has
    come down to 0 or less, or every living character of the team on turn
    is out of movement points. *)
Theorem executeMove_accounting :
  forall (ci : nat) (to : Position) (g : GameState) (c : Character),
    GameState.characters g !! ci = Some c ->
    let g' := MovementSystem.executeMove ci to g in
    (exists c' : Character,
       GameState.characters g' !! ci = Some c'
       /\ Character.position c' = to
       /\ Character.movementPointsLeft c' = Some (movementLeft c - 1)
       /\ Character.currentHp c' = Character.currentHp c
       /\ Character.isAlive c' = Character.isAlive c
       /\ Character.hasAttacked c' = Character.hasAttacked c
       /\ roster c' = roster c)
    /\ (forall j, j <> ci ->
                  GameState.characters g' !! j = GameState.characters g !! j)
    /\ GameState.movementPointsLeft g' = GameState.movementPointsLeft g - 1
    /\ GameState.currentTurn g' = GameState.currentTurn g
    /\ GameState.turnNumber g' = GameState.turnNumber g
    /\ GameState.status g' = GameState.status g
    /\ (GameState.autoEndTurn g' = true
        <-> GameState.autoEndTurn g = true
            \/ GameState.movementPointsLeft g <= 1
            \/ allSpent (GameState.currentTurn g) (GameState.characters g')).
Proof.
  intros ci to g c Hc g'. subst g'.
  rewrite executeMove_characters.
  split.
  { exists (MovementSystem.relocate to c).
    rewrite list_lookup_alter_eq, Hc. split; [reflexivity|]. apply relocate_fields. }
  split; [intros j Hj; apply list_lookup_alter_ne; congruence|].
  split; [apply executeMove_pool|].
  unfold MovementSystem.executeMove.
  cbn [GameState.characters GameState.set_characters GameState.currentTurn
       GameState.movementPointsLeft GameState.set_movementPointsLeft].
  set (l' := alter (MovementSystem.relocate to) ci (GameState.characters g)).
  pose proof (allSpent_forallb (GameState.currentTurn g) l') as Hall.
  destruct (forallb _ _) eqn:Hf; cbn [orb].
  - cbn. repeat split; try reflexivity. intros _. right. right. apply Hall. reflexivity.
  - destruct (Z.leb_spec (GameState.movementPointsLeft g - 1) 0) as [Hle|Hgt]; cbn.
    + repeat split; try reflexivity. intros _. right. left. lia.
    + repeat split; try reflexivity.
      * intros H. left. exact H.
      * intros [H|[H|H]]; [exact H|lia|]. apply Hall in H. discriminate.
Qed.

Lemma executeMove_accounting_witness :
  GameState.characters Scenario.fresh !! 0%nat = Some Scenario.warrior1
  /\ GameState.movementPointsLeft
       (MovementSystem.executeMove 0 (Position.mk 6 1) Scenario.fresh) = 1.
Proof.
  split; [reflexivity|].
  destruct (executeMove_accounting 0 (Position.mk 6 1) Scenario.fresh
              Scenario.warrior1 eq_refl) as (_ & _ & Hp & _).
  exact Hp.
Defined.

(** ** The moves on offer *)

Lemma canMove_counter_blind c to g :
  Character.movementPointsLeft c = None ->
  fst (MovementSystem.canMove
         (Character.set_movementPointsLeft
            (Some GAME_CONSTANTS.MOVEMENT_POINTS_PER_TURN) c) to g)
  = fst (MovementSystem.canMove c to g).
Proof.
  intros Hm. unfold MovementSystem.canMove. cbn. rewrite Hm.
  repeat (case_match; cbn [fst]; try reflexivity).
Qed.

Lemma canMove_needs_point c to g :
  Check.valid (fst (MovementSystem.canMove c to g)) = true ->
  1 <= movementLeft c.
Proof.
  intros Hv. destruct (canMove_accepts c to g Hv) as (_ & _ & _ & _ & _ & m & Hm & Hge).
  unfold movementLeft.
  destruct (Character.movementPointsLeft c) as [m0|] eqn:Hc.
  - rewrite (canMove_keeps_set_counter c to g m0 Hc), Hc in Hm.
    injection Hm as ->. exact Hge.
  - vm_compute. discriminate.
Qed.

Lemma sameMover_canMove c c2 to g :
  sameMover c c2 ->
  fst (MovementSystem.canMove c2 to g) = fst (MovementSystem.canMove c to g)
  /\ sameMover c (snd (MovementSystem.canMove c2 to g)).
Proof.
  intros [->|[Hm ->]].
  - split; [reflexivity|].
    destruct (Character.movementPointsLeft c) as [m|] eqn:Hc.
    + left. eapply canMove_keeps_set_counter; eauto.
    + unfold MovementSystem.canMove. rewrite Hc.
      repeat (case_match; cbn [snd]);
        first [left; reflexivity | right; split; [exact Hc|reflexivity]].
  - split; [apply canMove_counter_blind, Hm|].
    right. split; [exact Hm|].
    eapply canMove_keeps_set_counter. reflexivity.
Qed.

Lemma getAvailableMoves_from c g cells :
  forall acc c2,
    sameMover c c2 ->
    fst (fold_left
           (fun (acc : list Position * Character) (cell : Position) =>
              let '(canMove, character) :=
                MovementSystem.canMove (snd acc) cell g in
              if Check.valid canMove then ((fst acc ++ [cell])%list, character)
              else (fst acc, character))
           cells (acc, c2))
    = (acc ++ List.filter
                (fun p => Check.valid (fst (MovementSystem.canMove c p g))) cells)%list.
Proof.
  induction cells as [|p cells IH]; intros acc c2 Hs; cbn [fold_left List.filter].
  - symmetry. apply app_nil_r.
  - cbn [snd fst]. destruct (sameMover_canMove c c2 p g Hs) as [Hf Hs'].
    destruct (MovementSystem.canMove c2 p g) as [chk c3]. cbn [fst snd] in *.
    rewrite <- Hf. destruct (Check.valid chk).
    + rewrite IH by exact Hs'. rewrite <- app_assoc. reflexivity.
    + apply IH, Hs'.
Qed.

Lemma one_step_neighbour a p :
  GridSystem.calculateDistance a p <= 1 -> a <> p ->
  GridSystem.isValidPosition p = true ->
  In p (GridSystem.getAdjacentCells a).
Proof.
  intros Hd Hne Hv. unfold GridSystem.getAdjacentCells. apply filter_In.
  split; [|exact Hv].
  destruct a as [ax ay], p as [px py]. unfold GridSystem.calculateDistance in Hd.
  cbn in *.
  assert (Hcases : (px = ax /\ py = ay - 1) \/ (px = ax /\ py = ay + 1)
                   \/ (px = ax - 1 /\ py = ay) \/ (px = ax + 1 /\ py = ay)).
  { destruct (Z.eq_dec px ax), (Z.eq_dec py ay); subst; try lia.
    exfalso. apply Hne. reflexivity. }
  destruct Hcases as [[-> ->]|[[-> ->]|[[-> ->]|[-> ->]]]]; auto.
Qed.

Lemma neighbour_one_step a p :
  In p (GridSystem.getAdjacentCells a) ->
  GridSystem.calculateDistance a p = 1 /\ GridSystem.isValidPosition p = true.
Proof.
  unfold GridSystem.getAdjacentCells. intros H. apply filter_In in H as [H Hv].
  split; [|exact Hv]. unfold GridSystem.calculateDistance.
  destruct a as [ax ay]. cbn in H.
  destruct H as [<-|[<-|[<-|[<-|[]]]]]; cbn; lia.
Qed.

(** X14. [getAvailableMoves] lists exactly the destinations [canMove]
    accepts for the character: a cell is on the list if and only if a MOVE
    of the character to it passes [canMove]; every listed cell is a valid
    cell one step away; and the list is empty when it is not the team's
    turn or the character is out of movement points. *)
Theorem getAvailableMoves_exact :
  forall (c : Character) (g : GameState),
    let moves := fst (MovementSystem.getAvailableMoves c g) in
    (forall p, p ∈ moves <->
               Check.valid (fst (MovementSystem.canMove c p g)) = true)
    /\ (forall p, p ∈ moves ->
                  GridSystem.calculateDistance (Character.position c) p = 1
                  /\ GridSystem.isValidPosition p = true
                  /\ ~ occupiedByOther c g p)
    /\ (Character.team c <> GameState.currentTurn g -> moves = [])
    /\ (movementLeft c <= 0 -> moves = []).
Proof.
  intros c g moves.
  assert (E : moves
              = List.filter
                  (fun p => Check.valid (fst (MovementSystem.canMove c p g)))
                  (GridSystem.getAdjacentCells (Character.position c))).
  { subst moves. unfold MovementSystem.getAvailableMoves.
    rewrite (getAvailableMoves_from c g _ [] c) by (left; reflexivity).
    reflexivity. }
  assert (M : forall p, p ∈ moves <->
                        Check.valid (fst (MovementSystem.canMove c p g)) = true).
  { intros p. rewrite E, list_elem_of_In, filter_In. split; [tauto|].
    intros Hv. split; [|exact Hv].
    destruct (canMove_accepts c p g Hv) as (_ & Hvalid & Hne & _ & Hd & _).
    apply one_step_neighbour; assumption. }
  split; [exact M|]. split; [|split].
  - intros p Hp. pose proof Hp as Hv. apply M in Hv.
    destruct (canMove_accepts c p g Hv) as (_ & Hvalid & _ & Hfree & _).
    rewrite E, list_elem_of_In, filter_In in Hp. destruct Hp as [Hn _].
    apply neighbour_one_step in Hn as [Hd _]. repeat split; assumption.
  - intros Ht. destruct moves as [|p rest]; [reflexivity|]. exfalso.
    assert (Hv : Check.valid (fst (MovementSystem.canMove c p g)) = true)
      by (apply M; left).
    rewrite (canMove_offturn c p g Ht) in Hv. discriminate.
  - intros Hm. destruct moves as [|p rest]; [reflexivity|]. exfalso.
    assert (Hv : Check.valid (fst (MovementSystem.canMove c p g)) = true)
      by (apply M; left).
    apply canMove_needs_point in Hv. lia.
Qed.

(** ** Actions left in a turn *)

Lemma existsb_living t l (p : Character -> bool) :
  existsb p
    (List.filter (fun c => Team_eqb (Character.team c) t && Character.isAlive c) l)
  = true
  <-> exists c, c ∈ l /\ livesFor t c /\ p c = true.
Proof.
  rewrite existsb_exists. unfold livesFor. split.
  - intros (c & Hc & Hp). apply filter_In in Hc as [Hc Hf].
    apply andb_true_iff in Hf as [Ht Ha]. apply Team_eqb_eq in Ht.
    exists c. rewrite list_elem_of_In. auto.
  - intros (c & Hc & [Ht Ha] & Hp). exists c. split; [|exact Hp].
    apply filter_In. split; [apply list_elem_of_In, Hc|].
    apply Team_eqb_eq in Ht. rewrite Ht, Ha. reflexivity.
Qed.

Lemma hasActionsLeft_iff g :
  TurnManager.hasActionsLeft g = true
  <-> exists c, c ∈ GameState.characters g
                /\ livesFor (GameState.currentTurn g) c
                /\ (0 < default 0 (Character.movementPointsLeft c)
                    \/ Character.hasAttacked c = false).
Proof.
  unfold TurnManager.hasActionsLeft. cbv zeta.
  pose proof (existsb_living (GameState.currentTurn g) (GameState.characters g)
                (fun c => 0 <? default 0 (Character.movementPointsLeft c))) as H1.
  pose proof (existsb_living (GameState.currentTurn g) (GameState.characters g)
                (fun c => negb (Character.hasAttacked c))) as H2.
  cbv beta in H1, H2.
  set (m := existsb (fun c => 0 <? default 0 (Character.movementPointsLeft c)) _) in *.
  set (a := existsb (fun c => negb (Character.hasAttacked c)) _) in *.
  assert (Hm : forall c, livesFor (GameState.currentTurn g) c ->
                 c ∈ GameState.characters g ->
                 0 < default 0 (Character.movementPointsLeft c) -> m = true).
  { intros c Hl Hc Hp. apply H1. exists c. repeat split; try apply Hl; try assumption.
    apply Z.ltb_lt, Hp. }
  assert (Ha : forall c, livesFor (GameState.currentTurn g) c ->
                 c ∈ GameState.characters g ->
                 Character.hasAttacked c = false -> a = true).
  { intros c Hl Hc Hp. apply H2. exists c. repeat split; try apply Hl; try assumption.
    apply negb_true_iff, Hp. }
  split.
  - destruct m.
    + intros _. destruct (proj1 H1 eq_refl) as (c & Hc & Hl & Hp).
      exists c. split; [exact Hc|]. split; [exact Hl|]. left. apply Z.ltb_lt, Hp.
    + destruct a; [|discriminate].
      intros _. destruct (proj1 H2 eq_refl) as (c & Hc & Hl & Hp).
      exists c. split; [exact Hc|]. split; [exact Hl|]. right.
      apply negb_true_iff, Hp.
  - intros (c & Hc & Hl & [Hp|Hp]).
    + rewrite (Hm c Hl Hc Hp). reflexivity.
    + rewrite (Ha c Hl Hc Hp). destruct m; reflexivity.
Qed.

(** X15. [hasActionsLeft] holds exactly when some living character of the
    team on turn still has a movement point (an unset counter counting as
    none) or has not attacked.  Right after [startTurn] it holds exactly
    when the team on turn has a living character, and
    [autoEndTurnIfNeeded] then leaves the record as it is; for a team
    without a living character [autoEndTurnIfNeeded] passes the turn on. *)
Theorem hasActionsLeft_rule :
  forall (g : GameState) (now later : Z),
    (TurnManager.hasActionsLeft g = true
     <-> exists c, c ∈ GameState.characters g
                   /\ livesFor (GameState.currentTurn g) c
                   /\ (0 < default 0 (Character.movementPointsLeft c)
                       \/ Character.hasAttacked c = false))
    /\ (TurnManager.hasActionsLeft (TurnManager.startTurn g now) = true
        <-> hasLiving (GameState.currentTurn g) g)
    /\ (hasLiving (GameState.currentTurn g) g ->
        TurnManager.autoEndTurnIfNeeded (TurnManager.startTurn g now) later
        = TurnManager.startTurn g now)
    /\ (noLiving (GameState.currentTurn g) g ->
        GameState.currentTurn (TurnManager.autoEndTurnIfNeeded g later)
        = otherTeam (GameState.currentTurn g)).
Proof.
  intros g now later.
  assert (Hstart : TurnManager.hasActionsLeft (TurnManager.startTurn g now) = true
                   <-> hasLiving (GameState.currentTurn g) g).
  { rewrite hasActionsLeft_iff, startTurn_currentTurn, startTurn_characters.
    unfold hasLiving. split.
    - intros (c' & Hc' & [Ht Ha] & _).
      apply list_elem_of_fmap in Hc' as (c & -> & Hc).
      rewrite resetForTurn_team in Ht. rewrite resetForTurn_isAlive in Ha.
      exists c. split; [exact Hc|split; assumption].
    - intros (c & Hc & [Ht Ha]).
      exists (TurnManager.resetForTurn (GameState.currentTurn g) c).
      split; [apply list_elem_of_fmap; exists c; split; [reflexivity|exact Hc]|].
      split; [split; [rewrite resetForTurn_team|rewrite resetForTurn_isAlive];
              assumption|].
      right. rewrite (resetForTurn_active _ _ Ht Ha). reflexivity. }
  split; [apply hasActionsLeft_iff|]. split; [exact Hstart|]. split.
  - intros Hl. unfold TurnManager.autoEndTurnIfNeeded.
    rewrite (proj2 Hstart Hl). reflexivity.
  - intros Hn. unfold TurnManager.autoEndTurnIfNeeded.
    destruct (TurnManager.hasActionsLeft g) eqn:Hh; cbn [negb].
    + apply hasActionsLeft_iff in Hh as (c & Hc & Hl & _).
      exfalso. exact (Hn c Hc Hl).
    + apply endTurn_currentTurn.
Qed.

(** ** The superseded path-budgeted revision *)

Lemma old_findPath_same start characters movingId :
  MovementSystemOld.findPath start start characters movingId = Some [start].
Proof.
  unfold MovementSystemOld.findPath.
  rewrite (proj2 (positionsEqual_eq start start) eq_refl). reflexivity.
Qed.

Lemma old_getAvailableMoves_from c0 g cells :
  forall c2,
    fst (fold_left
           (fun (acc : list Position * Character) (cell : Position) =>
              if GridSystem.positionsEqual cell (Character.position c0) then acc
              else
                let '(canMove, character) :=
                  MovementSystemOld.canMove (snd acc) cell g in
                if Check.valid canMove then ((fst acc ++ [cell])%list, character)
                else (fst acc, character))
           cells ([], c2)) = [].
Proof.
  induction cells as [|p cells IH]; intros c2; [reflexivity|].
  cbn [fold_left]. destruct (GridSystem.positionsEqual p _); [apply IH|].
  cbn [snd fst]. pose proof (old_canMove_never_valid c2 p g) as Hv.
  destruct (MovementSystemOld.canMove c2 p g) as [chk c3]. cbn [fst] in Hv.
  rewrite Hv. apply IH.
Qed.

(** X16. In the superseded revision (MovementSystem.old) the path search
    finds a path only from a cell to itself: for any other goal it returns
    null, blocked or not, near or far.  Hence its [canMove] accepts no move
    at all, and its [getAvailableMoves] offers none, whatever cells are in
    range. *)
Theorem old_revision_accepts_no_move :
  forall (start goal : Position) (characters : list Character)
         (movingId : string) (c : Character) (to : Position) (g : GameState)
         (getCellsInRange : Position -> Z -> list Position),
    MovementSystemOld.findPath start goal characters movingId
    = (if GridSystem.positionsEqual start goal then Some [start] else None)
    /\ Check.valid (fst (MovementSystemOld.canMove c to g)) = false
    /\ fst (MovementSystemOld.getAvailableMoves getCellsInRange c g) = [].
Proof.
  intros start goal characters movingId c to g getCellsInRange. split; [|split].
  - destruct (GridSystem.positionsEqual start goal) eqn:Hp.
    + apply positionsEqual_eq in Hp as ->. apply old_findPath_same.
    + apply positionsEqual_neq in Hp. apply old_findPath_finds_nothing, Hp.
  - apply old_canMove_never_valid.
  - unfold MovementSystemOld.getAvailableMoves. apply old_getAvailableMoves_from.
Qed.

Lemma calculateDistance_same a : GridSystem.calculateDistance a a = 0.
Proof. unfold GridSystem.calculateDistance. lia. Qed.

(** X17. In the superseded revision [executeMove] charges the straight
    grid distance between the old and the new cell, never a path length:
    the character's movement points (an unset counter counting as the full
    budget) and the team's pool both go down by that distance, and the
    character stands on the destination. *)
Theorem old_executeMove_charges_distance :
  forall (ci : nat) (to : Position) (g : GameState) (c : Character),
    GameState.characters g !! ci = Some c ->
    let g' := MovementSystemOld.executeMove ci to g in
    let cost := GridSystem.calculateDistance (Character.position c) to in
    (exists c' : Character,
       GameState.characters g' !! ci = Some c'
       /\ Character.position c' = to
       /\ Character.movementPointsLeft c' = Some (movementLeft c - cost))
    /\ GameState.movementPointsLeft g' = GameState.movementPointsLeft g - cost
    /\ (forall j, j <> ci ->
                  GameState.characters g' !! j = GameState.characters g !! j).
Proof.
  intros ci to g c Hc g' cost. subst g' cost.
  unfold MovementSystemOld.executeMove. rewrite Hc.
  assert (Hlen : match MovementSystemOld.findPath (Character.position c) to
                         (GameState.characters g) (Character.id c) with
                 | Some path => Z.of_nat (length path) - 1
                 | None => GridSystem.calculateDistance (Character.position c) to
                 end
                 = GridSystem.calculateDistance (Character.position c) to).
  { destruct (GridSystem.positionsEqual (Character.position c) to) eqn:Hp.
    - apply positionsEqual_eq in Hp. rewrite <- Hp, old_findPath_same.
      rewrite calculateDistance_same. reflexivity.
    - apply positionsEqual_neq in Hp.
      rewrite (old_findPath_finds_nothing _ _ _ _ Hp). reflexivity. }
  rewrite Hlen. cbn [GameState.characters GameState.set_characters
                     GameState.movementPointsLeft GameState.set_movementPointsLeft].
  split; [|split; [reflexivity|]].
  - rewrite list_lookup_alter_eq, Hc. cbn. eexists. split; [reflexivity|].
    unfold MovementSystemOld.relocate, movementLeft. cbn.
    destruct (Character.movementPointsLeft c) eqn:E; cbn; rewrite ?E; cbn;
      split; reflexivity.
  - intros j Hj. apply list_lookup_alter_ne. congruence.
Qed.

Lemma old_executeMove_charges_distance_witness :
  GameState.characters Scenario.fresh !! 0%nat = Some Scenario.warrior1
  /\ GameState.movementPointsLeft
       (MovementSystemOld.executeMove 0 (Position.mk 4 3) Scenario.fresh) = 2 - 5.
Proof.
  split; [reflexivity|].
  destruct (old_executeMove_charges_distance 0 (Position.mk 4 3) Scenario.fresh
              Scenario.warrior1 eq_refl) as (_ & Hp & _).
  exact Hp.
Defined.

(** ** The breadth-first search *)

Lemma trail_snoc characters movingId goal from cells mid p :
  trail characters movingId goal from cells mid ->
  GridSystem.calculateDistance mid p = 1 ->
  GridSystem.isValidPosition p = true ->
  (p = goal \/ ~ blocked characters movingId p) ->
  trail characters movingId goal from (cells ++ [p])%list p.
Proof.
  revert from. induction cells as [|q cells IH]; intros from Ht Hd Hv Hb; cbn in *.
  - subst mid. repeat split; assumption.
  - destruct Ht as (H1 & H2 & H3 & H4). repeat split; try assumption.
    apply IH; assumption.
Qed.

Lemma blocked_existsb characters movingId p :
  existsb (fun char =>
             Character.isAlive char
             && negb (String.eqb (Character.id char) movingId)
             && GridSystem.positionsEqual (Character.position char) p)
          characters = false ->
  ~ blocked characters movingId p.
Proof.
  intros He (char & Hin & Ha & Hid & Hp).
  assert (existsb (fun char =>
             Character.isAlive char
             && negb (String.eqb (Character.id char) movingId)
             && GridSystem.positionsEqual (Character.position char) p)
          characters = true); [|congruence].
  apply existsb_exists. exists char. split; [apply list_elem_of_In, Hin|].
  rewrite Ha. apply String.eqb_neq in Hid. rewrite Hid.
  rewrite (proj2 (positionsEqual_eq _ _) Hp). reflexivity.
Qed.

Lemma enqueue_queued characters movingId start goal pos path cells neighbours :
  path = start :: cells ->
  trail characters movingId goal start cells pos ->
  (forall n, In n neighbours ->
             GridSystem.calculateDistance pos n = 1
             /\ GridSystem.isValidPosition n = true) ->
  forall queue visited,
    queued characters movingId start goal queue ->
    queued characters movingId start goal
      (fst (fold_left (MovementSystem.enqueue goal characters movingId path)
              neighbours (queue, visited))).
Proof.
  intros -> Ht. induction neighbours as [|n ns IH]; intros Hn queue visited Hq;
    [exact Hq|].
  cbn [fold_left]. unfold MovementSystem.enqueue at 2. cbn [fst snd].
  destruct (Hn n (or_introl eq_refl)) as [Hd Hv].
  assert (Hns : forall m, In m ns ->
                  GridSystem.calculateDistance pos m = 1
                  /\ GridSystem.isValidPosition m = true)
    by (intros m Hm; apply Hn; right; exact Hm).
  destruct (bool_decide _); [apply IH; assumption|].
  destruct (GridSystem.positionsEqual n goal) eqn:Hg; cbn [negb andb].
  - apply IH; [exact Hns|]. apply Forall_app. split; [exact Hq|].
    constructor; [|constructor]. cbn [fst snd].
    exists (cells ++ [n])%list. split; [reflexivity|].
    eapply trail_snoc; eauto. left. apply positionsEqual_eq, Hg.
  - destruct (existsb _ characters) eqn:Ho; [apply IH; assumption|].
    apply IH; [exact Hns|]. apply Forall_app. split; [exact Hq|].
    constructor; [|constructor]. cbn [fst snd].
    exists (cells ++ [n])%list. split; [reflexivity|].
    eapply trail_snoc; eauto. right. apply blocked_existsb, Ho.
Qed.

Lemma bfs_sound characters movingId start goal fuel :
  forall queue visited path,
    queued characters movingId start goal queue ->
    MovementSystem.bfs fuel goal characters movingId queue visited
    = MovementSystem.Path path ->
    exists cells, path = start :: cells
                  /\ trail characters movingId goal start cells goal.
Proof.
  induction fuel as [|fuel IH]; intros queue visited path Hq; cbn [MovementSystem.bfs].
  - destruct queue; discriminate.
  - destruct queue as [|[pos p] queue]; [discriminate|].
    apply Forall_cons in Hq as [(cells & Hp & Ht) Hq]. cbn [fst snd] in Hp, Ht.
    destruct (GridSystem.positionsEqual pos goal) eqn:Hg.
    + intros [= <-]. apply positionsEqual_eq in Hg as <-. eauto.
    + pose proof (enqueue_queued characters movingId start goal pos p cells
                    (GridSystem.getAdjacentCells pos) Hp Ht
                    (fun n Hn => neighbour_one_step pos n Hn) queue visited Hq) as Hq'.
      destruct (fold_left _ _ _) as [queue' visited']. cbn [fst] in Hq'.
      apply IH, Hq'.
Qed.

(** X18. Whenever [findPathBFS] returns a path, the path starts on the
    start cell and ends on the goal, each of its steps goes to an
    orthogonal neighbour that is a valid grid cell, and no cell it steps on
    other than the goal holds another living character; when start and goal
    differ the goal is a valid cell.  For an invalid goal other than the
    start it returns null at once. *)
Theorem findPathBFS_sound :
  forall (fuel : nat) (start goal : Position) (characters : list Character)
         (movingId : string),
    (forall path,
        MovementSystem.findPathBFS fuel start goal characters movingId
        = MovementSystem.Path path ->
        exists cells : list Position,
          path = start :: cells
          /\ trail characters movingId goal start cells goal
          /\ (start <> goal -> GridSystem.isValidPosition goal = true))
    /\ (start <> goal -> GridSystem.isValidPosition goal = false ->
        MovementSystem.findPathBFS fuel start goal characters movingId
        = MovementSystem.NoPath).
Proof.
  intros fuel start goal characters movingId. split.
  - intros path. unfold MovementSystem.findPathBFS.
    destruct (GridSystem.positionsEqual start goal) eqn:Hg.
    + intros [= <-]. apply positionsEqual_eq in Hg as <-.
      exists []. split; [reflexivity|]. split; [reflexivity|]. congruence.
    + destruct (GridSystem.isValidPosition goal) eqn:Hv; cbn [negb]; [|discriminate].
      intros Hb. apply bfs_sound with (start := start) in Hb.
      * destruct Hb as (cells & Hp & Ht). exists cells. auto.
      * constructor; [|constructor]. exists []. split; reflexivity.
  - intros Hne Hv. unfold MovementSystem.findPathBFS.
    apply positionsEqual_neq in Hne. rewrite Hne, Hv. reflexivity.
Qed.

(** ** Deadlines *)

Lemma onFile_noTimers : onFile TimerManager.noTimers.
Proof. intros h t H. cbn in H. rewrite lookup_empty in H. discriminate. Qed.

Lemma onFile_clearTurnTimer b s : onFile s -> onFile (TimerManager.clearTurnTimer b s).
Proof.
  intros Hs. unfold TimerManager.clearTurnTimer.
  destruct (TimerManager.turnTimers s !! b) as [timer|] eqn:Hb; [|exact Hs].
  intros h t Hh. cbn in *.
  apply lookup_delete_Some in Hh as [Hne Hh].
  destruct (Hs h t Hh) as [Hlt Hfile]. split; [exact Hlt|].
  destruct (TimerManager.deadline t); [|exact Hfile].
  rewrite lookup_delete_ne; [exact Hfile|]. intros E. rewrite <- E in Hfile.
  congruence.
Qed.

Lemma onFile_clearBattleTimer b s :
  onFile s -> onFile (TimerManager.clearBattleTimer b s).
Proof.
  intros Hs. unfold TimerManager.clearBattleTimer.
  destruct (TimerManager.battleTimers s !! b) as [timer|] eqn:Hb; [|exact Hs].
  intros h t Hh. cbn in *.
  apply lookup_delete_Some in Hh as [Hne Hh].
  destruct (Hs h t Hh) as [Hlt Hfile]. split; [exact Hlt|].
  destruct (TimerManager.deadline t); [exact Hfile|].
  rewrite lookup_delete_ne; [exact Hfile|]. intros E. rewrite <- E in Hfile.
  congruence.
Qed.

Lemma clearTurnTimer_none b s :
  onFile s ->
  forall h t, TimerManager.pending (TimerManager.clearTurnTimer b s) !! h = Some t ->
              TimerManager.deadline t = TimerManager.TurnDeadline ->
              TimerManager.battleId t <> b.
Proof.
  intros Hs h t Hh Hd Hb. unfold TimerManager.clearTurnTimer in Hh.
  destruct (TimerManager.turnTimers s !! b) as [timer|] eqn:Hfile; cbn in Hh.
  - apply lookup_delete_Some in Hh as [Hne Hh].
    destruct (Hs h t Hh) as [_ Hf]. rewrite Hd, Hb in Hf. congruence.
  - destruct (Hs h t Hh) as [_ Hf]. rewrite Hd, Hb in Hf. congruence.
Qed.

Lemma clearBattleTimer_none b s :
  onFile s ->
  forall h t, TimerManager.pending (TimerManager.clearBattleTimer b s) !! h = Some t ->
              TimerManager.deadline t = TimerManager.BattleDeadline ->
              TimerManager.battleId t <> b.
Proof.
  intros Hs h t Hh Hd Hb. unfold TimerManager.clearBattleTimer in Hh.
  destruct (TimerManager.battleTimers s !! b) as [timer|] eqn:Hfile; cbn in Hh.
  - apply lookup_delete_Some in Hh as [Hne Hh].
    destruct (Hs h t Hh) as [_ Hf]. rewrite Hd, Hb in Hf. congruence.
  - destruct (Hs h t Hh) as [_ Hf]. rewrite Hd, Hb in Hf. congruence.
Qed.

Lemma onFile_startTurnTimer b g s :
  onFile s -> onFile (TimerManager.startTurnTimer b g s).
Proof.
  intros Hs. pose proof (onFile_clearTurnTimer b s Hs) as Hc.
  pose proof (clearTurnTimer_none b s Hs) as Hn.
  unfold TimerManager.startTurnTimer, TimerManager.setTimeout. cbn.
  set (s1 := TimerManager.clearTurnTimer b s) in *.
  intros h t Hh. cbn in *.
  apply lookup_insert_Some in Hh as [[<- <-]|[Hne Hh]].
  - split; [lia|]. cbn. apply lookup_insert_eq.
  - destruct (Hc h t Hh) as [Hlt Hfile]. split; [lia|].
    destruct (TimerManager.deadline t) eqn:Hd; [|exact Hfile].
    rewrite lookup_insert_ne; [exact Hfile|]. intros E.
    exact (Hn h t Hh Hd (eq_sym E)).
Qed.

Lemma onFile_startBattleTimer b g s :
  onFile s -> onFile (TimerManager.startBattleTimer b g s).
Proof.
  intros Hs. pose proof (onFile_clearBattleTimer b s Hs) as Hc.
  pose proof (clearBattleTimer_none b s Hs) as Hn.
  unfold TimerManager.startBattleTimer, TimerManager.setTimeout. cbn.
  set (s1 := TimerManager.clearBattleTimer b s) in *.
  intros h t Hh. cbn in *.
  apply lookup_insert_Some in Hh as [[<- <-]|[Hne Hh]].
  - split; [lia|]. cbn. apply lookup_insert_eq.
  - destruct (Hc h t Hh) as [Hlt Hfile]. split; [lia|].
    destruct (TimerManager.deadline t) eqn:Hd; [exact Hfile|].
    rewrite lookup_insert_ne; [exact Hfile|]. intros E.
    exact (Hn h t Hh Hd (eq_sym E)).
Qed.

Lemma onFile_fire timer s : onFile s -> onFile (snd (TimerManager.fire timer s)).
Proof.
  intros Hs h t Hh. cbn in *. apply lookup_delete_Some in Hh as [_ Hh].
  exact (Hs h t Hh).
Qed.

Lemma onFile_happen s e : onFile s -> onFile (TimerManager.happen s e).
Proof.
  intros Hs. destruct e; cbn.
  - apply onFile_startTurnTimer, Hs.
  - apply onFile_startBattleTimer, Hs.
  - apply onFile_clearTurnTimer, Hs.
  - apply onFile_clearBattleTimer, Hs.
  - apply onFile_clearBattleTimer, onFile_clearTurnTimer, Hs.
  - apply onFile_fire, Hs.
Qed.

Lemma onFile_history_from events :
  forall s, onFile s -> onFile (fold_left TimerManager.happen events s).
Proof.
  induction events as [|e es IH]; intros s Hs; [exact Hs|].
  cbn. apply IH, onFile_happen, Hs.
Qed.

Lemma onFile_history events : onFile (TimerManager.history events).
Proof. apply onFile_history_from, onFile_noTimers. Qed.

(** X19. Starting from no timers, after any history of timers started,
    cleared and fired, no battle has two pending timeouts of the same
    deadline: two pending timeouts for the same battle and the same
    deadline (turn or battle) are one and the same timeout.  Restarting a
    timer therefore always replaces the old deadline, never adds to it. *)
Theorem one_deadline_per_battle :
  forall (events : list TimerManager.TimerEvent) (h1 h2 : nat)
         (t1 t2 : TimerManager.Timeout),
    let s := TimerManager.history events in
    TimerManager.pending s !! h1 = Some t1 ->
    TimerManager.pending s !! h2 = Some t2 ->
    TimerManager.battleId t1 = TimerManager.battleId t2 ->
    TimerManager.deadline t1 = TimerManager.deadline t2 ->
    h1 = h2 /\ t1 = t2.
Proof.
  intros events h1 h2 t1 t2 s H1 H2 Hb Hd.
  destruct (onFile_history events h1 t1 H1) as [_ F1].
  destruct (onFile_history events h2 t2 H2) as [_ F2].
  fold s in F1, F2. rewrite Hb, Hd in F1.
  assert (h1 = h2) as ->
    by (destruct (TimerManager.deadline t2); congruence).
  split; [reflexivity|congruence].
Qed.

Lemma one_deadline_per_battle_witness :
  let s := TimerManager.history
             [TimerManager.StartTurnTimer "battle" Scenario.fresh;
              TimerManager.StartTurnTimer "battle" Scenario.fresh] in
  TimerManager.pending s !! 1%nat
  = Some (TimerManager.mkTimeout "battle" TimerManager.TurnDeadline 15000)
  /\ TimerManager.pending s !! 0%nat = None.
Proof.
  cbv zeta.
  assert (H : TimerManager.pending
                (TimerManager.history
                   [TimerManager.StartTurnTimer "battle" Scenario.fresh;
                    TimerManager.StartTurnTimer "battle" Scenario.fresh]) !! 1%nat
              = Some (TimerManager.mkTimeout "battle" TimerManager.TurnDeadline 15000))
    by (vm_compute; reflexivity).
  split; [exact H|].
  destruct (TimerManager.pending
              (TimerManager.history
                 [TimerManager.StartTurnTimer "battle" Scenario.fresh;
                  TimerManager.StartTurnTimer "battle" Scenario.fresh]) !! 0%nat)
    as [t0|] eqn:H0; [|reflexivity].
  assert (Ht0 : t0 = TimerManager.mkTimeout "battle" TimerManager.TurnDeadline 15000)
    by (vm_compute in H0; congruence).
  subst t0.
  destruct (one_deadline_per_battle _ 0%nat 1%nat _ _ H0 H eq_refl eq_refl)
    as [Habs _].
  discriminate Habs.
Defined.

Lemma clearTurnTimer_pending b s h t :
  TimerManager.pending (TimerManager.clearTurnTimer b s) !! h = Some t ->
  TimerManager.pending s !! h = Some t.
Proof.
  unfold TimerManager.clearTurnTimer.
  destruct (TimerManager.turnTimers s !! b); cbn; [|auto].
  intros H. apply lookup_delete_Some in H as [_ H]. exact H.
Qed.

Lemma clearBattleTimer_pending b s h t :
  TimerManager.pending (TimerManager.clearBattleTimer b s) !! h = Some t ->
  TimerManager.pending s !! h = Some t.
Proof.
  unfold TimerManager.clearBattleTimer.
  destruct (TimerManager.battleTimers s !! b); cbn; [|auto].
  intros H. apply lookup_delete_Some in H as [_ H]. exact H.
Qed.


Lemma genuine_noTimers : genuine TimerManager.noTimers.
Proof. split; intros b h H; cbn in H; rewrite lookup_empty in H; discriminate. Qed.

Lemma genuine_clearTurnTimer b s : genuine s -> genuine (TimerManager.clearTurnTimer b s).
Proof.
  intros [Ht Hb]. unfold TimerManager.clearTurnTimer.
  destruct (TimerManager.turnTimers s !! b) as [timer|]; [|split; assumption].
  split; intros b' h H; cbn in *.
  - apply lookup_delete_Some in H as [_ H]. destruct (Ht _ _ H) as [Hlt Hp].
    split; [exact Hlt|]. intros t Hh. apply lookup_delete_Some in Hh as [_ Hh]. auto.
  - destruct (Hb _ _ H) as [Hlt Hp].
    split; [exact Hlt|]. intros t Hh. apply lookup_delete_Some in Hh as [_ Hh]. auto.
Qed.

Lemma genuine_clearBattleTimer b s :
  genuine s -> genuine (TimerManager.clearBattleTimer b s).
Proof.
  intros [Ht Hb]. unfold TimerManager.clearBattleTimer.
  destruct (TimerManager.battleTimers s !! b) as [timer|]; [|split; assumption].
  split; intros b' h H; cbn in *.
  - destruct (Ht _ _ H) as [Hlt Hp].
    split; [exact Hlt|]. intros t Hh. apply lookup_delete_Some in Hh as [_ Hh]. auto.
  - apply lookup_delete_Some in H as [_ H]. destruct (Hb _ _ H) as [Hlt Hp].
    split; [exact Hlt|]. intros t Hh. apply lookup_delete_Some in Hh as [_ Hh]. auto.
Qed.

Lemma genuine_startTurnTimer b g s :
  genuine s -> genuine (TimerManager.startTurnTimer b g s).
Proof.
  intros Hs. destruct (genuine_clearTurnTimer b s Hs) as [Ht Hb].
  unfold TimerManager.startTurnTimer, TimerManager.setTimeout. cbn.
  set (s1 := TimerManager.clearTurnTimer b s) in *.
  split; intros b' h H; cbn in *.
  - apply lookup_insert_Some in H as [[<- <-]|[Hne H]].
    + split; [lia|]. intros t Hh. rewrite lookup_insert_eq in Hh.
      injection Hh as <-. split; reflexivity.
    + destruct (Ht _ _ H) as [Hlt Hp]. split; [lia|]. intros t Hh.
      rewrite lookup_insert_ne in Hh by lia. auto.
  - destruct (Hb _ _ H) as [Hlt Hp]. split; [lia|]. intros t Hh.
    rewrite lookup_insert_ne in Hh by lia. auto.
Qed.

Lemma genuine_startBattleTimer b g s :
  genuine s -> genuine (TimerManager.startBattleTimer b g s).
Proof.
  intros Hs. destruct (genuine_clearBattleTimer b s Hs) as [Ht Hb].
  unfold TimerManager.startBattleTimer, TimerManager.setTimeout. cbn.
  set (s1 := TimerManager.clearBattleTimer b s) in *.
  split; intros b' h H; cbn in *.
  - destruct (Ht _ _ H) as [Hlt Hp]. split; [lia|]. intros t Hh.
    rewrite lookup_insert_ne in Hh by lia. auto.
  - apply lookup_insert_Some in H as [[<- <-]|[Hne H]].
    + split; [lia|]. intros t Hh. rewrite lookup_insert_eq in Hh.
      injection Hh as <-. split; reflexivity.
    + destruct (Hb _ _ H) as [Hlt Hp]. split; [lia|]. intros t Hh.
      rewrite lookup_insert_ne in Hh by lia. auto.
Qed.

Lemma genuine_fire timer s : genuine s -> genuine (snd (TimerManager.fire timer s)).
Proof.
  intros [Ht Hb]. split; intros b h H; cbn in *.
  - destruct (Ht _ _ H) as [Hlt Hp]. split; [exact Hlt|]. intros t Hh.
    apply lookup_delete_Some in Hh as [_ Hh]. auto.
  - destruct (Hb _ _ H) as [Hlt Hp]. split; [exact Hlt|]. intros t Hh.
    apply lookup_delete_Some in Hh as [_ Hh]. auto.
Qed.

Lemma genuine_history events : genuine (TimerManager.history events).
Proof.
  unfold TimerManager.history. generalize genuine_noTimers.
  generalize TimerManager.noTimers.
  induction events as [|e es IH]; intros s Hs; [exact Hs|].
  cbn. apply IH. destruct e; cbn.
  - apply genuine_startTurnTimer, Hs.
  - apply genuine_startBattleTimer, Hs.
  - apply genuine_clearTurnTimer, Hs.
  - apply genuine_clearBattleTimer, Hs.
  - apply genuine_clearBattleTimer, genuine_clearTurnTimer, Hs.
  - apply genuine_fire, Hs.
Qed.

Lemma clearTurnTimer_others b s h t :
  genuine s -> TimerManager.pending s !! h = Some t ->
  TimerManager.battleId t <> b ->
  TimerManager.pending (TimerManager.clearTurnTimer b s) !! h = Some t.
Proof.
  intros [Ht _] Hh Hb. unfold TimerManager.clearTurnTimer.
  destruct (TimerManager.turnTimers s !! b) as [timer|] eqn:Hf; cbn; [|exact Hh].
  rewrite lookup_delete_ne; [exact Hh|]. intros E. subst timer.
  destruct (Ht _ _ Hf) as [_ Hp]. destruct (Hp _ Hh) as [E _]. congruence.
Qed.

Lemma clearBattleTimer_others b s h t :
  genuine s -> TimerManager.pending s !! h = Some t ->
  TimerManager.battleId t <> b ->
  TimerManager.pending (TimerManager.clearBattleTimer b s) !! h = Some t.
Proof.
  intros [_ Hbt] Hh Hb. unfold TimerManager.clearBattleTimer.
  destruct (TimerManager.battleTimers s !! b) as [timer|] eqn:Hf; cbn; [|exact Hh].
  rewrite lookup_delete_ne; [exact Hh|]. intros E. subst timer.
  destruct (Hbt _ _ Hf) as [_ Hp]. destruct (Hp _ Hh) as [E _]. congruence.
Qed.

Lemma clearTurnTimer_unfiled b s :
  TimerManager.turnTimers (TimerManager.clearTurnTimer b s) !! b = None
  /\ TimerManager.battleTimers (TimerManager.clearTurnTimer b s)
     = TimerManager.battleTimers s.
Proof.
  unfold TimerManager.clearTurnTimer.
  destruct (TimerManager.turnTimers s !! b) eqn:Hf; cbn.
  - split; [apply lookup_delete_eq|reflexivity].
  - split; [exact Hf|reflexivity].
Qed.

Lemma clearBattleTimer_unfiled b s :
  TimerManager.battleTimers (TimerManager.clearBattleTimer b s) !! b = None
  /\ TimerManager.turnTimers (TimerManager.clearBattleTimer b s)
     = TimerManager.turnTimers s.
Proof.
  unfold TimerManager.clearBattleTimer.
  destruct (TimerManager.battleTimers s !! b) eqn:Hf; cbn.
  - split; [apply lookup_delete_eq|reflexivity].
  - split; [exact Hf|reflexivity].
Qed.

Lemma startTurnTimer_shape b g s :
  let s1 := TimerManager.clearTurnTimer b s in
  TimerManager.turnTimers (TimerManager.startTurnTimer b g s)
  = <[b := TimerManager.nextHandle s1]> (TimerManager.turnTimers s1)
  /\ TimerManager.pending (TimerManager.startTurnTimer b g s)
     = <[TimerManager.nextHandle s1 :=
           TimerManager.mkTimeout b TimerManager.TurnDeadline
             (GameState.turnTimeLimit g * 1000)]> (TimerManager.pending s1).
Proof. split; reflexivity. Qed.

(** X20. After any history of the timers, [clearAllTimers] for a battle
    leaves no pending timeout of that battle, turn or battle deadline, and
    nothing on file for it, and it neither adds nor cancels a pending
    timeout of any other battle; and [startTurnTimer] for a battle leaves
    exactly one pending turn deadline for it, the new one, due after
    turnTimeLimit * 1000 milliseconds. *)
Theorem timers_clear_and_restart :
  forall (events : list TimerManager.TimerEvent) (b : string) (g : GameState),
    let s := TimerManager.history events in
    let cleared := TimerManager.clearAllTimers b s in
    let started := TimerManager.startTurnTimer b g s in
    (forall h t, TimerManager.pending cleared !! h = Some t ->
                 TimerManager.battleId t <> b)
    /\ TimerManager.turnTimers cleared !! b = None
    /\ TimerManager.battleTimers cleared !! b = None
    /\ (forall h t, TimerManager.battleId t <> b ->
          (TimerManager.pending cleared !! h = Some t
           <-> TimerManager.pending s !! h = Some t))
    /\ (exists h,
          TimerManager.turnTimers started !! b = Some h
          /\ TimerManager.pending started !! h
             = Some (TimerManager.mkTimeout b TimerManager.TurnDeadline
                       (GameState.turnTimeLimit g * 1000))
          /\ forall h' t',
               TimerManager.pending started !! h' = Some t' ->
               TimerManager.battleId t' = b ->
               TimerManager.deadline t' = TimerManager.TurnDeadline ->
               h' = h).
Proof.
  intros events b g s cleared started.
  pose proof (onFile_history events) as Hf. pose proof (genuine_history events) as Hg.
  fold s in Hf, Hg. subst cleared started. unfold TimerManager.clearAllTimers.
  set (s1 := TimerManager.clearTurnTimer b s).
  assert (Hf1 : onFile s1) by (apply onFile_clearTurnTimer, Hf).
  assert (Hg1 : genuine s1) by (apply genuine_clearTurnTimer, Hg).
  destruct (clearTurnTimer_unfiled b s) as [Hu1 Hk1]. fold s1 in Hu1, Hk1.
  destruct (clearBattleTimer_unfiled b s1) as [Hu2 Hk2].
  split; [|split; [|split; [|split]]].
  - intros h t Hh. destruct (TimerManager.deadline t) eqn:Hd.
    + apply clearBattleTimer_pending in Hh.
      exact (clearTurnTimer_none b s Hf h t Hh Hd).
    + exact (clearBattleTimer_none b s1 Hf1 h t Hh Hd).
  - rewrite Hk2. exact Hu1.
  - exact Hu2.
  - intros h t Hb. split.
    + intros Hh. apply clearBattleTimer_pending, clearTurnTimer_pending in Hh. exact Hh.
    + intros Hh. apply clearBattleTimer_others; [exact Hg1| |exact Hb].
      apply clearTurnTimer_others; assumption.
  - pose proof (onFile_startTurnTimer b g s Hf) as Hfs.
    destruct (startTurnTimer_shape b g s) as [Et Ep]. fold s1 in Et, Ep.
    exists (TimerManager.nextHandle s1).
    split; [rewrite Et; apply lookup_insert_eq|].
    split; [rewrite Ep; apply lookup_insert_eq|].
    intros h' t' Hh' Hb' Hd'. destruct (Hfs h' t' Hh') as [_ F].
    rewrite Hd', Hb', Et, lookup_insert_eq in F. congruence.
Qed.

(** ** The handler of the socket layer *)

Lemma processBattleAction_spectator los b action playerId now s g :
  SocketHandler.activeBattles s !! b = Some g ->
  playerId <> GameState.player1Id g -> playerId <> GameState.player2Id g ->
  SocketHandler.processBattleAction los b action playerId now s
  = SocketHandler.send
      (SocketHandler.BattleError b (Some "Spectators cannot perform actions")) s.
Proof.
  intros Hg H1 H2. unfold SocketHandler.processBattleAction. rewrite Hg.
  apply String.eqb_neq in H1, H2. rewrite H1, H2. reflexivity.
Qed.

(** X21. When the turn deadline of a battle comes due and no player of
    that battle is called 'SYSTEM', nothing happens to the battle: the
    records on file are unchanged, so the turn is not ended; the timeout
    is gone from the pending ones and no new one is scheduled; and the only
    thing sent, if the battle is on file and active, is the error
    'Spectators cannot perform actions' to the battle's room. *)
Theorem turn_deadline_ends_no_turn :
  forall (los : GridSystem.LineOfSight) (timer : nat) (now : Z)
         (s : SocketHandler.t) (timeout : TimerManager.Timeout),
    TimerManager.pending (SocketHandler.timerManager s) !! timer = Some timeout ->
    TimerManager.deadline timeout = TimerManager.TurnDeadline ->
    (forall g, SocketHandler.activeBattles s !! TimerManager.battleId timeout = Some g ->
               "SYSTEM" <> GameState.player1Id g /\ "SYSTEM" <> GameState.player2Id g) ->
    let s' := SocketHandler.expire los timer now s in
    SocketHandler.activeBattles s' = SocketHandler.activeBattles s
    /\ SocketHandler.timerManager s'
       = snd (TimerManager.fire timer (SocketHandler.timerManager s))
    /\ TimerManager.pending (SocketHandler.timerManager s')
       = delete timer (TimerManager.pending (SocketHandler.timerManager s))
    /\ (SocketHandler.sent s' = SocketHandler.sent s
        \/ SocketHandler.sent s'
           = (SocketHandler.sent s
              ++ [SocketHandler.BattleError (TimerManager.battleId timeout)
                    (Some "Spectators cannot perform actions")])%list).
Proof.
  intros los timer now s timeout Hp Hd Hsys s'. subst s'.
  unfold SocketHandler.expire, TimerManager.fire. rewrite Hp, Hd.
  unfold SocketHandler.handleTurnTimeout.
  cbn [SocketHandler.activeBattles SocketHandler.setTimers].
  destruct (SocketHandler.activeBattles s !! TimerManager.battleId timeout)
    as [g|] eqn:Hg; [|cbn; auto].
  destruct (GameState.status g); try (cbn; auto; fail).
  destruct (Hsys g eq_refl) as [H1 H2].
  rewrite (processBattleAction_spectator los _ EndTurnAction "SYSTEM" now _ g);
    [cbn; auto|exact Hg|exact H1|exact H2].
Qed.

Lemma turn_deadline_ends_no_turn_witness :
  TimerManager.pending (SocketHandler.timerManager oneBattle) !! 0%nat
  = Some (TimerManager.mkTimeout "battle" TimerManager.TurnDeadline 15000)
  /\ SocketHandler.activeBattles
       (SocketHandler.expire Scenario.clearSight 0 16000 oneBattle)
     = SocketHandler.activeBattles oneBattle.
Proof.
  assert (Hp : TimerManager.pending (SocketHandler.timerManager oneBattle) !! 0%nat
               = Some (TimerManager.mkTimeout "battle" TimerManager.TurnDeadline 15000))
    by (vm_compute; reflexivity).
  split; [exact Hp|].
  assert (Hsys : forall g,
             SocketHandler.activeBattles oneBattle
               !! TimerManager.battleId
                    (TimerManager.mkTimeout "battle" TimerManager.TurnDeadline 15000)
             = Some g ->
             "SYSTEM" <> GameState.player1Id g /\ "SYSTEM" <> GameState.player2Id g).
  { intros g Hg. assert (g = Scenario.fresh) as ->.
    { change (({["battle" := Scenario.fresh]} : gmap string GameState) !! "battle"
              = Some g) in Hg.
      rewrite lookup_singleton_eq in Hg. congruence. }
    split; discriminate. }
  destruct (turn_deadline_ends_no_turn Scenario.clearSight 0 16000 oneBattle _
              Hp eq_refl Hsys) as [Ha _].
  exact Ha.
Defined.

Lemma handleBattleTimeout_active b s g :
  SocketHandler.activeBattles s !! b = Some g ->
  GameState.status g = active ->
  let g' := GameState.set_status finished
              (GameState.set_winner (Some (TimerManager.determineWinnerByTime g)) g) in
  SocketHandler.handleBattleTimeout b s
  = SocketHandler.send (SocketHandler.BattleEndBegun b g')
      (SocketHandler.setTimers
         (TimerManager.clearAllTimers b (SocketHandler.timerManager s))
         (SocketHandler.setBattle b g' s)).
Proof.
  intros Hg Ha. unfold SocketHandler.handleBattleTimeout. rewrite Hg, Ha.
  reflexivity.
Qed.

Lemma handleBattleTimeout_idle b s :
  (SocketHandler.activeBattles s !! b = None
   \/ exists g, SocketHandler.activeBattles s !! b = Some g
                /\ GameState.status g <> active) ->
  SocketHandler.handleBattleTimeout b s = s.
Proof.
  unfold SocketHandler.handleBattleTimeout.
  intros [Hn|(g & Hg & Ha)]; [rewrite Hn; reflexivity|].
  rewrite Hg. destruct (GameState.status g); congruence.
Qed.

Lemma clearAllTimers_unfiled b t :
  TimerManager.turnTimers (TimerManager.clearAllTimers b t) !! b = None
  /\ TimerManager.battleTimers (TimerManager.clearAllTimers b t) !! b = None.
Proof.
  unfold TimerManager.clearAllTimers.
  destruct (clearTurnTimer_unfiled b t) as [Hu1 _].
  destruct (clearBattleTimer_unfiled b (TimerManager.clearTurnTimer b t)) as [Hu2 Hk2].
  split; [rewrite Hk2; exact Hu1|exact Hu2].
Qed.

(** X22. The battle deadline finishes an active battle once: the record on
    file gets the winner [determineWinnerByTime] names and status
    finished, nothing stays on file in the timer manager for the battle,
    the end of the battle is set going, and no other battle is touched.
    For a battle that is not on file or not active it does nothing; so a
    second battle deadline for the same battle changes nothing more. *)
Theorem battle_deadline_finishes_once :
  forall (b : string) (s : SocketHandler.t),
    let s' := SocketHandler.handleBattleTimeout b s in
    (forall g, SocketHandler.activeBattles s !! b = Some g ->
               GameState.status g = active ->
               let g' := GameState.set_status finished
                           (GameState.set_winner
                              (Some (TimerManager.determineWinnerByTime g)) g) in
               SocketHandler.activeBattles s' = <[b := g']> (SocketHandler.activeBattles s)
               /\ SocketHandler.timerManager s'
                  = TimerManager.clearAllTimers b (SocketHandler.timerManager s)
               /\ TimerManager.turnTimers (SocketHandler.timerManager s') !! b = None
               /\ TimerManager.battleTimers (SocketHandler.timerManager s') !! b = None
               /\ SocketHandler.sent s'
                  = (SocketHandler.sent s ++ [SocketHandler.BattleEndBegun b g'])%list)
    /\ (SocketHandler.activeBattles s !! b = None -> s' = s)
    /\ (forall g, SocketHandler.activeBattles s !! b = Some g ->
                  GameState.status g <> active -> s' = s)
    /\ SocketHandler.handleBattleTimeout b s' = s'.
Proof.
  intros b s s'. subst s'.
  destruct (SocketHandler.activeBattles s !! b) as [g|] eqn:Hg.
  - destruct (GameState.status g) eqn:Ha.
    3: { rewrite (handleBattleTimeout_idle b s)
           by (right; exists g; split; [exact Hg|congruence]).
         split; [intros g0 [= <-] Hact; congruence|].
         split; [discriminate|]. split; [reflexivity|].
         apply handleBattleTimeout_idle. right. exists g. split; [exact Hg|congruence]. }
    1: { rewrite (handleBattleTimeout_idle b s)
           by (right; exists g; split; [exact Hg|congruence]).
         split; [intros g0 [= <-] Hact; congruence|].
         split; [discriminate|]. split; [reflexivity|].
         apply handleBattleTimeout_idle. right. exists g. split; [exact Hg|congruence]. }
    rewrite (handleBattleTimeout_active b s g Hg Ha). cbv zeta.
    split; [|split; [discriminate|split]].
    + intros g0 [= <-] _. cbn.
      destruct (clearAllTimers_unfiled b (SocketHandler.timerManager s)) as [H1 H2].
      repeat split; assumption.
    + intros g0 [= <-] Hn. contradiction.
    + apply handleBattleTimeout_idle. right. eexists. split.
      * cbn. apply lookup_insert_eq.
      * cbn. discriminate.
  - rewrite (handleBattleTimeout_idle b s) by (left; exact Hg).
    split; [discriminate|]. split; [reflexivity|]. split; [discriminate|].
    apply handleBattleTimeout_idle. left. exact Hg.
Qed.

Lemma processAction_carries los action playerId g now :
  ActionResult.success
    (fst (BattleManager.processAction los action playerId g now)) = true ->
  ActionResult.newState
    (fst (BattleManager.processAction los action playerId g now))
  = Some (snd (BattleManager.processAction los action playerId g now)).
Proof.
  unfold BattleManager.processAction.
  destruct (negb _); [cbn; discriminate|].
  destruct action.
  - rewrite handleMove_unfold.
    destruct (BattleManager.find _ _) as [[ci c]|]; [|cbn; discriminate].
    cbv zeta. destruct (negb _); [cbn; discriminate|].
    destruct (GameState.autoEndTurn _); reflexivity.
  - rewrite handleAttack_unfold.
    destruct (BattleManager.find attackerId _) as [[ai a]|]; [|cbn; discriminate].
    destruct (BattleManager.find targetId _) as [[ti t]|]; [|cbn; discriminate].
    cbv zeta. destruct (negb _); [cbn; discriminate|]. reflexivity.
  - first [reflexivity | cbn; discriminate].
  - first [reflexivity | cbn; discriminate].
  - first [reflexivity | cbn; discriminate].
Qed.

Lemma processBattleAction_participant los b action playerId now s g :
  SocketHandler.activeBattles s !! b = Some g ->
  playerId = GameState.player1Id g \/ playerId = GameState.player2Id g ->
  let r := BattleManager.processAction los action playerId g now in
  let s1 := SocketHandler.setBattle b (snd r) s in
  SocketHandler.processBattleAction los b action playerId now s
  = if ActionResult.success (fst r)
    then
      let s2 :=
        SocketHandler.send
          (SocketHandler.BattleUpdate b (snd r) action
             (ActionResult.damage (fst r)) (ActionResult.killedCharacterId (fst r)))
          (SocketHandler.setBattle b (snd r) s1) in
      match GameState.status (snd r) with
      | finished =>
          SocketHandler.send (SocketHandler.BattleEndBegun b (snd r))
            (SocketHandler.setTimers
               (TimerManager.clearAllTimers b (SocketHandler.timerManager s)) s2)
      | _ =>
          let s3 :=
            match action with
            | EndTurnAction =>
                SocketHandler.setTimers
                  (TimerManager.startTurnTimer b (snd r) (SocketHandler.timerManager s))
                  s2
            | _ => s2
            end in
          if Team_eqb (GameState.currentTurn (snd r)) PLAYER2
             && String.eqb (GameState.player2Id (snd r)) "AI_BOT"
          then SocketHandler.send (SocketHandler.BotTurnBegun b (snd r)) s3
          else s3
      end
    else
      match SocketHandler.playerSockets s !! playerId with
      | Some socketId =>
          SocketHandler.send
            (SocketHandler.BattleError socketId (ActionResult.error (fst r))) s1
      | None => s1
      end.
Proof.
  intros Hg Hp r s1. subst s1 r.
  unfold SocketHandler.processBattleAction. rewrite Hg.
  assert (Hpart : String.eqb playerId (GameState.player1Id g)
                  || String.eqb playerId (GameState.player2Id g) = true).
  { apply orb_true_iff. destruct Hp as [->| ->]; [left|right]; apply String.eqb_refl. }
  rewrite Hpart. cbn [negb].
  pose proof (processAction_carries los action playerId g now) as Hc.
  destruct (BattleManager.processAction los action playerId g now) as [res g'].
  cbn [fst snd] in *.
  destruct (ActionResult.success res); cbn [negb].
  - rewrite (Hc eq_refl). reflexivity.
  - reflexivity.
Qed.

(** X23. An action reaches the engine only from a player of the battle: a
    request from anyone else changes neither the battles on file nor the
    timers and is answered, to the battle's room, with 'Spectators cannot
    perform actions'; a request for a battle not on file does nothing.  For
    a player, the record on file becomes the one [processAction] leaves, and
    the turn timer is restarted only by a successful END_TURN: a refused
    action leaves the timers alone, and so does a successful MOVE or ATTACK
    in a battle that goes on, also when it has ended the turn through
    autoEndTurn; an action that finishes the battle clears both timers. *)
Theorem handler_admits_players_only :
  forall (los : GridSystem.LineOfSight) (b : string) (action : BattleAction)
         (playerId : string) (now : Z) (s : SocketHandler.t),
    let s' := SocketHandler.processBattleAction los b action playerId now s in
    (SocketHandler.activeBattles s !! b = None -> s' = s)
    /\ (forall g,
          SocketHandler.activeBattles s !! b = Some g ->
          let r := BattleManager.processAction los action playerId g now in
          (playerId <> GameState.player1Id g ->
           playerId <> GameState.player2Id g ->
           SocketHandler.activeBattles s' = SocketHandler.activeBattles s
           /\ SocketHandler.timerManager s' = SocketHandler.timerManager s
           /\ SocketHandler.sent s'
              = (SocketHandler.sent s
                 ++ [SocketHandler.BattleError b
                       (Some "Spectators cannot perform actions")])%list)
          /\ (playerId = GameState.player1Id g \/ playerId = GameState.player2Id g ->
              SocketHandler.activeBattles s'
              = <[b := snd r]> (SocketHandler.activeBattles s)
              /\ SocketHandler.timerManager s'
                 = if ActionResult.success (fst r)
                   then
                     match GameState.status (snd r), action with
                     | finished, _ =>
                         TimerManager.clearAllTimers b (SocketHandler.timerManager s)
                     | _, EndTurnAction =>
                         TimerManager.startTurnTimer b (snd r)
                           (SocketHandler.timerManager s)
                     | _, _ => SocketHandler.timerManager s
                     end
                   else SocketHandler.timerManager s)).
Proof.
  intros los b action playerId now s s'. subst s'. split.
  - intros Hn. unfold SocketHandler.processBattleAction. rewrite Hn. reflexivity.
  - intros g Hg r. split.
    + intros H1 H2.
      rewrite (processBattleAction_spectator los b action playerId now s g Hg H1 H2).
      cbn. auto.
    + intros Hp.
      rewrite (processBattleAction_participant los b action playerId now s g Hg Hp).
      fold r. cbv zeta.
      destruct (ActionResult.success (fst r)).
      * destruct (GameState.status (snd r));
          destruct action;
          repeat match goal with
                 | |- context [if ?c then _ else _] => destruct c
                 end;
          cbn; rewrite ?insert_insert_eq; auto.
      * destruct (SocketHandler.playerSockets s !! playerId); cbn; auto.
Qed.

(** ** The options offered to a character *)

Lemma getAvailableMoves_keeps c g m :
  Character.movementPointsLeft c = Some m ->
  snd (MovementSystem.getAvailableMoves c g) = c.
Proof.
  intros Hm. unfold MovementSystem.getAvailableMoves.
  assert (H : forall cells acc,
             snd (fold_left
                    (fun (acc : list Position * Character) (cell : Position) =>
                       let '(canMove, character) :=
                         MovementSystem.canMove (snd acc) cell g in
                       if Check.valid canMove
                       then ((fst acc ++ [cell])%list, character)
                       else (fst acc, character))
                    cells (acc, c)) = c); [|apply H].
  induction cells as [|p cells IH]; intros acc; cbn [fold_left]; [reflexivity|].
  cbn [snd fst].
  pose proof (canMove_keeps_set_counter c p g m Hm) as Hk.
  destruct (MovementSystem.canMove c p g) as [chk c1]. cbn [snd] in Hk. subst c1.
  destruct (Check.valid chk); apply IH.
Qed.

Lemma getAvailableMoves_valid c g p :
  p ∈ fst (MovementSystem.getAvailableMoves c g) ->
  Check.valid (fst (MovementSystem.canMove c p g)) = true.
Proof.
  unfold MovementSystem.getAvailableMoves.
  rewrite (getAvailableMoves_from c g _ [] c) by (left; reflexivity).
  cbn [app]. rewrite list_elem_of_In, filter_In. tauto.
Qed.

Lemma findFrom_first id l :
  forall k i c,
    l !! i = Some c -> Character.id c = id ->
    exists j c', BattleManager.findFrom k id l = Some ((k + j)%nat, c')
                 /\ l !! j = Some c' /\ Character.id c' = id /\ (j <= i)%nat.
Proof.
  induction l as [|a l IH]; intros k i c Hl Hid; [destruct i; discriminate|].
  cbn [BattleManager.findFrom].
  destruct (String.eqb_spec (Character.id a) id) as [E|E].
  - exists 0%nat, a. rewrite Nat.add_0_r. repeat split; [exact E|lia].
  - destruct i as [|i]; [cbn in Hl; congruence|]. cbn in Hl.
    destruct (IH (S k) i c Hl Hid) as (j & c' & Hf & Hj & Hc' & Hle).
    exists (S j), c'. replace (k + S j)%nat with (S k + j)%nat by lia.
    repeat split; [exact Hf|exact Hj|exact Hc'|lia].
Qed.

Lemma find_distinct l i c :
  distinctIds l -> l !! i = Some c ->
  BattleManager.find (Character.id c) l = Some (i, c).
Proof.
  intros Hd Hl. unfold BattleManager.find.
  destruct (findFrom_first (Character.id c) l 0 i c Hl eq_refl)
    as (j & c' & Hf & Hj & Hc' & _).
  rewrite Hf. cbn [Nat.add].
  destruct (decide (j = i)) as [->|Hne]; [congruence|].
  exfalso. exact (Hd j i c' c Hj Hl Hne Hc').
Qed.

(** X24. What [getAvailableActions] offers is honoured.  In a battle whose
    characters all have their movement counter set and no two of which
    share an id, a query that gives options leaves the battle record
    unchanged; every cell it lists as a move and every character it lists
    as a target is accepted by [processAction] when the player who has the
    turn submits the MOVE or the ATTACK; and the moves listed for a
    character of the team that does not have the turn are none, while the
    [canMove] flag, which looks only at [hasMoved] and the team's pool, can
    still be true. *)
Theorem offers_are_honoured :
  forall (los : GridSystem.LineOfSight) (characterId : string) (g : GameState)
         (opts : BattleManager.AvailableActions),
    Forall (fun c => is_Some (Character.movementPointsLeft c))
           (GameState.characters g) ->
    distinctIds (GameState.characters g) ->
    fst (BattleManager.getAvailableActions los characterId g) = Some opts ->
    snd (BattleManager.getAvailableActions los characterId g) = g
    /\ (forall playerId from p now,
          TurnManager.canAct playerId g = true ->
          p ∈ BattleManager.availableMoves opts ->
          ActionResult.success
            (fst (BattleManager.processAction los
                    (MoveAction characterId from p) playerId g now)) = true)
    /\ (forall playerId t now,
          TurnManager.canAct playerId g = true ->
          t ∈ BattleManager.availableTargets opts ->
          ActionResult.success
            (fst (BattleManager.processAction los
                    (AttackAction characterId (Character.id t)) playerId g now))
          = true)
    /\ (forall i c,
          BattleManager.find characterId (GameState.characters g) = Some (i, c) ->
          Character.team c <> GameState.currentTurn g ->
          BattleManager.availableMoves opts = []
          /\ BattleManager.canMove opts
             = negb (Character.hasMoved c) && (0 <? GameState.movementPointsLeft g)).
Proof.
  intros los characterId g opts Hset Hd.
  unfold BattleManager.getAvailableActions.
  destruct (BattleManager.find characterId (GameState.characters g))
    as [[ci c]|] eqn:Hf; [|discriminate].
  destruct (find_lookup _ _ _ _ Hf) as [Hl Hid].
  rewrite Forall_lookup in Hset. destruct (Hset _ _ Hl) as [m Hm].
  destruct (Character.isAlive c) eqn:Halive; cbn [negb]; [|discriminate].
  assert (Hmoves :
            (if negb (Character.hasMoved c)
             then MovementSystem.getAvailableMoves c g else ([], c))
            = (if negb (Character.hasMoved c)
               then fst (MovementSystem.getAvailableMoves c g) else [], c)).
  { destruct (negb (Character.hasMoved c)); [|reflexivity].
    rewrite <- (getAvailableMoves_keeps c g m Hm) at 3.
    destruct (MovementSystem.getAvailableMoves c g); reflexivity. }
  rewrite Hmoves. cbn [fst snd].
  rewrite (list_insert_id _ _ _ Hl), set_characters_same.
  intros [= <-]. cbn [BattleManager.availableMoves BattleManager.availableTargets
                      BattleManager.canMove].
  split; [reflexivity|]. split; [|split].
  - intros playerId from p now Hact Hp.
    assert (Hv : Check.valid (fst (MovementSystem.canMove c p g)) = true).
    { destruct (negb (Character.hasMoved c)); [|inversion Hp].
      apply getAvailableMoves_valid, Hp. }
    unfold BattleManager.processAction. rewrite Hact. cbn [negb].
    rewrite handleMove_unfold, Hf. cbv zeta. rewrite Hv. cbn [negb].
    destruct (GameState.autoEndTurn _); reflexivity.
  - intros playerId t now Hact Ht.
    destruct (negb (Character.hasAttacked c)); [|inversion Ht].
    unfold CombatSystem.getAvailableTargets in Ht.
    rewrite getAvailableTargets_from in Ht. cbn [app] in Ht.
    rewrite list_elem_of_In, filter_In in Ht. destruct Ht as [Hin Hv].
    apply list_elem_of_In, list_elem_of_lookup_1 in Hin as [ti Hti].
    unfold BattleManager.processAction. rewrite Hact. cbn [negb].
    rewrite handleAttack_unfold, Hf, (find_distinct _ _ _ Hd Hti). cbv zeta.
    rewrite Hv. reflexivity.
  - intros i c0 [= <- <-] Hteam. split; [|reflexivity].
    destruct (negb (Character.hasMoved c)); [|reflexivity].
    unfold MovementSystem.getAvailableMoves.
    rewrite (getAvailableMoves_from c g _ [] c) by (left; reflexivity).
    cbn [app].
    induction (GridSystem.getAdjacentCells (Character.position c)) as [|p cells IH];
      [reflexivity|].
    cbn [List.filter]. rewrite (canMove_offturn c p g Hteam). exact IH.
Qed.

Lemma offers_are_honoured_witness :
  Forall (fun c => is_Some (Character.movementPointsLeft c))
         (GameState.characters Scenario.fresh)
  /\ ActionResult.success
       (fst (BattleManager.processAction Scenario.clearSight
               (MoveAction "w1" (Position.mk 7 1) (Position.mk 6 1)) "alice"
               Scenario.fresh 2000)) = true.
Proof.
  assert (H : Forall (fun c => is_Some (Character.movementPointsLeft c))
                     (GameState.characters Scenario.fresh))
    by (repeat constructor; eexists; reflexivity).
  split; [exact H|].
  assert (Ho : { opts : BattleManager.AvailableActions
               | fst (BattleManager.getAvailableActions Scenario.clearSight "w1"
                        Scenario.fresh) = Some opts
                 /\ Position.mk 6 1 ∈ BattleManager.availableMoves opts }).
  { eexists. split; [vm_compute; reflexivity|]. cbn. apply list_elem_of_In. cbn. auto. }
  destruct Ho as (opts & Ho & Hp).
  destruct (offers_are_honoured Scenario.clearSight "w1" Scenario.fresh opts H
              (createBattle_distinctIds Scenario.uuid 1000 "alice" "bob"
                 scenario_uuid_distinct) Ho)
    as (_ & Hmove & _).
  exact (Hmove "alice" (Position.mk 7 1) (Position.mk 6 1) 2000 eq_refl Hp).
Defined.

(** ** The search ends *)

Lemma gridKeys_valid p :
  GridSystem.isValidPosition p = true ->
  (Position.x p, Position.y p) ∈ gridKeys.
Proof.
  unfold GridSystem.isValidPosition, gridKeys. intros H.
  apply andb_true_iff in H as [H Hy2]. apply andb_true_iff in H as [H Hy1].
  apply andb_true_iff in H as [Hx1 Hx2].
  apply elem_of_list_to_set, list_elem_of_bind. exists (Position.x p). split.
  - apply list_elem_of_fmap. exists (Position.y p). split; [reflexivity|].
    apply elem_of_seqZ. lia.
  - apply elem_of_seqZ. lia.
Qed.

Lemma gridKeys_size : size gridKeys = 80%nat.
Proof. vm_compute. reflexivity. Qed.

Lemma enqueue_iterationsLeft goal characters movingId path acc n :
  GridSystem.isValidPosition n = true ->
  (iterationsLeft
     (fst (MovementSystem.enqueue goal characters movingId path acc n))
     (snd (MovementSystem.enqueue goal characters movingId path acc n))
   <= iterationsLeft (fst acc) (snd acc))%nat.
Proof.
  intros Hv. unfold MovementSystem.enqueue.
  destruct (bool_decide _) eqn:Hin; [lia|].
  apply bool_decide_eq_false in Hin.
  destruct (_ && _); [lia|]. cbn [fst snd]. unfold iterationsLeft.
  rewrite length_app. cbn [length].
  pose proof (gridKeys_valid n Hv) as Hk.
  assert (Hsub : gridKeys ∖ ({[(Position.x n, Position.y n)]} ∪ snd acc)
                 ⊂ gridKeys ∖ snd acc).
  { split.
    - intros k Hin'. apply elem_of_difference in Hin' as [Hg Hn].
      apply elem_of_difference. split; [exact Hg|].
      intros Hv'. apply Hn, elem_of_union. right. exact Hv'.
    - intros Hc.
      assert (Hy : (Position.x n, Position.y n) ∈ gridKeys ∖ snd acc)
        by (apply elem_of_difference; split; assumption).
      apply Hc, elem_of_difference in Hy as [_ Hy].
      apply Hy, elem_of_union. left. apply elem_of_singleton. reflexivity. }
  apply subset_size in Hsub. lia.
Qed.

Lemma enqueue_all_iterationsLeft goal characters movingId path cells :
  Forall (fun n => GridSystem.isValidPosition n = true) cells ->
  forall acc,
    (iterationsLeft
       (fst (fold_left (MovementSystem.enqueue goal characters movingId path) cells acc))
       (snd (fold_left (MovementSystem.enqueue goal characters movingId path) cells acc))
     <= iterationsLeft (fst acc) (snd acc))%nat.
Proof.
  induction 1 as [|n cells Hn _ IH]; intros acc; cbn [fold_left]; [lia|].
  etransitivity; [apply IH|]. apply enqueue_iterationsLeft, Hn.
Qed.

Lemma getAdjacentCells_valid p :
  Forall (fun n => GridSystem.isValidPosition n = true) (GridSystem.getAdjacentCells p).
Proof.
  apply Forall_forall. intros n Hn. apply list_elem_of_In in Hn.
  apply neighbour_one_step in Hn. apply Hn.
Qed.

Lemma bfs_halts goal characters movingId :
  forall fuel queue visited,
    (iterationsLeft queue visited <= fuel)%nat ->
    MovementSystem.bfs fuel goal characters movingId queue visited
    <> MovementSystem.StillSearching.
Proof.
  induction fuel as [|fuel IH]; intros queue visited Hle.
  - destruct queue; [discriminate|]. unfold iterationsLeft in Hle. cbn in Hle. lia.
  - cbn [MovementSystem.bfs]. destruct queue as [|[pos path] queue]; [discriminate|].
    destruct (GridSystem.positionsEqual pos goal); [discriminate|].
    pose proof (enqueue_all_iterationsLeft goal characters movingId path _
                  (getAdjacentCells_valid pos) (queue, visited)) as Hstep.
    destruct (fold_left _ _ _) as [queue' visited']. cbn [fst snd] in Hstep.
    apply IH. unfold iterationsLeft in *. cbn [length] in Hle. lia.
Qed.

Lemma bfs_stable goal characters movingId k :
  forall fuel queue visited,
    MovementSystem.bfs fuel goal characters movingId queue visited
    <> MovementSystem.StillSearching ->
    MovementSystem.bfs (fuel + k) goal characters movingId queue visited
    = MovementSystem.bfs fuel goal characters movingId queue visited.
Proof.
  induction fuel as [|fuel IH]; intros queue visited Hne.
  - destruct queue; [|contradiction Hne; reflexivity]. destruct k; reflexivity.
  - cbn [MovementSystem.bfs Nat.add] in *.
    destruct queue as [|[pos path] queue]; [reflexivity|].
    destruct (GridSystem.positionsEqual pos goal); [reflexivity|].
    destruct (fold_left _ _ _) as [queue' visited']. apply IH, Hne.
Qed.

(** X25. The loop of [findPathBFS], on which the source puts no bound,
    ends within 81 iterations whatever the start, the goal and the
    characters on the grid: the search gives a path or null, and counting
    more iterations gives the same answer. *)
Theorem findPathBFS_halts :
  forall (k : nat) (start goal : Position) (characters : list Character)
         (movingId : string),
    MovementSystem.findPathBFS 81 start goal characters movingId
    <> MovementSystem.StillSearching
    /\ MovementSystem.findPathBFS (81 + k) start goal characters movingId
       = MovementSystem.findPathBFS 81 start goal characters movingId.
Proof.
  intros k start goal characters movingId.
  assert (H : MovementSystem.bfs 81 goal characters movingId [(start, [start])]
                {[ (Position.x start, Position.y start) ]}
              <> MovementSystem.StillSearching).
  { apply bfs_halts. unfold iterationsLeft. cbn [length].
    assert (size (gridKeys ∖ {[(Position.x start, Position.y start)]}) <= 80)%nat;
      [|lia].
    rewrite <- gridKeys_size. apply subseteq_size.
    intros key Hkey. apply elem_of_difference in Hkey. apply Hkey. }
  unfold MovementSystem.findPathBFS.
  destruct (GridSystem.positionsEqual start goal); [split; [discriminate|reflexivity]|].
  destruct (negb _); [split; [discriminate|reflexivity]|].
  split; [exact H|]. apply bfs_stable, H.
Qed.
